(** * LMMS: AudioFileProcessor point editing and note playback, the SDL
      audio callback, and the levels of Effect.

    The development embeds
    - [plugins/AudioFileProcessor/AudioFileProcessor.cpp]: the three slots
      [startPointChanged], [endPointChanged], [loopPointChanged], the
      recomputation [pointChanged], [setAudioFile] and [playNote]; further
      [beatLen], [stutterModelChanged], and of the wave view
      [updateSampleRange], [zoom], [slide], [reverse], the marker choice of
      [mousePressEvent], the marker positions of [paintEvent], the knobs'
      [checkBound] and [slideTo], and [openAudioFile] of the plugin view;
    - [src/core/audio/AudioSdl.cpp]: both variants of [sdlAudioCallback];
    - [include/Effect.h]: [wetLevel], [dryLevel], [gate] and [timeout];
    - [src/gui/SetupDialog.cpp]: [setBufferSize].

    Numbers.  The C++ code computes on [float].  The normalized markers and
    the audio samples are idealised as exact rationals ([Q]): their
    comparisons and their arithmetic (the nudges by 0.001, the product
    with the gain) are the exact ones.  Where a result depends on the
    rounding, the operations are rounded as binary32 rounds them, with
    [round32]: the frame markers of [Direct.pointChanged], [dryLevel],
    [gate], [timeout] and [beatLen].  Module [Binary32] has the point
    editing once more on the binary32 values of the Standard Library's
    [SpecFloat], to evaluate concrete inputs and to compare [round32]
    with.  Frame counts and indices are [Z].

    Signals.  [FloatModel::setValue] is taken to store the clamped value
    and to emit [dataChanged] when the stored value differs from the one
    the model had.  The point editing is embedded twice.  The functions
    [setStart], [setEnd], [setLoop] at top level run the body of the
    slot once per edit, the stores inside it starting no further slot.
    Module [Direct] follows the connections of the constructor
    ([Qt::DirectConnection]): a store that changes a value runs the slot
    of that model at once, inside the slot that stored. *)

From Stdlib Require Import QArith ZArith List Bool Lia Lqa Qround Qpower.
From Stdlib Require Strings.Byte.
From Stdlib Require Import SpecFloat.
Import ListNotations.

Open Scope Q_scope.
(** ** Comparisons and the Qt helpers on idealised floats *)

Definition Qltb (a b : Q) : bool := negb (Qle_bool b a).
Definition Qleb (a b : Q) : bool := Qle_bool a b.
Definition Qeqb (a b : Q) : bool := Qeq_bool a b.

(** [qMax(a, b)] is [(a < b) ? b : a]; [qMin(a, b)] is [(a < b) ? a : b];
    [qBound(lo, v, hi)] is [qMax(lo, qMin(hi, v))]. *)
Definition qMax (a b : Q) : Q := if Qltb a b then b else a.
Definition qMin (a b : Q) : Q := if Qltb a b then a else b.
Definition qBound (lo v hi : Q) : Q := qMax lo (qMin hi v).

(** [static_cast<f_cnt_t>(x)]: conversion of a float to an integer type
    truncates toward zero. *)
Definition Qtrunc (x : Q) : Z :=
  if Qltb x 0 then (- Qfloor (- x))%Z else Qfloor x.

(** ** Data model of the AudioFileProcessor plugin *)

(** [Sample::Loop].  The loop-mode model is an [IntModel] with range 0..2
    that [playNote] reads through [static_cast<Sample::Loop>]. *)
Inductive Loop : Type := LoopOff | LoopOn | LoopPingPong.

(** The part of [Sample] that the plugin reads and writes: the length of
    the buffer and the four point markers in frame units. *)
Record Sample : Type := mkSample {
  sampleSize : Z;
  startFrame : Z;
  endFrame : Z;
  loopStartFrame : Z;
  loopEndFrame : Z
}.

(** [Sample::setAllPointFrames(start, end, loopStart, loopEnd)]. *)
Definition setAllPointFrames (s : Sample) (fs fe fls fle : Z) : Sample :=
  mkSample (sampleSize s) fs fe fls fle.

(** The members of [AudioFileProcessor] that the embedded functions use.
    The three point models hold the normalized markers. *)
Record AudioFileProcessor : Type := mkAFP {
  m_sample : Sample;
  m_startPointModel : Q;
  m_endPointModel : Q;
  m_loopPointModel : Q;
  m_loopModel : Loop;
  m_stutterModel : bool;
  m_interpolationModel : Z;
  m_nextPlayStartPoint : Z;
  m_nextPlayBackwards : bool
}.

(** Modelled from the spec: [FloatModel::setValue] of the point models (the
    class [AutomatableModel] is not among the sources).  The models are
    constructed with minimum 0 and maximum 1; setting a value stores it
    clamped to that range.  The three functions below store and nothing
    else; the signal [dataChanged] is the business of the edit
    operations. *)
Definition fittedValue (v : Q) : Q := qBound 0 v 1.

Definition startPoint_setValue (v : Q) (a : AudioFileProcessor) :=
  mkAFP (m_sample a) (fittedValue v) (m_endPointModel a) (m_loopPointModel a)
        (m_loopModel a) (m_stutterModel a) (m_interpolationModel a)
        (m_nextPlayStartPoint a) (m_nextPlayBackwards a).

Definition endPoint_setValue (v : Q) (a : AudioFileProcessor) :=
  mkAFP (m_sample a) (m_startPointModel a) (fittedValue v) (m_loopPointModel a)
        (m_loopModel a) (m_stutterModel a) (m_interpolationModel a)
        (m_nextPlayStartPoint a) (m_nextPlayBackwards a).

Definition loopPoint_setValue (v : Q) (a : AudioFileProcessor) :=
  mkAFP (m_sample a) (m_startPointModel a) (m_endPointModel a) (fittedValue v)
        (m_loopModel a) (m_stutterModel a) (m_interpolationModel a)
        (m_nextPlayStartPoint a) (m_nextPlayBackwards a).

(** [m_nextPlayStartPoint = p; m_nextPlayBackwards = b;] *)
Definition setNextPlay (p : Z) (b : bool) (a : AudioFileProcessor) :=
  mkAFP (m_sample a) (m_startPointModel a) (m_endPointModel a)
        (m_loopPointModel a) (m_loopModel a) (m_stutterModel a)
        (m_interpolationModel a) p b.

Definition setSample (s : Sample) (a : AudioFileProcessor) :=
  mkAFP s (m_startPointModel a) (m_endPointModel a)
        (m_loopPointModel a) (m_loopModel a) (m_stutterModel a)
        (m_interpolationModel a) (m_nextPlayStartPoint a)
        (m_nextPlayBackwards a).

(** ** Point editing *)

(** The nudge [0.001f]. *)
Definition eps : Q := 1 # 1000.

(** [static_cast<f_cnt_t>(model.value() * m_sample.sampleSize())], the
    product taken exactly ([Direct.toFrame] rounds it as [float] does). *)
Definition toFrame (v : Q) (s : Sample) : Z :=
  Qtrunc (v * inject_Z (sampleSize s)).

(** [AudioFileProcessor::pointChanged] *)
Definition pointChanged (a : AudioFileProcessor) : AudioFileProcessor :=
  let f_start := toFrame (m_startPointModel a) (m_sample a) in
  let f_end := toFrame (m_endPointModel a) (m_sample a) in
  let f_loop := toFrame (m_loopPointModel a) (m_sample a) in
  let a := setNextPlay f_start false a in
  setSample (setAllPointFrames (m_sample a) f_start f_end f_loop f_end) a.

(** The four conflict-resolution steps of [startPointChanged], in the
    order of the source. *)

(** "check if start is over end and swap values if so" *)
Definition swapStartEnd (a : AudioFileProcessor) : AudioFileProcessor :=
  if Qltb (m_endPointModel a) (m_startPointModel a) then
    let tmp := m_endPointModel a in
    let a := endPoint_setValue (m_startPointModel a) a in
    startPoint_setValue tmp a
  else a.

(** "nudge loop point with end" *)
Definition nudgeLoopWithEnd (a : AudioFileProcessor) : AudioFileProcessor :=
  if Qleb (m_endPointModel a) (m_loopPointModel a) then
    loopPoint_setValue (qMax (m_endPointModel a - eps) 0) a
  else a.

(** "nudge loop point with start" *)
Definition nudgeLoopWithStart (a : AudioFileProcessor) : AudioFileProcessor :=
  if Qltb (m_loopPointModel a) (m_startPointModel a) then
    loopPoint_setValue (m_startPointModel a) a
  else a.

(** "check if start & end overlap and nudge end up if so" *)
Definition nudgeEndUp (a : AudioFileProcessor) : AudioFileProcessor :=
  if Qeqb (m_startPointModel a) (m_endPointModel a) then
    endPoint_setValue (qMin (m_endPointModel a + eps) 1) a
  else a.

(** [AudioFileProcessor::startPointChanged] *)
Definition startPointChanged (a : AudioFileProcessor) : AudioFileProcessor :=
  let a := swapStartEnd a in
  let a := nudgeLoopWithEnd a in
  let a := nudgeLoopWithStart a in
  let a := nudgeEndUp a in
  pointChanged a.

(** [AudioFileProcessor::endPointChanged]: "same as start, for now". *)
Definition endPointChanged (a : AudioFileProcessor) : AudioFileProcessor :=
  startPointChanged a.

(** The two steps of [loopPointChanged]. *)

(** "check that loop point is between start-end points and not overlapping
    with endpoint ...and move start/end points ahead if loop point is moved
    over them" *)
Definition pushEndWithLoop (a : AudioFileProcessor) : AudioFileProcessor :=
  if Qleb (m_endPointModel a) (m_loopPointModel a) then
    let a := endPoint_setValue (m_loopPointModel a + eps) a in
    if Qeqb (m_endPointModel a) 1 then
      loopPoint_setValue (1 - eps) a
    else a
  else a.

(** "nudge start point with loop" *)
Definition nudgeStartWithLoop (a : AudioFileProcessor) : AudioFileProcessor :=
  if Qltb (m_loopPointModel a) (m_startPointModel a) then
    startPoint_setValue (m_loopPointModel a) a
  else a.

(** [AudioFileProcessor::loopPointChanged] *)
Definition loopPointChanged (a : AudioFileProcessor) : AudioFileProcessor :=
  let a := pushEndWithLoop a in
  let a := nudgeStartWithLoop a in
  pointChanged a.

(** The normalized point-edit operations with the slot run once: the new
    fraction is stored in the model, then the body of the slot connected
    to that model resolves the conflicts, and the stores inside that body
    start no slot of their own.  The code connects the signals with
    [Qt::DirectConnection], so that a store inside a slot that changes a
    value does run the slot of that model; module [Direct] below embeds
    that.  The two agree as long as the slots started inside find nothing
    more to change: for [setLoop] on a state with start <= loop < end
    (lemma [direct_setLoop_markers]), for [setEnd 0] on a fresh plugin
    (lemma [direct_setEnd_zero_frames]).  They differ at the upper bound:
    [setStart 1] on a fresh plugin ends with all three markers at 1 here,
    and with start and loop at 0.999 below end at 1 in [Direct]. *)
Definition setStart (v : Q) (a : AudioFileProcessor) : AudioFileProcessor :=
  startPointChanged (startPoint_setValue v a).

Definition setEnd (v : Q) (a : AudioFileProcessor) : AudioFileProcessor :=
  endPointChanged (endPoint_setValue v a).

Definition setLoop (v : Q) (a : AudioFileProcessor) : AudioFileProcessor :=
  loopPointChanged (loopPoint_setValue v a).

(** [AudioFileProcessor::setAudioFile]: a sample of [n] frames replaces the
    old one, then [loopPointChanged] runs. *)
Definition setAudioFile (n : N) (a : AudioFileProcessor) : AudioFileProcessor :=
  let size := Z.of_N n in
  loopPointChanged (setSample (mkSample size 0 size 0 size) a).

(** The constructor: an empty sample, start 0, end 1, loop 0, no looping,
    no stutter, linear interpolation, then [pointChanged]. *)
Definition AudioFileProcessor_new : AudioFileProcessor :=
  pointChanged (mkAFP (mkSample 0 0 0 0 0) 0 1 0 LoopOff false 1%Z 0%Z false).

(** Sequences of edits. *)
Inductive edit : Type :=
  | SetStart (v : Q)
  | SetEnd (v : Q)
  | SetLoop (v : Q)
  | SetAudioFile (n : N).

Definition applyEdit (a : AudioFileProcessor) (e : edit) : AudioFileProcessor :=
  match e with
  | SetStart v => setStart v a
  | SetEnd v => setEnd v a
  | SetLoop v => setLoop v a
  | SetAudioFile n => setAudioFile n a
  end.

Definition applyEdits (es : list edit) (a : AudioFileProcessor)
  : AudioFileProcessor :=
  fold_left applyEdit es a.

(** The states the plugin reaches from its constructor by edits. *)
Inductive reachable : AudioFileProcessor -> Prop :=
  | reach_new : reachable AudioFileProcessor_new
  | reach_edit a e : reachable a -> reachable (applyEdit a e).


Definition in_range (a : AudioFileProcessor) : Prop :=
  0 <= m_startPointModel a <= 1 /\
  0 <= m_endPointModel a <= 1 /\
  0 <= m_loopPointModel a <= 1.

(** start <= loop < end (hence start < end). *)
Definition ordered (a : AudioFileProcessor) : Prop :=
  m_startPointModel a <= m_loopPointModel a /\
  m_loopPointModel a < m_endPointModel a.


(** The frame markers are the ones [pointChanged] computes. *)
Definition synced (a : AudioFileProcessor) : Prop :=
  startFrame (m_sample a) = toFrame (m_startPointModel a) (m_sample a) /\
  endFrame (m_sample a) = toFrame (m_endPointModel a) (m_sample a) /\
  loopStartFrame (m_sample a) = toFrame (m_loopPointModel a) (m_sample a) /\
  loopEndFrame (m_sample a) = toFrame (m_endPointModel a) (m_sample a).

(** ** Rounding to binary32

    The arithmetic of the C++ code on [float] rounds every result to the
    nearest binary32 value, ties to the value with the even significand.
    [round32] is this rounding on rationals: 24 significant bits, the
    last place never below 2^-149 (the subnormal values).  Overflow is
    left out: a value of magnitude 2^128 or more is rounded like any
    other. *)

Definition pow2 (e : Z) : Q := 2 ^ e.

(** The nearest integer, a tie going to the even one. *)
Definition rne (t : Q) : Z :=
  let f := Qfloor t in
  match Qcompare (t - inject_Z f) (1 # 2) with
  | Lt => f
  | Eq => if Z.even f then f else (f + 1)%Z
  | Gt => (f + 1)%Z
  end.

(** For a positive [x], the exponent [e] with 2^e <= x < 2^(e+1). *)
Definition binade (x : Q) : Z :=
  let e := (Z.log2 (Qnum x) - Z.log2 (Zpos (Qden x)))%Z in
  if Qle_bool (pow2 e) x then e else (e - 1)%Z.

(** The exponent of the last place of the binary32 values next to a
    positive [x]. *)
Definition ulpExp (x : Q) : Z := Z.max (binade x - 23) (-149).

Definition roundPos (x : Q) : Q :=
  inject_Z (rne (x / pow2 (ulpExp x))) * pow2 (ulpExp x).

Definition round32 (x : Q) : Q :=
  match Qcompare x 0 with
  | Eq => 0
  | Gt => roundPos x
  | Lt => - roundPos (- x)
  end.

(** [x] is a binary32 value. *)
Definition isFloat32 (x : Q) : Prop := round32 x == x.

(** The same rounding for [double] (binary64): 53 significant bits, the
    last place never below 2^-1074. *)
Definition ulpExp64 (x : Q) : Z := Z.max (binade x - 52) (-1074).

Definition roundPos64 (x : Q) : Q :=
  inject_Z (rne (x / pow2 (ulpExp64 x))) * pow2 (ulpExp64 x).

Definition round64 (x : Q) : Q :=
  match Qcompare x 0 with
  | Eq => 0
  | Gt => roundPos64 x
  | Lt => - roundPos64 (- x)
  end.


(** ** Note playback *)

(** A stereo frame of the working buffer. *)
Definition sampleFrame : Type := (Q * Q)%type.

Definition zeroFrame : sampleFrame := (0, 0).

(** The converter types of libsamplerate that [playNote] selects from. *)
Inductive SrcMode : Type :=
  | SRC_ZERO_ORDER_HOLD
  | SRC_LINEAR
  | SRC_SINC_MEDIUM_QUALITY.

(** [Sample::PlaybackState]: the cursor of one voice. *)
Record PlaybackState : Type := mkPlaybackState {
  varyingPitch : bool;
  interpolationMode : SrcMode;
  frameIndex : Z;
  backwards : bool
}.

Definition setFrameIndex (i : Z) (p : PlaybackState) : PlaybackState :=
  mkPlaybackState (varyingPitch p) (interpolationMode p) i (backwards p).

Definition setBackwards (b : bool) (p : PlaybackState) : PlaybackState :=
  mkPlaybackState (varyingPitch p) (interpolationMode p) (frameIndex p) b.

(** What [playNote] reads of a [NotePlayHandle], and the per-note slot
    [m_pluginData] (null or a playback state). *)
Record NotePlayHandle : Type := mkNote {
  framesLeftForCurrentPeriod : nat;
  noteOffset : nat;
  frequency : Q;
  isFinished : bool;
  hasDetuningInfo : bool;
  m_pluginData : option PlaybackState
}.

Definition setPluginData (d : option PlaybackState) (n : NotePlayHandle) :=
  mkNote (framesLeftForCurrentPeriod n) (noteOffset n) (frequency n)
         (isFinished n) (hasDetuningInfo n) d.

(** The collaborators of [playNote] that are not among the sources.
    [Sample_play s p frames freq loop] stands for
    [s.play(dst, &p, frames, freq, loop)]: it gives the returned flag, the
    playback state as the call leaves it and the frames it wrote to [dst].
    [applyRelease buf n] stands for [Instrument::applyRelease]. *)
Class PlayEnv : Type := {
  Sample_play :
    Sample -> PlaybackState -> nat -> Q -> Loop ->
    bool * PlaybackState * list sampleFrame;
  applyRelease : list sampleFrame -> NotePlayHandle -> list sampleFrame
}.

(** Writing [src] into [buf] from frame [off] on (what [play] does through
    the pointer [_working_buffer + offset]). *)
Definition blit {A : Type} (off : nat) (src buf : list A) : list A :=
  firstn off buf ++ src ++ skipn (off + length src) buf.

(** [memset(buf, 0, k * sizeof(sampleFrame))] *)
Definition memset0 (k : nat) (buf : list sampleFrame) : list sampleFrame :=
  repeat zeroFrame k ++ skipn k buf.

(** The [switch] on the interpolation model; [SRC_LINEAR] is the initial
    value of [srcmode]. *)
Definition srcmodeOf (v : Z) : SrcMode :=
  if (v =? 0)%Z then SRC_ZERO_ORDER_HOLD
  else if (v =? 1)%Z then SRC_LINEAR
  else if (v =? 2)%Z then SRC_SINC_MEDIUM_QUALITY
  else SRC_LINEAR.

(** The reset of the continuation cursor:
    [m_nextPlayStartPoint = m_sample.startFrame();
     m_nextPlayBackwards = false;] *)
Definition restartCursor (a : AudioFileProcessor) : AudioFileProcessor :=
  setNextPlay (startFrame (m_sample a)) false a.

(** The block [if( !_n->m_pluginData ) { ... }] of [playNote]: the playback
    state the note goes on with, and the plugin as the block leaves it. *)
Definition notePlaybackState (a : AudioFileProcessor) (n : NotePlayHandle)
  : AudioFileProcessor * PlaybackState :=
  match m_pluginData n with
  | Some p => (a, p)
  | None =>
      let a :=
        if m_stutterModel a &&
           (endFrame (m_sample a) <=? m_nextPlayStartPoint a)%Z
        then restartCursor a else a in
      let srcmode := srcmodeOf (m_interpolationModel a) in
      let p := mkPlaybackState (hasDetuningInfo n) srcmode 0 false in
      let p := setFrameIndex (m_nextPlayStartPoint a) p in
      let p := setBackwards (m_nextPlayBackwards a) p in
      (a, p)
  end.

(** The magic key: stutter mode and a frequency below 20. *)
Definition magicKey (a : AudioFileProcessor) (n : NotePlayHandle) : bool :=
  m_stutterModel a && Qltb (frequency n) 20.

(** What a call of [playNote] leaves behind: the plugin, the note, the
    working buffer and the values emitted through [isPlaying]. *)
Record PlayResult : Type := mkPlayResult {
  plugin : AudioFileProcessor;
  note : NotePlayHandle;
  workingBuffer : list sampleFrame;
  emitted : list Z
}.

(** [playNote] from the creation of the playback state on (everything
    after the magic-key test). *)
Definition playNoteBody `{PlayEnv} (a : AudioFileProcessor)
  (n : NotePlayHandle) (buf : list sampleFrame) : PlayResult :=
  let frames := framesLeftForCurrentPeriod n in
  let offset := noteOffset n in
  let '(a, p) := notePlaybackState a n in
  let n := setPluginData (Some p) n in
  let '(p, buf, ev) :=
    if negb (isFinished n) then
      let '(ok, p', out) :=
        Sample_play (m_sample a) p frames (frequency n) (m_loopModel a) in
      let buf := blit offset out buf in
      if ok then (p', applyRelease buf n, [frameIndex p'])
      else (p', memset0 (frames + offset) buf, [0%Z])
    else (p, buf, [0%Z]) in
  let n := setPluginData (Some p) n in
  let a :=
    if m_stutterModel a then
      setNextPlay (frameIndex p) (backwards p) a
    else a in
  mkPlayResult a n buf ev.

(** [AudioFileProcessor::playNote] *)
Definition playNote `{PlayEnv} (a : AudioFileProcessor)
  (n : NotePlayHandle) (buf : list sampleFrame) : PlayResult :=
  if magicKey a n then
    mkPlayResult (restartCursor a) n buf []
  else playNoteBody a n buf.

(** The next period of a note: the framework calls [playNote] again on the
    same handle, whose frame count, offset, frequency and finished flag are
    those of the new period; the plugin data stays. *)
Record Period : Type := mkPeriod {
  p_plugin : AudioFileProcessor;
  p_frames : nat;
  p_offset : nat;
  p_frequency : Q;
  p_finished : bool;
  p_buffer : list sampleFrame
}.

Definition atPeriod (n : NotePlayHandle) (q : Period) : NotePlayHandle :=
  mkNote (p_frames q) (p_offset q) (p_frequency q) (p_finished q)
         (hasDetuningInfo n) (m_pluginData n).

(** Running [playNote] over the successive periods of one note; the result
    of each period is kept. *)
Fixpoint playPeriods `{PlayEnv} (n : NotePlayHandle) (qs : list Period)
  : list PlayResult :=
  match qs with
  | [] => []
  | q :: qs =>
      let r := playNote (p_plugin q) (atPeriod n q) (p_buffer q) in
      r :: playPeriods (note r) qs
  end.

(** A buffer [out] holds no sound that was not in [buf]: each of its frames
    is zero or the frame [buf] had there. *)
Definition addsNoSound (buf out : list sampleFrame) : Prop :=
  forall i, nth i out zeroFrame = zeroFrame \/
            nth i out zeroFrame = nth i buf zeroFrame.

(** Modelled from the spec: when [Sample::play] reports exhaustion
    ([Sample] is not among the sources).  Rendering reports exhaustion
    exactly when the cursor is past the end with loop mode Off, and such a
    call leaves the playback state as it is. *)
Definition pastEnd (s : Sample) (p : PlaybackState) (l : Loop) : bool :=
  match l with
  | LoopOff => (endFrame s <=? frameIndex p)%Z
  | _ => false
  end.

Definition playReportsExhaustion `{PlayEnv} : Prop :=
  forall s p k f l,
    fst (fst (Sample_play s p k f l)) = negb (pastEnd s p l) /\
    (fst (fst (Sample_play s p k f l)) = false ->
     snd (fst (Sample_play s p k f l)) = p).

(** [Sample::play] writes at most the requested number of frames. *)
Definition playWritesPeriod `{PlayEnv} : Prop :=
  forall s p k f l, (length (snd (Sample_play s p k f l)) <= k)%nat.

(** A renderer for concrete runs: past the end with loop mode Off it
    reports exhaustion and writes nothing; otherwise it writes [k] frames
    of a constant signal and moves the cursor by [k]. *)
Definition constantPlay (s : Sample) (p : PlaybackState) (k : nat) (f : Q)
  (l : Loop) : bool * PlaybackState * list sampleFrame :=
  if pastEnd s p l then (false, p, [])
  else (true, setFrameIndex (frameIndex p + Z.of_nat k) p, repeat (1, 1) k).

Definition constantEnv : PlayEnv :=
  {| Sample_play := constantPlay; applyRelease := fun buf _ => buf |}.

(** A plugin with a 100-frame sample played over its full range. *)
Definition demoPlugin (l : Loop) (stutter : bool) (cursor : Z)
  : AudioFileProcessor :=
  mkAFP (mkSample 100 0 100 0 100) 0 1 0 l stutter 1%Z cursor false.

Definition demoNote (f : Q) (d : option PlaybackState) : NotePlayHandle :=
  mkNote 4 0 f false false d.

(** [playNote] changes nothing of the plugin but the continuation
    cursor. *)
Definition sameSettings (a b : AudioFileProcessor) : Prop :=
  m_sample b = m_sample a /\ m_loopModel b = m_loopModel a /\
  m_stutterModel b = m_stutterModel a /\
  m_interpolationModel b = m_interpolationModel a.


(** The magic-key test of a period. *)
Definition periodMagic (q : Period) : bool :=
  m_stutterModel (p_plugin q) && Qltb (p_frequency q) 20.

(** A period of a note that yields only silence: the call adds no sound to
    the buffer it is given, and when it renders (the note is unfinished and
    the period is not a magic key) the frames of the period, from the start
    of the buffer to the end of the note's span, are zero. *)
Definition silentPeriod (q : Period) (r : PlayResult) : Prop :=
  addsNoSound (p_buffer q) (workingBuffer r) /\
  (p_finished q = false -> periodMagic q = false ->
   firstn (p_frames q + p_offset q) (workingBuffer r) =
   repeat zeroFrame (p_frames q + p_offset q)).

(** ** The SDL audio device *)

Open Scope nat_scope.

(** What the callback needs of its surroundings, none of it among the
    sources: the state of the mixing engine with
    [AudioDevice::getNextBuffer] (the frames of the period it produced, none
    when the engine has nothing, and the engine afterwards),
    [AudioEngine::masterGain], and [AudioDevice::convertToS16] (the bytes it
    writes for the given frames, gain and endianness flag). *)
Class DeviceEnv : Type := {
  Engine : Type;
  getNextBuffer : Engine -> list sampleFrame * Engine;
  masterGain : Q;
  convertToS16 : list sampleFrame -> nat -> Q -> bool -> list Byte.byte
}.

(** The members of [AudioSdl] the callback uses, of both build variants
    (with and without [LMMS_HAVE_SDL2]). *)
Record AudioSdl : Type := mkAudioSdl {
  m_stopped : bool;
  m_outBuf : list sampleFrame;
  channels : nat;
  m_currentBufferFramesCount : nat;
  m_currentBufferFramePos : nat;
  m_convertedBuf : list Byte.byte;
  m_convertedBufSize : nat;
  m_convertedBufPos : nat;
  m_outConvertEndian : bool
}.

Definition setStopped (b : bool) (d : AudioSdl) : AudioSdl :=
  mkAudioSdl b (m_outBuf d) (channels d) (m_currentBufferFramesCount d)
    (m_currentBufferFramePos d) (m_convertedBuf d) (m_convertedBufSize d)
    (m_convertedBufPos d) (m_outConvertEndian d).

Definition setOutBuf (b : list sampleFrame) (d : AudioSdl) : AudioSdl :=
  mkAudioSdl (m_stopped d) b (channels d) (m_currentBufferFramesCount d)
    (m_currentBufferFramePos d) (m_convertedBuf d) (m_convertedBufSize d)
    (m_convertedBufPos d) (m_outConvertEndian d).

Definition setFramesCount (c : nat) (d : AudioSdl) : AudioSdl :=
  mkAudioSdl (m_stopped d) (m_outBuf d) (channels d) c
    (m_currentBufferFramePos d) (m_convertedBuf d) (m_convertedBufSize d)
    (m_convertedBufPos d) (m_outConvertEndian d).

Definition setFramePos (p : nat) (d : AudioSdl) : AudioSdl :=
  mkAudioSdl (m_stopped d) (m_outBuf d) (channels d)
    (m_currentBufferFramesCount d) p (m_convertedBuf d)
    (m_convertedBufSize d) (m_convertedBufPos d) (m_outConvertEndian d).

Definition setConverted (b : list Byte.byte) (size : nat) (d : AudioSdl)
  : AudioSdl :=
  mkAudioSdl (m_stopped d) (m_outBuf d) (channels d)
    (m_currentBufferFramesCount d) (m_currentBufferFramePos d) b size
    (m_convertedBufPos d) (m_outConvertEndian d).

Definition setConvertedPos (p : nat) (d : AudioSdl) : AudioSdl :=
  mkAudioSdl (m_stopped d) (m_outBuf d) (channels d)
    (m_currentBufferFramesCount d) (m_currentBufferFramePos d)
    (m_convertedBuf d) (m_convertedBufSize d) p (m_outConvertEndian d).

(** [AudioSdl::startProcessing] (the flag; pausing is SDL's business). *)
Definition startProcessing (d : AudioSdl) : AudioSdl := setStopped false d.

(** [sizeof(sampleFrame)]: two floats; [sizeof(int_sample_t)]: 16 bits. *)
Definition sizeofSampleFrame : nat := 8.
Definition sizeofIntSample : nat := 2.

(** What one call writes to the callback buffer [_buf], in the order of the
    writes.  Every write starts where the previous one ended: a [memcpy] of
    whole frames (float variant), a [memcpy] of [n] converted bytes
    (fixed-point variant; [bs] are the bytes taken from [m_convertedBuf]),
    or the [memset] to zero of a number of bytes. *)
Inductive chunk : Type :=
  | Frames (fs : list sampleFrame)
  | Bytes (n : nat) (bs : list Byte.byte)
  | Zeros (len : nat).

Definition chunkBytes (c : chunk) : nat :=
  match c with
  | Frames fs => length fs * sizeofSampleFrame
  | Bytes n _ => n
  | Zeros len => len
  end.

Definition bytesWritten (tr : list chunk) : nat :=
  fold_right (fun c n => chunkBytes c + n) 0 tr.

(** The frames a call delivers. *)
Definition delivered (tr : list chunk) : list sampleFrame :=
  flat_map (fun c => match c with Frames fs => fs | _ => [] end) tr.

(** The outcome of a callback: the device and the engine afterwards, what
    was written, and whether the call ended on an empty pull. *)
Record CallbackResult `{DeviceEnv} : Type := mkCallbackResult {
  device : AudioSdl;
  engine : Engine;
  written : list chunk;
  starved : bool
}.

Arguments mkCallbackResult {_} _ _ _ _.

(** [frame[0] *= gain; frame[1] *= gain;] *)
Definition applyGain (gain : Q) (f : sampleFrame) : sampleFrame :=
  (fst f * gain, snd f * gain)%Q.

(** The block [if( m_currentBufferFramePos == 0 ) { ... }] of the float
    variant: either the engine has nothing (left: the engine afterwards) or
    the loop goes on with a device that holds frames (right). *)
Definition floatPull `{DeviceEnv} (d : AudioSdl) (e : Engine)
  : Engine + AudioSdl * Engine :=
  if m_currentBufferFramePos d =? 0 then
    let '(produced, e) := getNextBuffer e in
    let frames := length produced in
    if frames =? 0 then inl e
    else
      let d := setOutBuf (blit 0 produced (m_outBuf d)) d in
      inr (setFramesCount frames d, e)
  else inr (d, e).

(** The rest of the body of the float loop: the gain is applied in place
    to the next [min_frames_count] frames of [m_outBuf], which are then
    copied out; the remaining length and the position are updated. *)
Definition floatDeliver `{DeviceEnv} (d : AudioSdl) (len : nat)
  : AudioSdl * list sampleFrame * nat :=
  let min_frames_count :=
    Nat.min (len / sizeofSampleFrame)
            (m_currentBufferFramesCount d - m_currentBufferFramePos d) in
  let gain := masterGain in
  let pos := m_currentBufferFramePos d in
  let scaled :=
    map (applyGain gain)
        (firstn min_frames_count (skipn pos (m_outBuf d))) in
  let d := setOutBuf (blit pos scaled (m_outBuf d)) d in
  let out := firstn min_frames_count (skipn pos (m_outBuf d)) in
  let len := len - min_frames_count * sizeofSampleFrame in
  let d := setFramePos (pos + min_frames_count) d in
  let d :=
    setFramePos (m_currentBufferFramePos d mod m_currentBufferFramesCount d)
                d in
  (d, out, len).

(** The [while( _len )] loop of the float variant ([LMMS_HAVE_SDL2]).  The
    fuel bounds the number of iterations. *)
Fixpoint floatLoop `{DeviceEnv} (fuel : nat) (d : AudioSdl) (e : Engine)
  (len : nat) : option CallbackResult :=
  match fuel with
  | O => None
  | S fuel =>
      if len =? 0 then Some (mkCallbackResult d e [] false)
      else
        match floatPull d e with
        | inl e => Some (mkCallbackResult d e [Zeros len] true)
        | inr (d, e) =>
            let '(d, out, len) := floatDeliver d len in
            match floatLoop fuel d e len with
            | Some r =>
                Some (mkCallbackResult (device r) (engine r)
                        (Frames out :: written r) (starved r))
            | None => None
            end
        end
  end.

(** [AudioSdl::sdlAudioCallback], float variant. *)
Definition sdlAudioCallback `{DeviceEnv} (fuel : nat) (d : AudioSdl)
  (e : Engine) (len : nat) : option CallbackResult :=
  if m_stopped d then Some (mkCallbackResult d e [Zeros len] false)
  else floatLoop fuel d e len.

(** The block [if( m_convertedBufPos == 0 ) { ... }] of the fixed-point
    variant, up to the conversion. *)
Definition fixedPull `{DeviceEnv} (d : AudioSdl) (e : Engine)
  : Engine + AudioSdl * Engine :=
  if m_convertedBufPos d =? 0 then
    let '(produced, e) := getNextBuffer e in
    let frames := length produced in
    if frames =? 0 then inl e
    else
      let d := setOutBuf (blit 0 produced (m_outBuf d)) d in
      let size := frames * channels d * sizeofIntSample in
      let conv :=
        convertToS16 (m_outBuf d) frames masterGain (m_outConvertEndian d) in
      inr (setConverted (blit 0 conv (m_convertedBuf d)) size d, e)
  else inr (d, e).

(** The rest of the body of the fixed-point loop. *)
Definition fixedDeliver (d : AudioSdl) (len : nat)
  : AudioSdl * chunk * nat :=
  let min_len :=
    Nat.min len (m_convertedBufSize d - m_convertedBufPos d) in
  let out :=
    Bytes min_len
          (firstn min_len (skipn (m_convertedBufPos d) (m_convertedBuf d))) in
  let len := len - min_len in
  let d := setConvertedPos (m_convertedBufPos d + min_len) d in
  let d :=
    setConvertedPos (m_convertedBufPos d mod m_convertedBufSize d) d in
  (d, out, len).

(** The [while( _len )] loop of the fixed-point variant. *)
Fixpoint fixedLoop `{DeviceEnv} (fuel : nat) (d : AudioSdl) (e : Engine)
  (len : nat) : option CallbackResult :=
  match fuel with
  | O => None
  | S fuel =>
      if len =? 0 then Some (mkCallbackResult d e [] false)
      else
        match fixedPull d e with
        | inl e =>
            Some (mkCallbackResult (setStopped true d) e [Zeros len] true)
        | inr (d, e) =>
            let '(d, out, len) := fixedDeliver d len in
            match fixedLoop fuel d e len with
            | Some r =>
                Some (mkCallbackResult (device r) (engine r)
                        (out :: written r) (starved r))
            | None => None
            end
        end
  end.

(** [AudioSdl::sdlAudioCallback], fixed-point variant. *)
Definition sdlAudioCallbackS16 `{DeviceEnv} (fuel : nat) (d : AudioSdl)
  (e : Engine) (len : nat) : option CallbackResult :=
  if m_stopped d then Some (mkCallbackResult d e [Zeros len] false)
  else fixedLoop fuel d e len.

(** The frames the engine hands out over its next [n] pulls, up to the
    first pull that gives nothing. *)
Fixpoint engineStream `{DeviceEnv} (n : nat) (e : Engine) : list sampleFrame :=
  match n with
  | O => []
  | S n =>
      let '(produced, e) := getNextBuffer e in
      match produced with
      | [] => []
      | _ => produced ++ engineStream n e
      end
  end.

(** The frames of the current period that the device has not delivered
    yet. *)
Definition pendingFrames (d : AudioSdl) : list sampleFrame :=
  if m_currentBufferFramePos d =? 0 then []
  else firstn (m_currentBufferFramesCount d - m_currentBufferFramePos d)
              (skipn (m_currentBufferFramePos d) (m_outBuf d)).

(** The position is inside the current period, which fits the buffer. *)
Definition deviceOk (d : AudioSdl) : Prop :=
  m_currentBufferFramePos d = 0 \/
  (m_currentBufferFramePos d < m_currentBufferFramesCount d /\
   m_currentBufferFramesCount d <= length (m_outBuf d)).

(** [l1] is an initial segment of [l2]. *)
Definition isPrefix {A : Type} (l1 l2 : list A) : Prop :=
  exists t, l2 = l1 ++ t.

(** An engine for concrete runs: the periods it will hand out. *)
Definition queueEnv (gain : Q) : DeviceEnv :=
  {| Engine := list (list sampleFrame);
     getNextBuffer := fun e =>
       match e with
       | [] => ([], [])
       | b :: e => (b, e)
       end;
     masterGain := gain;
     convertToS16 := fun _ frames _ _ => repeat Byte.x00 (frames * 4) |}.

(** The device after construction and [startProcessing], for a period of
    [n] frames. *)
Definition AudioSdl_new (n : nat) : AudioSdl :=
  mkAudioSdl false (repeat zeroFrame n) 2 0 0
             (repeat Byte.x00 (n * 2 * sizeofIntSample))
             (n * 2 * sizeofIntSample) 0 false.

Open Scope Q_scope.

Open Scope Q_scope.

(** The state of the fixed-point variant is in order: there are channels,
    and the position is inside the converted buffer. *)
Definition fixedOk (d : AudioSdl) : Prop :=
  (0 < channels d)%nat /\
  (m_convertedBufPos d = 0%nat \/
   m_convertedBufPos d < m_convertedBufSize d)%nat.

(** ** The wet/dry levels of [Effect] *)

(** The members of [Effect] behind its level accessors: the values of the
    wet/dry and gate models and the processor count. *)
Record Effect : Type := mkEffect {
  m_wetDryModel : Q;
  m_gateModel : Q;
  m_processors : nat
}.

(** [Effect::wetLevel] *)
Definition wetLevel (fx : Effect) : Q := m_wetDryModel fx.

(** [Effect::dryLevel]: the subtraction is one of [float]. *)
Definition dryLevel (fx : Effect) : Q := round32 (1 - m_wetDryModel fx).

(** [Effect::gate]: the products are those of [float]. *)
Definition gate (fx : Effect) : Q :=
  let level := m_gateModel fx in
  round32 (round32 (level * level)
           * round32 (inject_Z (Z.of_nat (m_processors fx)))).

(** ** More of [Effect]: the auto-quit timeout *)

(** [Effect::timeout]: [autoQuit] is the value of [m_autoQuitModel] in
    milliseconds, [rate] the engine's processing sample rate and [fpp] its
    frames per period.  The rate is converted to [float], the product and
    the quotient are rounded to [float]; [static_cast<int>] truncates and
    the division is the one of [int]. *)
Definition timeoutSamples (rate : Z) (autoQuit : Q) : Q :=
  round32 (round32 (round32 (inject_Z rate) * autoQuit) / 1000).

Definition timeout (rate : Z) (autoQuit : Q) (fpp : Z) : Z :=
  let samples := timeoutSamples rate autoQuit in
  (1 + Z.quot (Qtrunc samples) fpp)%Z.

(** ** More of the plugin: beat length and the stutter slot *)

(** [AudioFileProcessor::beatLen]: [baseFreq] is the instrument track's
    base frequency, [freq] the note's frequency, [procRate] and [baseRate]
    the engine's processing and base sample rates.  The rates and the
    duration are converted to [float], and every product and quotient is
    rounded to [float]. *)
Definition beatLen (a : AudioFileProcessor) (baseFreq freq : Q)
  (procRate baseRate : Z) : Z :=
  match m_loopModel a with
  | LoopOff =>
      let freqFactor :=
        round32 (round32 (round32 (baseFreq / freq)
                          * round32 (inject_Z procRate))
                 / round32 (inject_Z baseRate)) in
      let startFrame :=
        if (endFrame (m_sample a) <=? m_nextPlayStartPoint a)%Z
        then startFrame (m_sample a)
        else m_nextPlayStartPoint a in
      let duration := (endFrame (m_sample a) - startFrame)%Z in
      Qfloor (round32 (round32 (inject_Z duration) * freqFactor))
  | _ => 0%Z
  end.

(** [AudioFileProcessor::stutterModelChanged]: the slot of the stutter
    model. *)
Definition stutterModelChanged (a : AudioFileProcessor) : AudioFileProcessor :=
  restartCursor a.

(** The stutter button is toggled: the model gets the other value, and
    its slot runs. *)
Definition toggleStutter (a : AudioFileProcessor) : AudioFileProcessor :=
  stutterModelChanged
    (mkAFP (m_sample a) (m_startPointModel a) (m_endPointModel a)
           (m_loopPointModel a) (m_loopModel a) (negb (m_stutterModel a))
           (m_interpolationModel a) (m_nextPlayStartPoint a)
           (m_nextPlayBackwards a)).




(** The continuation cursor is at the start frame, forwards. *)
Definition cursorAtStart (a : AudioFileProcessor) : Prop :=
  m_nextPlayStartPoint a = startFrame (m_sample a) /\
  m_nextPlayBackwards a = false.

(** A note without playback state would begin at the start frame,
    forwards, and the block that creates its state leaves the plugin as it
    is. *)
Definition newNoteFromStart (a : AudioFileProcessor) (n : NotePlayHandle)
  : Prop :=
  fst (notePlaybackState a n) = a /\
  frameIndex (snd (notePlaybackState a n)) = startFrame (m_sample a) /\
  backwards (snd (notePlaybackState a n)) = false.

(** ** The wave view *)

(** Conversions between [f_cnt_t] (a 32-bit [int]: the view mixes it with
    [int] literals in [qMax] and [qBound]) and [size_t] (64 bits). *)
Definition toSizeT (x : Z) : Z := (x mod 2 ^ 64)%Z.
Definition toInt (x : Z) : Z := ((x + 2 ^ 31) mod 2 ^ 32 - 2 ^ 31)%Z.


(** The members of [AudioFileProcessorWaveView] that hold the window shown
    ([m_from], [m_to]) and the mirror flag, and the widget's width. *)
Record WaveView : Type := mkWaveView {
  m_from : Z;
  m_to : Z;
  m_reversed : bool;
  width : Z
}.

Definition setWindow (from to : Z) (w : WaveView) : WaveView :=
  mkWaveView from to (m_reversed w) (width w).

(** [AudioFileProcessorWaveView::updateSampleRange] *)
Definition updateSampleRange (s : Sample) (w : WaveView) : WaveView :=
  if (1 <? sampleSize s)%Z then
    let marging := Qtrunc (inject_Z (endFrame s - startFrame s) * (1 # 10)) in
    let from := Z.max 0 (startFrame s - marging) in
    let to :=
      toInt (Z.min (toSizeT (endFrame s + marging)) (toSizeT (sampleSize s))) in
    setWindow from to w
  else w.


(** [qAbs] on idealised floats. *)
Definition qAbs (x : Q) : Q := if Qleb 0 x then x else - x.




(** [AudioFileProcessorWaveView::reverse]: the mirrored window and the
    argument of the call of [slideSampleByFrames].  The differences are
    computed in [size_t] and stored in [f_cnt_t]. *)
Definition reverse (s : Sample) (w : WaveView) : WaveView * Z :=
  let size := toSizeT (sampleSize s) in
  let shift :=
    toInt (toSizeT (toSizeT (size - toSizeT (endFrame s))
                    - toSizeT (startFrame s))) in
  let from := m_from w in
  let new_from := toInt (toSizeT (size - toSizeT (m_to w))) in
  let new_to := toInt (toSizeT (size - toSizeT from)) in
  (mkWaveView new_from new_to (negb (m_reversed w)) (width w), shift).

(** [paintEvent]: the x position of the line drawn for frame [f]; [gx] and
    [gw] are the left edge and the width of the graph rectangle. *)
Definition markerX (gx gw : Z) (f : Z) (w : WaveView) : Z :=
  let frames := (m_to w - m_from w)%Z in
  Qtrunc (inject_Z gx
          + inject_Z (f - m_from w) * inject_Z gw / inject_Z frames).

(** The dragging modes of the wave view. *)
Inductive DraggingType : Type :=
  | DragWave
  | DragSampleStart
  | DragSampleEnd
  | DragSampleLoop.

(** [mousePressEvent]: the dragging mode chosen for a press at [x], given
    the pixel positions of the three marker lines. *)
Definition mousePressDragging (x startX endX loopX : Z) : DraggingType :=
  let start_dist := Z.abs (startX - x) in
  let end_dist := Z.abs (endX - x) in
  let loop_dist := Z.abs (loopX - x) in
  let '(dt, md) :=
    if (start_dist <? loop_dist)%Z then (DragSampleStart, start_dist)
    else if (end_dist <? loop_dist)%Z then (DragSampleEnd, end_dist)
    else (DragSampleLoop, loop_dist) in
  if (md <? 4)%Z then dt else DragWave.

(** ** The knobs of the wave view *)

(** [AudioFileProcessorWaveView::Point]: the three knobs.  [setKnobs]
    relates the start knob to the end knob and the end knob to the start
    knob; the loop knob has no related knob.  Each knob's model is the
    plugin's point model of the same name. *)
Inductive Point : Type := PointStart | PointEnd | PointLoop.

Definition knobValue (k : Point) (a : AudioFileProcessor) : Q :=
  match k with
  | PointStart => m_startPointModel a
  | PointEnd => m_endPointModel a
  | PointLoop => m_loopPointModel a
  end.

Definition relatedKnob (k : Point) : option Point :=
  match k with
  | PointStart => Some PointEnd
  | PointEnd => Some PointStart
  | PointLoop => None
  end.

(** [knob::checkBound]; [rate] is the sample rate of the view's sample.
    The argument is a [double], the values of the models are [float]:
    the difference with the argument and the distance [d2] are computed
    in [double], the difference of the two models and the distance [d1]
    in [float]; the literal [0.005] is a [double]. *)
Definition checkBound (k : Point) (a : AudioFileProcessor) (rate : Z)
  (v : Q) : bool :=
  match relatedKnob k with
  | None => true
  | Some rk =>
      let r := knobValue rk a in
      let x := knobValue k a in
      if negb (Bool.eqb (Qltb 0 (round64 (r - v)))
                        (Qleb 0 (round32 (r - x)))) then false
      else
        let size := inject_Z (sampleSize (m_sample a)) in
        let d1 :=
          round32 (round32 (qAbs (round32 (r - x)) * round32 size)
                   / round32 (inject_Z rate)) in
        let d2 :=
          round64 (round64 (qAbs (round64 (r - v)) * round64 size)
                   / round64 (inject_Z rate)) in
        Qltb d1 d2 || Qltb (round64 (5 # 1000)) d2
  end.

(** ** The buffer-size slider of the setup dialog *)

(** What a call of [SetupDialog::setBufferSize] does: it hands a snapped
    value to the slider and returns, or it stores the buffer size (the
    slider shows the value then). *)
Inductive BufferSizeAction : Type :=
  | SliderTo (v : Z)
  | StoreBufferSize (frames : Z).

(** [SetupDialog::setBufferSize]; [step] is [DEFAULT_BUFFER_SIZE / 64].
    The remainder and the quotient are those of [int]. *)
Definition setBufferSize (step value : Z) : BufferSizeAction :=
  if (step <? value)%Z && negb (Z.rem value step =? 0)%Z then
    let mod_value := Z.rem value step in
    if (mod_value <? Z.quot step 2)%Z then SliderTo (value - mod_value)
    else SliderTo (value + step - mod_value)
  else StoreBufferSize (value * 64).

(** ** Successive callbacks *)

Open Scope nat_scope.

(** [k] successive pulls from the engine: the frames they give, in order,
    and the engine afterwards. *)
Fixpoint pullN `{DeviceEnv} (k : nat) (e : Engine)
  : list sampleFrame * Engine :=
  match k with
  | O => ([], e)
  | S k =>
      let '(produced, e) := getNextBuffer e in
      let '(rest, e) := pullN k e in
      (produced ++ rest, e)
  end.

(** What a run of callbacks leaves: the device and the engine, all the
    frames delivered, in order, and whether a call ended on an empty
    pull. *)
Record RunResult `{DeviceEnv} : Type := mkRunResult {
  run_device : AudioSdl;
  run_engine : Engine;
  run_delivered : list sampleFrame;
  run_starved : bool
}.

Arguments mkRunResult {_} _ _ _ _.

(** SDL calls [sdlAudioCallback] (float variant) again and again, each
    time for a whole number of frames ([ns] are the frame counts). *)
Fixpoint sdlAudioCallbacks `{DeviceEnv} (d : AudioSdl) (e : Engine)
  (ns : list nat) : option RunResult :=
  match ns with
  | [] => Some (mkRunResult d e [] false)
  | n :: ns =>
      match sdlAudioCallback (S n) d e (n * sizeofSampleFrame) with
      | None => None
      | Some r =>
          match sdlAudioCallbacks (device r) (engine r) ns with
          | None => None
          | Some rs =>
              Some (mkRunResult (run_device rs) (run_engine rs)
                      (delivered (written r) ++ run_delivered rs)
                      (starved r || run_starved rs))
          end
      end
  end.

Open Scope Q_scope.

(** ** Point editing with the signals of the models *)

(** The point models are connected to their slots with
    [Qt::DirectConnection] (constructor, lines 102-107): when a model
    emits [dataChanged] the slot runs at once, inside the [setValue] call
    that changed the value, and the [setValue] calls of that slot can emit
    again.  Module [Direct] embeds the slots with this nesting.  The depth
    of the nesting is not bounded by the shape of the code, so the slots
    take a fuel that bounds it and return [None] when it runs out. *)
Module Direct.

Definition bind {A B : Type} (x : option A) (f : A -> option B) : option B :=
  match x with
  | Some a => f a
  | None => None
  end.

Notation "x <- e ;; f" := (bind e (fun x => f))
  (at level 61, e at next level, right associativity).

(** The value is stored in the model of point [k], clamped to the model
    range. *)
Definition store (k : Point) (v : Q) (a : AudioFileProcessor)
  : AudioFileProcessor :=
  match k with
  | PointStart => startPoint_setValue v a
  | PointEnd => endPoint_setValue v a
  | PointLoop => loopPoint_setValue v a
  end.

(** [static_cast<f_cnt_t>(model.value() * m_sample.sampleSize())] as the
    program computes it: the length of the sample is converted to
    [float], the product is rounded to [float], and the conversion to the
    frame count truncates. *)
Definition toFrame (v : Q) (s : Sample) : Z :=
  Qtrunc (round32 (v * round32 (inject_Z (sampleSize s)))).

(** [AudioFileProcessor::pointChanged] *)
Definition pointChanged (a : AudioFileProcessor) : AudioFileProcessor :=
  let f_start := toFrame (m_startPointModel a) (m_sample a) in
  let f_end := toFrame (m_endPointModel a) (m_sample a) in
  let f_loop := toFrame (m_loopPointModel a) (m_sample a) in
  let a := setNextPlay f_start false a in
  setSample (setAllPointFrames (m_sample a) f_start f_end f_loop f_end) a.

Section Slots.

(** [emit k a]: the model of point [k] emits [dataChanged] in state [a];
    what the connected slot leaves. *)
Variable emit : Point -> AudioFileProcessor -> option AudioFileProcessor.

(** Modelled from the spec: [FloatModel::setValue] (the class
    [AutomatableModel] is not among the sources).  The value is stored
    clamped to the model range; [dataChanged] is emitted when the stored
    value differs from the one the model had, and not otherwise. *)
Definition setValue (k : Point) (v : Q) (a : AudioFileProcessor)
  : option AudioFileProcessor :=
  if Qeqb (fittedValue v) (knobValue k a) then Some a
  else emit k (store k v a).

(** "check if start is over end and swap values if so" *)
Definition swapStartEnd (a : AudioFileProcessor)
  : option AudioFileProcessor :=
  if Qltb (m_endPointModel a) (m_startPointModel a) then
    let tmp := m_endPointModel a in
    a <- setValue PointEnd (m_startPointModel a) a;;
    setValue PointStart tmp a
  else Some a.

(** "nudge loop point with end" *)
Definition nudgeLoopWithEnd (a : AudioFileProcessor)
  : option AudioFileProcessor :=
  if Qleb (m_endPointModel a) (m_loopPointModel a) then
    setValue PointLoop (qMax (m_endPointModel a - eps) 0) a
  else Some a.

(** "nudge loop point with start" *)
Definition nudgeLoopWithStart (a : AudioFileProcessor)
  : option AudioFileProcessor :=
  if Qltb (m_loopPointModel a) (m_startPointModel a) then
    setValue PointLoop (m_startPointModel a) a
  else Some a.

(** "check if start & end overlap and nudge end up if so" *)
Definition nudgeEndUp (a : AudioFileProcessor)
  : option AudioFileProcessor :=
  if Qeqb (m_startPointModel a) (m_endPointModel a) then
    setValue PointEnd (qMin (m_endPointModel a + eps) 1) a
  else Some a.

(** [AudioFileProcessor::startPointChanged] *)
Definition startPointChanged (a : AudioFileProcessor)
  : option AudioFileProcessor :=
  a <- swapStartEnd a;;
  a <- nudgeLoopWithEnd a;;
  a <- nudgeLoopWithStart a;;
  a <- nudgeEndUp a;;
  Some (pointChanged a).

(** [AudioFileProcessor::endPointChanged]: "same as start, for now". *)
Definition endPointChanged (a : AudioFileProcessor)
  : option AudioFileProcessor :=
  startPointChanged a.

(** "check that loop point is between start-end points and not overlapping
    with endpoint ...and move start/end points ahead if loop point is moved
    over them" *)
Definition pushEndWithLoop (a : AudioFileProcessor)
  : option AudioFileProcessor :=
  if Qleb (m_endPointModel a) (m_loopPointModel a) then
    a <- setValue PointEnd (m_loopPointModel a + eps) a;;
    if Qeqb (m_endPointModel a) 1 then setValue PointLoop (1 - eps) a
    else Some a
  else Some a.

(** "nudge start point with loop" *)
Definition nudgeStartWithLoop (a : AudioFileProcessor)
  : option AudioFileProcessor :=
  if Qltb (m_loopPointModel a) (m_startPointModel a) then
    setValue PointStart (m_loopPointModel a) a
  else Some a.

(** [AudioFileProcessor::loopPointChanged] *)
Definition loopPointChanged (a : AudioFileProcessor)
  : option AudioFileProcessor :=
  a <- pushEndWithLoop a;;
  a <- nudgeStartWithLoop a;;
  Some (pointChanged a).

(** The slot connected to the model of point [k]. *)
Definition slot (k : Point) (a : AudioFileProcessor)
  : option AudioFileProcessor :=
  match k with
  | PointStart => startPointChanged a
  | PointEnd => endPointChanged a
  | PointLoop => loopPointChanged a
  end.

End Slots.

(** The emission of [dataChanged] by the model of point [k]: its slot
    runs, and the emissions inside it run with one unit of fuel less. *)
Fixpoint dataChanged (fuel : nat) (k : Point) (a : AudioFileProcessor)
  : option AudioFileProcessor :=
  match fuel with
  | O => None
  | S fuel => slot (dataChanged fuel) k a
  end.

(** The normalized point-edit operations: [setValue] on the model of the
    point. *)
Definition setStart (fuel : nat) (v : Q) (a : AudioFileProcessor)
  : option AudioFileProcessor :=
  setValue (dataChanged fuel) PointStart v a.

Definition setEnd (fuel : nat) (v : Q) (a : AudioFileProcessor)
  : option AudioFileProcessor :=
  setValue (dataChanged fuel) PointEnd v a.

Definition setLoop (fuel : nat) (v : Q) (a : AudioFileProcessor)
  : option AudioFileProcessor :=
  setValue (dataChanged fuel) PointLoop v a.

(** [AudioFileProcessor::setAudioFile]: a sample of [n] frames replaces the
    old one, then [loopPointChanged] is called. *)
Definition setAudioFile (fuel : nat) (n : N) (a : AudioFileProcessor)
  : option AudioFileProcessor :=
  let size := Z.of_N n in
  loopPointChanged (dataChanged fuel)
    (setSample (mkSample size 0 size 0 size) a).

Definition applyEdit (fuel : nat) (a : AudioFileProcessor) (e : edit)
  : option AudioFileProcessor :=
  match e with
  | SetStart v => setStart fuel v a
  | SetEnd v => setEnd fuel v a
  | SetLoop v => setLoop fuel v a
  | SetAudioFile n => setAudioFile fuel n a
  end.

(** A sequence of edits, each with the given fuel. *)
Fixpoint applyEdits (fuel : nat) (es : list edit) (a : AudioFileProcessor)
  : option AudioFileProcessor :=
  match es with
  | [] => Some a
  | e :: es => a <- applyEdit fuel a e;; applyEdits fuel es a
  end.

End Direct.

(** [o] is a state that satisfies [P]. *)
Definition yields (o : option AudioFileProcessor)
  (P : AudioFileProcessor -> Prop) : Prop :=
  exists a', o = Some a' /\ P a'.

(** The length of the sample, the loop mode, the stutter flag and the
    interpolation mode of [b] are those of [a]. *)
Definition sameRest (a b : AudioFileProcessor) : Prop :=
  sampleSize (m_sample b) = sampleSize (m_sample a) /\
  m_loopModel b = m_loopModel a /\
  m_stutterModel b = m_stutterModel a /\
  m_interpolationModel b = m_interpolationModel a.

(** Whether an edit stores a value the model did not have (loading a file
    always runs [loopPointChanged]). *)
Definition changesValue (a : AudioFileProcessor) (e : edit) : bool :=
  match e with
  | SetStart v => negb (Qeqb (fittedValue v) (m_startPointModel a))
  | SetEnd v => negb (Qeqb (fittedValue v) (m_endPointModel a))
  | SetLoop v => negb (Qeqb (fittedValue v) (m_loopPointModel a))
  | SetAudioFile _ => true
  end.

(** [knob::slideTo], with the slot of the knob's model run by
    [setValue]; the [double] argument is converted to the [float] that
    [setValue] takes. *)
Definition slideTo (fuel : nat) (k : Point) (v : Q)
  (check_bound : bool) (rate : Z) (a : AudioFileProcessor)
  : option AudioFileProcessor :=
  if check_bound && negb (checkBound k a rate v) then Some a
  else Direct.setValue (Direct.dataChanged fuel) k (round32 v) a.

(** What an edit keeps of the rest of the plugin: the loop mode, the
    stutter flag and the interpolation mode, and, unless it loads a file,
    the length of the sample; a loaded file gives the sample its
    length. *)
Definition editKeeps (a : AudioFileProcessor) (e : edit)
  (b : AudioFileProcessor) : Prop :=
  match e with
  | SetAudioFile n =>
      sampleSize (m_sample b) = Z.of_N n /\
      m_loopModel b = m_loopModel a /\
      m_stutterModel b = m_stutterModel a /\
      m_interpolationModel b = m_interpolationModel a
  | _ => sameRest a b
  end.

(** [AudioFileProcessorView::openAudioFile] for a file of [n] frames: the
    plugin loads it, then the wave view (which looks at the plugin's
    sample) updates its range. *)
Definition openAudioFile (fuel : nat) (n : N) (a : AudioFileProcessor)
  (w : WaveView) : option (AudioFileProcessor * WaveView) :=
  match Direct.setAudioFile fuel n a with
  | Some a => Some (a, updateSampleRange (m_sample a) w)
  | None => None
  end.

(** ** The point editing on IEEE binary32 values

    The same slots once more, on the [float] type of the C++ code as the
    Standard Library specifies it (binary32: 24 bits of precision, round
    to nearest even), with the signals of the models, to evaluate concrete
    inputs with the rounding the program has.  Only the normalized markers
    and the frame markers are kept. *)
Module Binary32.

Definition float : Type := spec_float.

Definition prec : Z := 24.
Definition emax : Z := 128.

Definition ofZ (n : Z) : float := binary_normalize prec emax n 0 false.

Definition add : float -> float -> float := SFadd prec emax.
Definition sub : float -> float -> float := SFsub prec emax.
Definition mul : float -> float -> float := SFmul prec emax.
Definition div : float -> float -> float := SFdiv prec emax.
Definition ltb : float -> float -> bool := SFltb.
Definition leb : float -> float -> bool := SFleb.
Definition eqb : float -> float -> bool := SFeqb.

Definition zero : float := ofZ 0.
Definition one : float := ofZ 1.

(** The rational a finite value stands for. *)
Definition toQ (x : float) : Q :=
  match x with
  | S754_finite s m e =>
      (if s then - inject_Z (Zpos m) else inject_Z (Zpos m)) * pow2 e
  | _ => 0
  end.

(** The literal [0.001f]: the binary32 value nearest to 1/1000. *)
Definition eps : float := div (ofZ 1) (ofZ 1000).

Definition qMax (a b : float) : float := if ltb a b then b else a.
Definition qMin (a b : float) : float := if ltb a b then a else b.
Definition qBound (lo v hi : float) : float := qMax lo (qMin hi v).

(** [static_cast<f_cnt_t>(x)] for a finite [x]. *)
Definition trunc (x : float) : Z :=
  match x with
  | S754_finite s m e =>
      let a := match e with
               | Z0 => Zpos m
               | Zpos p => Z.shiftl (Zpos m) (Zpos p)
               | Zneg p => Z.shiftr (Zpos m) (Zpos p)
               end in
      if s then (- a)%Z else a
  | _ => 0%Z
  end.

Record Points : Type := mkPoints {
  startPoint : float;
  endPoint : float;
  loopPoint : float
}.

Definition fittedValue (v : float) : float := qBound zero v one.

Definition value (k : Point) (a : Points) : float :=
  match k with
  | PointStart => startPoint a
  | PointEnd => endPoint a
  | PointLoop => loopPoint a
  end.

Definition store (k : Point) (v : float) (a : Points) : Points :=
  match k with
  | PointStart => mkPoints (fittedValue v) (endPoint a) (loopPoint a)
  | PointEnd => mkPoints (startPoint a) (fittedValue v) (loopPoint a)
  | PointLoop => mkPoints (startPoint a) (endPoint a) (fittedValue v)
  end.

Definition bind (x : option Points) (f : Points -> option Points)
  : option Points :=
  match x with
  | Some a => f a
  | None => None
  end.

Notation "x <- e ;; f" := (bind e (fun x => f))
  (at level 61, e at next level, right associativity).

Section Slots.

Variable emit : Point -> Points -> option Points.

Definition setValue (k : Point) (v : float) (a : Points) : option Points :=
  if eqb (fittedValue v) (value k a) then Some a
  else emit k (store k v a).

Definition swapStartEnd (a : Points) : option Points :=
  if ltb (endPoint a) (startPoint a) then
    let tmp := endPoint a in
    a <- setValue PointEnd (startPoint a) a;;
    setValue PointStart tmp a
  else Some a.

Definition nudgeLoopWithEnd (a : Points) : option Points :=
  if leb (endPoint a) (loopPoint a) then
    setValue PointLoop (qMax (sub (endPoint a) eps) zero) a
  else Some a.

Definition nudgeLoopWithStart (a : Points) : option Points :=
  if ltb (loopPoint a) (startPoint a) then
    setValue PointLoop (startPoint a) a
  else Some a.

Definition nudgeEndUp (a : Points) : option Points :=
  if eqb (startPoint a) (endPoint a) then
    setValue PointEnd (qMin (add (endPoint a) eps) one) a
  else Some a.

Definition startPointChanged (a : Points) : option Points :=
  a <- swapStartEnd a;;
  a <- nudgeLoopWithEnd a;;
  a <- nudgeLoopWithStart a;;
  nudgeEndUp a.

Definition pushEndWithLoop (a : Points) : option Points :=
  if leb (endPoint a) (loopPoint a) then
    a <- setValue PointEnd (add (loopPoint a) eps) a;;
    if eqb (endPoint a) one then setValue PointLoop (sub one eps) a
    else Some a
  else Some a.

Definition nudgeStartWithLoop (a : Points) : option Points :=
  if ltb (loopPoint a) (startPoint a) then
    setValue PointStart (loopPoint a) a
  else Some a.

Definition loopPointChanged (a : Points) : option Points :=
  a <- pushEndWithLoop a;;
  nudgeStartWithLoop a.

Definition slot (k : Point) (a : Points) : option Points :=
  match k with
  | PointStart => startPointChanged a
  | PointEnd => startPointChanged a
  | PointLoop => loopPointChanged a
  end.

End Slots.

Fixpoint dataChanged (fuel : nat) (k : Point) (a : Points)
  : option Points :=
  match fuel with
  | O => None
  | S fuel => slot (dataChanged fuel) k a
  end.

Definition setStart (fuel : nat) (v : float) (a : Points) : option Points :=
  setValue (dataChanged fuel) PointStart v a.
Definition setEnd (fuel : nat) (v : float) (a : Points) : option Points :=
  setValue (dataChanged fuel) PointEnd v a.
Definition setLoop (fuel : nat) (v : float) (a : Points) : option Points :=
  setValue (dataChanged fuel) PointLoop v a.

(** The frame markers [pointChanged] computes for a sample of [n] frames:
    start, end and loop frame. *)
Definition frames (n : Z) (a : Points) : Z * Z * Z :=
  (trunc (mul (startPoint a) (ofZ n)),
   trunc (mul (endPoint a) (ofZ n)),
   trunc (mul (loopPoint a) (ofZ n))).

(** The markers the constructor sets. *)
Definition new : Points := mkPoints zero one zero.

End Binary32.

(** ** Rounding to binary32: the lemmas *)

Lemma pow2_pos e : 0 < pow2 e.
Proof. apply Qpower_0_lt. reflexivity. Qed.

Lemma pow2_add a b : pow2 (a + b) == pow2 a * pow2 b.
Proof. apply Qpower_plus. discriminate. Qed.

Lemma pow2_Z n : (0 <= n)%Z -> pow2 n == inject_Z (2 ^ n).
Proof. intro H. unfold pow2. now rewrite Zpower_Qpower. Qed.

Lemma pow2_le a b : (a <= b)%Z -> pow2 a <= pow2 b.
Proof. intro H. apply Qpower_le_compat_l; [exact H | discriminate]. Qed.

Lemma pow2_lt_inv a b : pow2 a < pow2 b -> (a < b)%Z.
Proof. intro H. apply (Qpower_lt_compat_l_inv 2); [exact H | reflexivity]. Qed.

Lemma pow2_S a : pow2 (a + 1) == 2 * pow2 a.
Proof. rewrite pow2_add. change (pow2 1) with 2. ring. Qed.

Lemma pow2_pred a : pow2 (a - 1) == pow2 a / 2.
Proof.
  replace (a - 1)%Z with (a + -1)%Z by lia. rewrite pow2_add.
  change (pow2 (-1)) with (/ 2). reflexivity.
Qed.

(** *** Nearest integer *)

Lemma floor_frac t :
  inject_Z (Qfloor t) <= t /\ t < inject_Z (Qfloor t) + 1.
Proof.
  split; [apply Qfloor_le|].
  pose proof (Qlt_floor t) as H. rewrite inject_Z_plus in H. exact H.
Qed.

Lemma rne_cases t :
  (rne t = Qfloor t /\ t - inject_Z (Qfloor t) <= 1 # 2) \/
  (rne t = (Qfloor t + 1)%Z /\ 1 # 2 <= t - inject_Z (Qfloor t)).
Proof.
  unfold rne.
  destruct (Qcompare_spec (t - inject_Z (Qfloor t)) (1 # 2)) as [E|E|E].
  - destruct (Z.even (Qfloor t)); [left | right]; split;
      try reflexivity; rewrite E; apply Qle_refl.
  - left. split; [reflexivity | apply Qlt_le_weak, E].
  - right. split; [reflexivity | apply Qlt_le_weak, E].
Qed.

Lemma rne_error t :
  t - (1 # 2) <= inject_Z (rne t) /\ inject_Z (rne t) <= t + (1 # 2).
Proof.
  pose proof (floor_frac t) as [F1 F2].
  destruct (rne_cases t) as [[-> H]|[-> H]].
  - lra.
  - rewrite inject_Z_plus. change (inject_Z 1) with 1. lra.
Qed.

Lemma rne_inject_Z n : rne (inject_Z n) = n.
Proof.
  unfold rne. rewrite Qfloor_Z.
  destruct (Qcompare_spec (inject_Z n - inject_Z n) (1 # 2)) as [E|E|E].
  - lra.
  - reflexivity.
  - lra.
Qed.

Lemma rne_mono t u : t <= u -> (rne t <= rne u)%Z.
Proof.
  intro H.
  pose proof (Qfloor_resp_le _ _ H) as F.
  pose proof (floor_frac t) as [T1 T2].
  pose proof (floor_frac u) as [U1 U2].
  destruct (Z.eq_dec (Qfloor t) (Qfloor u)) as [E|NE].
  - unfold rne. rewrite <- E in *.
    destruct (Qcompare_spec (t - inject_Z (Qfloor t)) (1 # 2)) as [A|A|A];
      destruct (Qcompare_spec (u - inject_Z (Qfloor t)) (1 # 2)) as [B|B|B];
      destruct (Z.even (Qfloor t)); try lia; lra.
  - assert (L : (Qfloor t + 1 <= Qfloor u)%Z) by lia.
    destruct (rne_cases t) as [[-> _]|[-> _]];
      destruct (rne_cases u) as [[-> _]|[-> _]]; lia.
Qed.

Lemma rne_le_Z t n : t <= inject_Z n -> (rne t <= n)%Z.
Proof. intro H. rewrite <- (rne_inject_Z n). now apply rne_mono. Qed.

Lemma rne_ge_Z t n : inject_Z n <= t -> (n <= rne t)%Z.
Proof. intro H. rewrite <- (rne_inject_Z n). now apply rne_mono. Qed.

(** *** The binade of a positive rational *)

Lemma Q_as_quotient x : x == inject_Z (Qnum x) / inject_Z (Zpos (Qden x)).
Proof.
  destruct x as [n d]. cbn [Qnum Qden].
  unfold Qeq, Qdiv, Qmult, Qinv, inject_Z. cbn. lia.
Qed.

Lemma binade_spec x :
  0 < x -> pow2 (binade x) <= x /\ x < pow2 (binade x + 1).
Proof.
  intro P.
  assert (Pn : (0 < Qnum x)%Z).
  { destruct x as [n d]. unfold Qlt in P. cbn in *. lia. }
  pose proof (Z.log2_spec (Qnum x) Pn) as [N1 N2].
  pose proof (Z.log2_spec (Zpos (Qden x)) ltac:(lia)) as [D1 D2].
  pose proof (Z.log2_nonneg (Qnum x)) as Ln.
  pose proof (Z.log2_nonneg (Zpos (Qden x))) as Ld.
  set (ln := Z.log2 (Qnum x)) in *.
  set (ld := Z.log2 (Zpos (Qden x))) in *.
  assert (E : pow2 (ln - ld) == inject_Z (2 ^ ln) / inject_Z (2 ^ ld)).
  { replace (ln - ld)%Z with (ln + - ld)%Z by lia.
    rewrite pow2_add, <- (pow2_Z ln Ln), <- (pow2_Z ld Ld).
    unfold Qdiv. apply Qmult_comp; [reflexivity|].
    unfold pow2. now rewrite Qpower_opp. }
  rewrite Z.pow_succ_r in N2, D2 by assumption.
  assert (A0 : 0 < inject_Z (2 ^ ln)).
  { change 0 with (inject_Z 0). rewrite <- Zlt_Qlt. lia. }
  assert (B0 : 0 < inject_Z (2 ^ ld)).
  { change 0 with (inject_Z 0). rewrite <- Zlt_Qlt. lia. }
  assert (D0 : 0 < inject_Z (Zpos (Qden x))) by reflexivity.
  assert (N1' : inject_Z (2 ^ ln) <= inject_Z (Qnum x))
    by (rewrite <- Zle_Qle; exact N1).
  assert (N2' : inject_Z (Qnum x) < 2 * inject_Z (2 ^ ln)).
  { change 2 with (inject_Z 2). rewrite <- inject_Z_mult, <- Zlt_Qlt.
    exact N2. }
  assert (D1' : inject_Z (2 ^ ld) <= inject_Z (Zpos (Qden x)))
    by (rewrite <- Zle_Qle; exact D1).
  assert (D2' : inject_Z (Zpos (Qden x)) < 2 * inject_Z (2 ^ ld)).
  { change 2 with (inject_Z 2). rewrite <- inject_Z_mult, <- Zlt_Qlt.
    exact D2. }
  pose proof (Q_as_quotient x) as X.
  set (N := inject_Z (Qnum x)) in *.
  set (D := inject_Z (Zpos (Qden x))) in *.
  set (A := inject_Z (2 ^ ln)) in *.
  set (B := inject_Z (2 ^ ld)) in *.
  assert (Up : x < 2 * (A / B)).
  { rewrite X. apply Qlt_shift_div_r; [exact D0|].
    assert (Eq1 : 2 * (A / B) * D == (2 * A * D) / B) by (field; lra).
    rewrite Eq1. apply Qlt_shift_div_l; [exact B0|]. nra. }
  assert (Lo : A / B / 2 <= x).
  { rewrite X. apply Qle_shift_div_l; [exact D0|].
    assert (Eq1 : A / B / 2 * D == (A * D) / (2 * B)) by (field; lra).
    rewrite Eq1. apply Qle_shift_div_r; [lra|]. nra. }
  unfold binade. fold ln ld.
  destruct (Qle_bool (pow2 (ln - ld)) x) eqn:T.
  - apply Qle_bool_iff in T. split; [exact T|].
    rewrite pow2_S, E. exact Up.
  - assert (T' : x < pow2 (ln - ld)).
    { apply Qnot_le_lt. intro C. apply Qle_bool_iff in C. congruence. }
    split.
    + rewrite pow2_pred, E. exact Lo.
    + now replace (ln - ld - 1 + 1)%Z with (ln - ld)%Z by lia.
Qed.

Lemma binade_unique x e :
  0 < x -> pow2 e <= x -> x < pow2 (e + 1) -> binade x = e.
Proof.
  intros P L U. destruct (binade_spec x P) as [L' U'].
  assert (pow2 e < pow2 (binade x + 1)) by lra.
  assert (pow2 (binade x) < pow2 (e + 1)) by lra.
  apply pow2_lt_inv in H, H0. lia.
Qed.

Lemma binade_mono x y : 0 < x -> x <= y -> (binade x <= binade y)%Z.
Proof.
  intros P H.
  destruct (binade_spec x P) as [L _].
  destruct (binade_spec y ltac:(lra)) as [_ U].
  assert (pow2 (binade x) < pow2 (binade y + 1)) by lra.
  apply pow2_lt_inv in H0. lia.
Qed.

Lemma ulpExp_mono x y : 0 < x -> x <= y -> (ulpExp x <= ulpExp y)%Z.
Proof.
  intros P H. pose proof (binade_mono x y P H). unfold ulpExp. lia.
Qed.

(** *** Rounding a positive rational *)

Lemma scaled_back x e : x / pow2 e * pow2 e == x.
Proof. pose proof (pow2_pos e). field. lra. Qed.

Lemma roundPos_error x :
  x - (1 # 2) * pow2 (ulpExp x) <= roundPos x /\
  roundPos x <= x + (1 # 2) * pow2 (ulpExp x).
Proof.
  unfold roundPos. set (u := pow2 (ulpExp x)).
  assert (U : 0 < u) by apply pow2_pos.
  destruct (rne_error (x / u)) as [A B].
  assert (E : x / u * u == x) by apply scaled_back.
  set (t := x / u) in *. set (r := inject_Z (rne t)) in *.
  clearbody t r u.
  assert (H1 : 0 <= (r - (t - (1 # 2))) * u)
    by (apply Qmult_le_0_compat; lra).
  assert (H2 : 0 <= (t + (1 # 2) - r) * u)
    by (apply Qmult_le_0_compat; lra).
  split; lra.
Qed.

Lemma roundPos_nonneg x : 0 < x -> 0 <= roundPos x.
Proof.
  intro P. unfold roundPos. set (u := pow2 (ulpExp x)).
  assert (U : 0 < u) by apply pow2_pos.
  assert (T : (0 <= rne (x / u))%Z).
  { apply rne_ge_Z. change (inject_Z 0) with 0.
    apply Qle_shift_div_l; [exact U | lra]. }
  rewrite Zle_Qle in T. change (inject_Z 0) with 0 in T. nra.
Qed.

(** A multiple of the last place is left as it is. *)
Lemma roundPos_exact x m :
  x == inject_Z m * pow2 (ulpExp x) -> roundPos x == x.
Proof.
  intro E. unfold roundPos. set (u := pow2 (ulpExp x)) in *.
  assert (U : 0 < u) by apply pow2_pos.
  assert (T : x / u == inject_Z m) by (rewrite E; field; lra).
  assert (R : rne (x / u) = m).
  { pose proof (rne_le_Z (x / u) m ltac:(lra)).
    pose proof (rne_ge_Z (x / u) m ltac:(lra)). lia. }
  rewrite R. symmetry. exact E.
Qed.

Lemma roundPos_mono x y : 0 < x -> x <= y -> roundPos x <= roundPos y.
Proof.
  intros P H.
  pose proof (ulpExp_mono x y P H) as M.
  destruct (Z.eq_dec (ulpExp x) (ulpExp y)) as [E|NE].
  - unfold roundPos. rewrite E. set (u := pow2 (ulpExp y)).
    assert (U : 0 < u) by apply pow2_pos.
    assert (T : (rne (x / u) <= rne (y / u))%Z).
    { apply rne_mono. apply Qle_shift_div_l; [exact U|].
      pose proof (scaled_back x (ulpExp y)) as Sx. fold u in Sx. lra. }
    rewrite Zle_Qle in T. nra.
  - assert (L : (ulpExp x < ulpExp y)%Z) by lia.
    assert (Ey : ulpExp y = (binade y - 23)%Z) by (unfold ulpExp in *; lia).
    destruct (binade_spec x P) as [_ Ux].
    destruct (binade_spec y ltac:(lra)) as [Ly _].
    assert (Bx : (binade x + 1 <= binade y)%Z) by (unfold ulpExp in *; lia).
    pose proof (pow2_le _ _ Bx) as PB.
    apply Qle_trans with (pow2 (binade y)).
    + unfold roundPos. set (ux := ulpExp x) in *.
      assert (U : 0 < pow2 ux) by apply pow2_pos.
      assert (K : (0 <= binade y - ux)%Z) by lia.
      assert (S : pow2 (binade y) == inject_Z (2 ^ (binade y - ux)) * pow2 ux).
      { rewrite <- (pow2_Z _ K), <- pow2_add. apply Qpower_comp;
          [reflexivity | lia]. }
      assert (T : (rne (x / pow2 ux) <= 2 ^ (binade y - ux))%Z).
      { apply rne_le_Z. apply Qle_shift_div_r; [exact U|].
        rewrite <- S. lra. }
      rewrite Zle_Qle in T. rewrite S. nra.
    + unfold roundPos. rewrite Ey. set (uy := (binade y - 23)%Z).
      assert (U : 0 < pow2 uy) by apply pow2_pos.
      assert (S : pow2 (binade y) == inject_Z (2 ^ 23) * pow2 uy).
      { rewrite <- (pow2_Z 23 ltac:(lia)), <- pow2_add.
        apply Qpower_comp; [reflexivity | unfold uy; lia]. }
      assert (T : (2 ^ 23 <= rne (y / pow2 uy))%Z).
      { apply rne_ge_Z. apply Qle_shift_div_l; [exact U|].
        rewrite <- S. exact Ly. }
      rewrite Zle_Qle in T. rewrite S. nra.
Qed.

(** *** Rounding *)

Lemma round32_zero x : x == 0 -> round32 x = 0.
Proof.
  intro E. unfold round32. now rewrite (proj1 (Qeq_alt x 0) E).
Qed.

Lemma round32_pos x : 0 < x -> round32 x = roundPos x.
Proof.
  intro P. unfold round32.
  now rewrite (proj1 (Qgt_alt x 0) P).
Qed.

Lemma round32_nonneg x : 0 <= x -> 0 <= round32 x.
Proof.
  intro P. destruct (Qlt_le_dec 0 x) as [H|H].
  - rewrite round32_pos by exact H. now apply roundPos_nonneg.
  - rewrite round32_zero by lra. lra.
Qed.

(** Rounding keeps the order of non-negative values. *)
Lemma round32_mono x y : 0 <= x -> x <= y -> round32 x <= round32 y.
Proof.
  intros P H. destruct (Qlt_le_dec 0 x) as [Px|Zx].
  - rewrite (round32_pos x Px), (round32_pos y) by lra.
    now apply roundPos_mono.
  - rewrite (round32_zero x) by lra. apply round32_nonneg. lra.
Qed.

Lemma round32_comp x y : 0 <= x -> x == y -> round32 x == round32 y.
Proof.
  intros P E. apply Qle_antisym; apply round32_mono; lra.
Qed.

(** Integers up to 2^24 are binary32 values. *)
Lemma round32_inject_Z n :
  (0 <= n <= 2 ^ 24)%Z -> round32 (inject_Z n) == inject_Z n.
Proof.
  intros [N0 N1]. destruct (Z.eq_dec n 0) as [->|NZ]; [reflexivity|].
  assert (P : 0 < inject_Z n).
  { change 0 with (inject_Z 0). rewrite <- Zlt_Qlt. lia. }
  rewrite round32_pos by exact P.
  destruct (binade_spec _ P) as [L U].
  set (b := binade (inject_Z n)) in *.
  assert (B0 : (0 <= b)%Z).
  { assert (pow2 0 < pow2 (b + 1)).
    { apply Qle_lt_trans with (inject_Z n); [|exact U].
      change (pow2 0) with (inject_Z 1). rewrite <- Zle_Qle. lia. }
    apply pow2_lt_inv in H. lia. }
  assert (B1 : (b <= 24)%Z).
  { assert (pow2 b < pow2 25).
    { apply Qle_lt_trans with (inject_Z n); [exact L|].
      rewrite (pow2_Z 25) by lia. rewrite <- Zlt_Qlt. lia. }
    apply pow2_lt_inv in H. lia. }
  assert (Eu : ulpExp (inject_Z n) = (b - 23)%Z) by (unfold ulpExp; lia).
  destruct (Z.eq_dec b 24) as [E24|N24].
  - assert (En : n = (2 ^ 24)%Z).
    { rewrite E24, (pow2_Z 24) in L by lia. rewrite <- Zle_Qle in L. lia. }
    apply (roundPos_exact _ (2 ^ 23)). rewrite Eu, E24, En. reflexivity.
  - apply (roundPos_exact _ (n * 2 ^ (23 - b))). rewrite Eu.
    rewrite inject_Z_mult, <- (pow2_Z (23 - b)) by lia.
    rewrite <- Qmult_assoc, <- pow2_add.
    replace (23 - b + (b - 23))%Z with 0%Z by lia.
    change (pow2 0) with 1. ring.
Qed.

(** Below 1 the rounding error is at most 2^-25. *)
Lemma round32_error_below_one x :
  0 <= x -> x < 1 ->
  x - pow2 (-25) <= round32 x /\ round32 x <= x + pow2 (-25).
Proof.
  intros P U. destruct (Qlt_le_dec 0 x) as [Px|Zx].
  - rewrite round32_pos by exact Px.
    destruct (binade_spec x Px) as [L _].
    assert (B : (binade x < 0)%Z).
    { apply pow2_lt_inv. change (pow2 0) with 1. lra. }
    assert (E : (ulpExp x <= -24)%Z) by (unfold ulpExp; lia).
    pose proof (pow2_le _ _ E) as PE.
    pose proof (roundPos_error x) as [A1 A2].
    assert (H : (1 # 2) * pow2 (-24) == pow2 (-25)) by reflexivity.
    lra.
  - rewrite round32_zero by lra. pose proof (pow2_pos (-25)). lra.
Qed.

(** From 2^-126 on (the normal range) the rounding error is at most
    2^-24 of the value. *)
Lemma round32_relative_error x :
  pow2 (-126) <= x ->
  x - pow2 (-24) * x <= round32 x /\ round32 x <= x + pow2 (-24) * x.
Proof.
  intro L. pose proof (pow2_pos (-126)) as P0.
  assert (P : 0 < x) by lra.
  rewrite round32_pos by exact P.
  destruct (binade_spec x P) as [B1 B2].
  assert (B : (-126 <= binade x)%Z).
  { assert (pow2 (-126) < pow2 (binade x + 1)) by lra.
    apply pow2_lt_inv in H. lia. }
  assert (E : ulpExp x = (binade x - 23)%Z) by (unfold ulpExp; lia).
  pose proof (roundPos_error x) as [A1 A2]. rewrite E in A1, A2.
  assert (H : (1 # 2) * pow2 (binade x - 23)
              == pow2 (-24) * pow2 (binade x)).
  { rewrite <- pow2_add.
    replace (binade x - 23)%Z with (-24 + binade x + 1)%Z by lia.
    rewrite pow2_S. ring. }
  assert (M : pow2 (-24) * pow2 (binade x) <= pow2 (-24) * x).
  { apply Qmult_le_l; [apply pow2_pos | exact B1]. }
  lra.
Qed.

(** *** Rounding next to 1 *)

Ltac qle_compute := apply Qle_bool_iff; vm_compute; reflexivity.

Lemma round32_one : round32 1 == 1.
Proof. vm_compute. reflexivity. Qed.

(** The two neighbours of 1.0 among the [float] values are 1 - 2^-24 and
    1 + 2^-23; a value up to half the way to them is rounded to 1.0, the
    two half-way values included (1.0 has the even significand). *)
Lemma round32_near_one z :
  1 - pow2 (-25) <= z -> z <= 1 + pow2 (-24) -> round32 z == 1.
Proof.
  intros L U.
  assert (P : 0 <= 1 - pow2 (-25)) by qle_compute.
  assert (E1 : round32 (1 - pow2 (-25)) == 1) by (vm_compute; reflexivity).
  assert (E2 : round32 (1 + pow2 (-24)) == 1) by (vm_compute; reflexivity).
  pose proof (round32_mono _ _ P L).
  pose proof (round32_mono z _ ltac:(lra) U).
  lra.
Qed.

Lemma round32_near_one_below z :
  1 - pow2 (-24) <= z -> z <= 1 + pow2 (-24) ->
  1 - pow2 (-24) <= round32 z /\ round32 z <= 1.
Proof.
  intros L U.
  assert (P : 0 <= 1 - pow2 (-24)) by qle_compute.
  assert (E1 : round32 (1 - pow2 (-24)) == 1 - pow2 (-24))
    by (vm_compute; reflexivity).
  assert (E2 : round32 (1 + pow2 (-24)) == 1) by (vm_compute; reflexivity).
  pose proof (round32_mono _ _ P L).
  pose proof (round32_mono z _ ltac:(lra) U).
  lra.
Qed.

(** From 1 to 2 the rounding error is at most 2^-24. *)
Lemma round32_error_one_to_two x :
  1 <= x -> x <= 2 ->
  x - pow2 (-24) <= round32 x /\ round32 x <= x + pow2 (-24).
Proof.
  intros L U. destruct (Qlt_le_dec x 2) as [U'|U'].
  - rewrite round32_pos by lra.
    assert (B : binade x = 0%Z).
    { apply binade_unique; [lra | exact L | exact U']. }
    assert (E : ulpExp x = (-23)%Z) by (unfold ulpExp; rewrite B; reflexivity).
    pose proof (roundPos_error x) as [A1 A2]. rewrite E in A1, A2.
    assert (H : (1 # 2) * pow2 (-23) == pow2 (-24)) by reflexivity.
    lra.
  - assert (E : round32 x == round32 2)
      by (apply round32_comp; lra).
    assert (E2 : round32 2 == 2) by (vm_compute; reflexivity).
    pose proof (pow2_pos (-24)). lra.
Qed.

(** *** Signs *)










(** * Proofs *)

(** ** Comparisons *)

Lemma Qltb_lt a b : Qltb a b = true <-> a < b.
Proof.
  unfold Qltb. rewrite negb_true_iff. split; intro H.
  - apply Qnot_le_lt. intro L. apply Qle_bool_iff in L. congruence.
  - destruct (Qle_bool b a) eqn:E; [|reflexivity].
    apply Qle_bool_iff in E. lra.
Qed.

Lemma Qltb_ge a b : Qltb a b = false <-> b <= a.
Proof.
  unfold Qltb. rewrite negb_false_iff. apply Qle_bool_iff.
Qed.

Lemma Qleb_le a b : Qleb a b = true <-> a <= b.
Proof. apply Qle_bool_iff. Qed.

Lemma Qleb_gt a b : Qleb a b = false <-> b < a.
Proof.
  unfold Qleb. split; intro H.
  - apply Qnot_le_lt. intro L. apply Qle_bool_iff in L. congruence.
  - destruct (Qle_bool a b) eqn:E; [|reflexivity].
    apply Qle_bool_iff in E. lra.
Qed.

Lemma Qeqb_eq a b : Qeqb a b = true <-> a == b.
Proof. apply Qeq_bool_iff. Qed.

Lemma Qeqb_neq a b : Qeqb a b = false <-> ~ a == b.
Proof.
  unfold Qeqb. split; intro H.
  - now apply Qeq_bool_neq.
  - destruct (Qeq_bool a b) eqn:E; [|reflexivity].
    apply Qeq_bool_iff in E. contradiction.
Qed.

Ltac no_if t :=
  lazymatch t with
  | context [if _ then _ else _] => fail
  | _ => idtac
  end.

#[global] Instance Qltb_comp : Proper (Qeq ==> Qeq ==> eq) Qltb.
Proof. intros a b H c d H'. unfold Qltb. now rewrite H, H'. Qed.

#[global] Instance Qtrunc_comp : Proper (Qeq ==> eq) Qtrunc.
Proof.
  intros a b H. unfold Qtrunc.
  assert (Hn : - a == - b) by lra.
  rewrite (Qltb_comp _ _ H 0 0 (Qeq_refl 0)).
  now rewrite (Qfloor_comp _ _ H), (Qfloor_comp _ _ Hn).
Qed.

(** Truncation of a value in [0,1) gives 0. *)
Lemma Qtrunc_small x : 0 <= x -> x < 1 -> Qtrunc x = 0%Z.
Proof.
  intros H0 H1. unfold Qtrunc.
  destruct (Qltb x 0) eqn:E; [apply Qltb_lt in E; lra|].
  assert (L : (0 <= Qfloor x)%Z).
  { change 0%Z with (Qfloor 0). now apply Qfloor_resp_le. }
  assert (U : (Qfloor x < 1)%Z).
  { pose proof (Qfloor_le x) as F.
    assert (I : inject_Z (Qfloor x) < inject_Z 1)
      by (change (inject_Z 1) with 1; lra).
    now rewrite <- Zlt_Qlt in I. }
  lia.
Qed.

(** ** Properties of the point editing *)


(** One case split on an innermost boolean comparison, leaving the order
    fact in the context. *)
Ltac qstep :=
  match goal with
  | |- context [Qltb ?a ?b] =>
      no_if a; no_if b;
      let E := fresh "E" in
      destruct (Qltb a b) eqn:E;
      [apply Qltb_lt in E | apply Qltb_ge in E]
  | |- context [Qleb ?a ?b] =>
      no_if a; no_if b;
      let E := fresh "E" in
      destruct (Qleb a b) eqn:E;
      [apply Qleb_le in E | apply Qleb_gt in E]
  | |- context [Qeqb ?a ?b] =>
      no_if a; no_if b;
      let E := fresh "E" in
      destruct (Qeqb a b) eqn:E;
      [apply Qeqb_eq in E | apply Qeqb_neq in E]
  end;
  cbn [m_sample m_startPointModel m_endPointModel m_loopPointModel
       m_loopModel m_stutterModel m_interpolationModel m_nextPlayStartPoint
       m_nextPlayBackwards sampleSize startFrame endFrame loopStartFrame
       loopEndFrame].




Lemma fittedValue_cases v :
  (v <= 0 /\ fittedValue v == 0) \/
  (0 <= v <= 1 /\ fittedValue v == v) \/
  (1 <= v /\ fittedValue v == 1).
Proof. unfold fittedValue, qBound, qMax, qMin. repeat qstep; lra. Qed.

#[global] Instance fittedValue_comp : Proper (Qeq ==> Qeq) fittedValue.
Proof.
  intros x y H.
  destruct (fittedValue_cases x) as [[? Ex]|[[? Ex]|[? Ex]]];
    destruct (fittedValue_cases y) as [[? Ey]|[[? Ey]|[? Ey]]];
    rewrite Ex, Ey; lra.
Qed.








Lemma pointChanged_markers a :
  m_startPointModel (pointChanged a) = m_startPointModel a /\
  m_endPointModel (pointChanged a) = m_endPointModel a /\
  m_loopPointModel (pointChanged a) = m_loopPointModel a.
Proof. repeat split. Qed.







Lemma pointChanged_range a : in_range a -> in_range (pointChanged a).
Proof. intro H. exact H. Qed.




Lemma setSample_range s a : in_range a -> in_range (setSample s a).
Proof. intros H. exact H. Qed.

(** [pointChanged] puts the frame markers in step with the normalized
    markers. *)
Lemma pointChanged_synced a : synced (pointChanged a).
Proof. unfold synced, pointChanged, toFrame. cbn. repeat split. Qed.





Lemma new_range : in_range AudioFileProcessor_new.
Proof.
  unfold AudioFileProcessor_new. apply pointChanged_range.
  unfold in_range. cbn. lra.
Qed.

Lemma new_ordered : ordered AudioFileProcessor_new.
Proof. unfold AudioFileProcessor_new, ordered. cbn. lra. Qed.



Lemma applyEdits_reachable es a : reachable a -> reachable (applyEdits es a).
Proof.
  revert a. induction es as [|e es IH]; intros a R; cbn.
  - exact R.
  - apply IH. now constructor.
Qed.




(** The two steps of [loopPointChanged], marker by marker. *)
Lemma pushEndWithLoop_exact a :
  m_startPointModel (pushEndWithLoop a) = m_startPointModel a /\
  m_endPointModel (pushEndWithLoop a) =
    (if Qleb (m_endPointModel a) (m_loopPointModel a)
     then fittedValue (m_loopPointModel a + eps) else m_endPointModel a) /\
  m_loopPointModel (pushEndWithLoop a) =
    (if Qleb (m_endPointModel a) (m_loopPointModel a) &&
        Qeqb (fittedValue (m_loopPointModel a + eps)) 1
     then fittedValue (1 - eps) else m_loopPointModel a).
Proof.
  unfold pushEndWithLoop.
  destruct (Qleb (m_endPointModel a) (m_loopPointModel a)); cbn [andb].
  - cbn [endPoint_setValue m_endPointModel].
    destruct (Qeqb (fittedValue (m_loopPointModel a + eps)) 1);
      repeat split.
  - repeat split.
Qed.

Lemma nudgeStartWithLoop_exact a :
  m_startPointModel (nudgeStartWithLoop a) =
    (if Qltb (m_loopPointModel a) (m_startPointModel a)
     then fittedValue (m_loopPointModel a) else m_startPointModel a) /\
  m_endPointModel (nudgeStartWithLoop a) = m_endPointModel a /\
  m_loopPointModel (nudgeStartWithLoop a) = m_loopPointModel a.
Proof.
  unfold nudgeStartWithLoop.
  destruct (Qltb (m_loopPointModel a) (m_startPointModel a)); repeat split.
Qed.



(** ** Main results on the point editing *)





(** C9.  There is a sample and a point edit after which the recomputed
    start and end frame markers coincide although the normalized markers
    satisfy start < end: a sample of 100 frames and [setEnd 0] on the
    freshly constructed plugin (end is nudged to 0.001, and 0.001 * 100
    truncates to frame 0). *)
Theorem short_sample_frames_collapse :
  exists (n : N) (e : edit),
    let a := applyEdit (setAudioFile n AudioFileProcessor_new) e in
    (0 < n)%N /\
    m_startPointModel a < m_endPointModel a /\
    m_startPointModel a <= m_loopPointModel a /\
    m_loopPointModel a < m_endPointModel a /\
    startFrame (m_sample a) = endFrame (m_sample a).
Proof.
  exists 100%N, (SetEnd 0). cbv zeta.
  set (a := applyEdit _ _).
  assert (E : a = mkAFP (mkSample 100 0 0 0 0) 0 (1 # 1000) 0
                        LoopOff false 1%Z 0%Z false)
    by (vm_compute; reflexivity).
  rewrite E.
  cbn [m_sample m_startPointModel m_endPointModel m_loopPointModel
       startFrame endFrame].
  repeat split; try reflexivity; try lra; try lia.
Qed.



(** For every sample of fewer than 1000 frames, [setEnd 0] on the freshly
    constructed plugin leaves start < end in normalized terms (end is
    nudged to 0.001) but start frame and end frame both at frame 0. *)
Theorem short_samples_collapse_in_frames (n : N) :
  (n < 1000)%N ->
  let a := setEnd 0 (setAudioFile n AudioFileProcessor_new) in
  m_startPointModel a < m_endPointModel a /\
  startFrame (m_sample a) = 0%Z /\ endFrame (m_sample a) = 0%Z.
Proof.
  intro Hn. cbv zeta.
  set (a := setEnd 0 (setAudioFile n AudioFileProcessor_new)).
  assert (SY : synced a) by apply pointChanged_synced.
  destruct SY as (S1 & S2 & _).
  assert (Es : m_startPointModel a = 0) by reflexivity.
  assert (Ee : m_endPointModel a = 1 # 1000) by reflexivity.
  assert (Ez : sampleSize (m_sample a) = Z.of_N n) by reflexivity.
  rewrite S1, S2. unfold toFrame. rewrite Es, Ee, Ez.
  split; [reflexivity|].
  split; apply Qtrunc_small.
  - lra.
  - lra.
  - apply Qmult_le_0_compat; [lra|]. change 0 with (inject_Z 0).
    rewrite <- Zle_Qle. lia.
  - assert (inject_Z (Z.of_N n) < inject_Z 1000).
    { rewrite <- Zlt_Qlt. lia. }
    change (inject_Z 1000) with 1000 in H. lra.
Qed.

Lemma short_samples_collapse_in_frames_witness :
  (999 < 1000)%N /\
  endFrame (m_sample (setEnd 0 (setAudioFile 999 AudioFileProcessor_new))) =
  0%Z.
Proof.
  assert (H : (999 < 1000)%N) by reflexivity.
  split; [exact H|].
  exact (proj2 (proj2 (short_samples_collapse_in_frames 999 H))).
Defined.
(** ** The same inputs in binary32 arithmetic *)

(** [0.001f] is 8589935 * 2^-33 and [1.0f] is 2^23 * 2^-23. *)
Lemma binary32_constants :
  Binary32.eps = S754_finite false 8589935 (-33) /\
  Binary32.one = S754_finite false 8388608 (-23) /\
  Binary32.zero = S754_zero false.
Proof. repeat split; vm_compute; reflexivity. Qed.

(** With the rounding of [float], [setStart(1.0)] on the markers of a
    fresh plugin ends with start and loop at [1.0f - 0.001f] and end at
    1.0: the loop marker set to 1.0 starts [loopPointChanged], which pulls
    it back and the start marker with it. *)
Lemma binary32_setStart_one :
  Binary32.setStart 8 Binary32.one Binary32.new =
    Some (Binary32.mkPoints (Binary32.sub Binary32.one Binary32.eps)
            Binary32.one (Binary32.sub Binary32.one Binary32.eps)) /\
  Binary32.ltb (Binary32.sub Binary32.one Binary32.eps) Binary32.one = true.
Proof. split; vm_compute; reflexivity. Qed.

(** With the rounding of [float], [setEnd(0.0)] on the markers of a fresh
    plugin gives start = 0 < end = 0.001f, and for a sample of 100 frames
    start and end frame are both 0. *)
Lemma binary32_setEnd_zero_frames :
  exists a,
    Binary32.setEnd 8 Binary32.zero Binary32.new = Some a /\
    Binary32.startPoint a = Binary32.zero /\
    Binary32.endPoint a = Binary32.eps /\
    Binary32.ltb (Binary32.startPoint a) (Binary32.endPoint a) = true /\
    Binary32.frames 100 a = (0, 0, 0)%Z.
Proof. eexists. repeat split; vm_compute; reflexivity. Qed.

(** With the rounding of [float], [setLoop(1.0)] on the markers of a fresh
    plugin keeps end at 1.0 and pulls the loop marker back to
    [1.0f - 0.001f]. *)
Lemma binary32_setLoop_one :
  exists a,
    Binary32.setLoop 8 Binary32.one Binary32.new = Some a /\
    Binary32.endPoint a = Binary32.one /\
    Binary32.loopPoint a = Binary32.sub Binary32.one Binary32.eps /\
    Binary32.ltb (Binary32.loopPoint a) (Binary32.endPoint a) = true.
Proof. eexists. repeat split; vm_compute; reflexivity. Qed.

(** A sample of 16777219 frames: its length as a [float] is 16777220, and
    that is the frame of the marker 1.0. *)
Lemma binary32_long_sample_frames :
  Binary32.frames 16777219 Binary32.new = (0, 16777220, 0)%Z.
Proof. vm_compute. reflexivity. Qed.

(** [1.0f - wet + wet] for the wet/dry value -4194305 * 2^-24 is
    16777215 * 2^-24, the [float] below 1.0. *)
Lemma binary32_dry_wet_sum :
  let wet := S754_finite true 4194305 (-24) in
  Binary32.sub Binary32.one wet = S754_finite false 10485760 (-23) /\
  Binary32.add (Binary32.sub Binary32.one wet) wet =
    S754_finite false 16777215 (-24).
Proof. cbv zeta. split; vm_compute; reflexivity. Qed.

(** [round32] gives what the operations of binary32 give, on the values
    the examples of this development use: 44100 * 29.024942f / 1000.0f,
    0.001f, 440.0f / 146.66667f, 1.0f - wet + wet, the conversion of
    16777219, and a product in the subnormal range. *)
Lemma round32_agrees_with_binary32 :
  let agree op qop x y :=
    Binary32.toQ (op x y)
    == round32 (qop (Binary32.toQ x) (Binary32.toQ y)) in
  let autoQuit := Binary32.div (Binary32.ofZ 29024942)
                               (Binary32.ofZ 1000000) in
  let freq := Binary32.div (Binary32.ofZ 14666667) (Binary32.ofZ 100000) in
  let wet := S754_finite true 4194305 (-24) in
  let tiny := S754_finite false 8388609 (-100) in
  agree Binary32.div Qdiv (Binary32.ofZ 29024942) (Binary32.ofZ 1000000) /\
  agree Binary32.mul Qmult (Binary32.ofZ 44100) autoQuit /\
  agree Binary32.div Qdiv (Binary32.mul (Binary32.ofZ 44100) autoQuit)
                          (Binary32.ofZ 1000) /\
  agree Binary32.div Qdiv (Binary32.ofZ 1) (Binary32.ofZ 1000) /\
  agree Binary32.div Qdiv (Binary32.ofZ 14666667) (Binary32.ofZ 100000) /\
  agree Binary32.div Qdiv (Binary32.ofZ 440) freq /\
  agree Binary32.mul Qmult (Binary32.ofZ 3)
                           (Binary32.div (Binary32.ofZ 440) freq) /\
  agree Binary32.sub Qminus Binary32.one wet /\
  agree Binary32.add Qplus (Binary32.sub Binary32.one wet) wet /\
  agree Binary32.sub Qminus Binary32.one Binary32.eps /\
  agree Binary32.mul Qmult tiny tiny /\
  Binary32.toQ (Binary32.ofZ 16777219) == round32 (inject_Z 16777219).
Proof. cbv zeta. repeat split; vm_compute; reflexivity. Qed.

(** [round64] gives what the operations of binary64 give, on the values
    of a bound check: the literal 0.005, the value 0.5005, its difference
    with 0.5, and the distance for 10000 frames at 100 Hz. *)
Lemma round64_agrees_with_binary64 :
  let ofZ n := binary_normalize 53%Z 1024%Z n 0%Z false in
  let agree op qop x y :=
    Binary32.toQ (op x y)
    == round64 (qop (Binary32.toQ x) (Binary32.toQ y)) in
  let v := SFdiv 53%Z 1024%Z (ofZ 1001%Z) (ofZ 2000%Z) in
  let d := SFsub 53%Z 1024%Z v (SFdiv 53%Z 1024%Z (ofZ 1%Z) (ofZ 2%Z)) in
  agree (SFdiv 53%Z 1024%Z) Qdiv (ofZ 5%Z) (ofZ 1000%Z) /\
  agree (SFdiv 53%Z 1024%Z) Qdiv (ofZ 1001%Z) (ofZ 2000%Z) /\
  agree (SFsub 53%Z 1024%Z) Qminus (SFdiv 53%Z 1024%Z (ofZ 1%Z) (ofZ 2%Z)) v /\
  agree (SFmul 53%Z 1024%Z) Qmult d (ofZ 10000%Z) /\
  agree (SFdiv 53%Z 1024%Z) Qdiv (SFmul 53%Z 1024%Z d (ofZ 10000%Z)) (ofZ 100%Z).
Proof. cbv zeta. repeat split; vm_compute; reflexivity. Qed.


(** ** Note playback *)

Lemma notePlaybackState_sample a n :
  m_sample (fst (notePlaybackState a n)) = m_sample a.
Proof.
  unfold notePlaybackState. destruct (m_pluginData n); [reflexivity|].
  destruct (m_stutterModel a && _)%bool; reflexivity.
Qed.

Lemma notePlaybackState_loop a n :
  m_loopModel (fst (notePlaybackState a n)) = m_loopModel a.
Proof.
  unfold notePlaybackState. destruct (m_pluginData n); [reflexivity|].
  destruct (m_stutterModel a && _)%bool; reflexivity.
Qed.

Lemma notePlaybackState_stutter a n :
  m_stutterModel (fst (notePlaybackState a n)) = m_stutterModel a.
Proof.
  unfold notePlaybackState. destruct (m_pluginData n); [reflexivity|].
  destruct (m_stutterModel a && _)%bool; reflexivity.
Qed.

Lemma notePlaybackState_existing a n p :
  m_pluginData n = Some p -> notePlaybackState a n = (a, p).
Proof. intro E. unfold notePlaybackState. now rewrite E. Qed.

(** The note's slot and the continuation cursor after the body of
    [playNote], in terms of the playback state [p'] that the period ends
    with. *)
Lemma playNoteBody_result `{PlayEnv} a n buf :
  exists p',
    m_pluginData (note (playNoteBody a n buf)) = Some p' /\
    (isFinished n = false ->
     p' = snd (fst (Sample_play (m_sample a) (snd (notePlaybackState a n))
                      (framesLeftForCurrentPeriod n) (frequency n)
                      (m_loopModel a)))) /\
    (isFinished n = true -> p' = snd (notePlaybackState a n)) /\
    (m_stutterModel a = true ->
     m_nextPlayStartPoint (plugin (playNoteBody a n buf)) = frameIndex p' /\
     m_nextPlayBackwards (plugin (playNoteBody a n buf)) = backwards p') /\
    m_sample (plugin (playNoteBody a n buf)) = m_sample a.
Proof.
  unfold playNoteBody.
  pose proof (notePlaybackState_sample a n) as HS.
  pose proof (notePlaybackState_loop a n) as HL.
  pose proof (notePlaybackState_stutter a n) as HT.
  destruct (notePlaybackState a n) as [a0 p0].
  cbn [fst snd] in *.
  cbn [setPluginData isFinished frequency].
  rewrite HS, HL, HT.
  destruct (isFinished n) eqn:F; cbn [negb].
  - exists p0. cbn [note plugin m_pluginData setPluginData].
    split; [reflexivity|]. split; [discriminate|].
    split; [reflexivity|]. split.
    + intro St. rewrite St. split; reflexivity.
    + destruct (m_stutterModel a); exact HS.
  - destruct (Sample_play (m_sample a) p0 _ _ _) as [[ok p1] out].
    cbn [fst snd].
    exists p1.
    destruct ok; cbn [note plugin m_pluginData setPluginData].
    all: split; [reflexivity|]; split; [reflexivity|];
      split; [discriminate|]; split;
      [ intro St; rewrite St; split; reflexivity
      | destruct (m_stutterModel a); exact HS ].
Qed.

Lemma notePlaybackState_settings a n :
  sameSettings a (fst (notePlaybackState a n)).
Proof.
  unfold notePlaybackState, sameSettings.
  destruct (m_pluginData n); [cbn; auto|].
  destruct (m_stutterModel a && _)%bool; cbn; auto.
Qed.

Lemma playNoteBody_settings `{PlayEnv} a n buf :
  sameSettings a (plugin (playNoteBody a n buf)).
Proof.
  unfold playNoteBody.
  pose proof (notePlaybackState_settings a n) as HS.
  destruct (notePlaybackState a n) as [a0 p0]. cbn [fst] in HS.
  destruct HS as (? & ? & ? & ?).
  destruct (negb _).
  - destruct (Sample_play _ _ _ _ _) as [[[] ?] ?];
      destruct (m_stutterModel a0) eqn:T; unfold sameSettings; cbn;
      repeat split; congruence.
  - destruct (m_stutterModel a0) eqn:T; unfold sameSettings; cbn;
      repeat split; congruence.
Qed.

Lemma magicKey_false a n :
  m_stutterModel a = true -> ~ frequency n < 20 -> magicKey a n = false.
Proof.
  intros St F. unfold magicKey. rewrite St. cbn.
  apply Qltb_ge. lra.
Qed.

Lemma playNote_ordinary `{PlayEnv} a n buf :
  magicKey a n = false -> playNote a n buf = playNoteBody a n buf.
Proof. intro M. unfold playNote. now rewrite M. Qed.

(** C3.  With stutter mode on and two successive notes that are not the
    magic key: the period of the first note ends with its cursor and
    direction stored as the continuation point; the second note, which has
    no playback state yet, starts from that cursor and direction, except
    that a stored cursor at or past the end frame makes it start from the
    start frame, forwards; and the second note is rendered from that
    state. *)
Theorem stutter_continues_cursor `{PlayEnv}
  (a : AudioFileProcessor) (n1 n2 : NotePlayHandle)
  (buf1 buf2 : list sampleFrame) :
  m_stutterModel a = true ->
  ~ frequency n1 < 20 -> ~ frequency n2 < 20 ->
  m_pluginData n2 = None ->
  let r1 := playNote a n1 buf1 in
  let a1 := plugin r1 in
  let p2 := snd (notePlaybackState a1 n2) in
  exists p1,
    m_pluginData (note r1) = Some p1 /\
    m_nextPlayStartPoint a1 = frameIndex p1 /\
    m_nextPlayBackwards a1 = backwards p1 /\
    ((frameIndex p1 < endFrame (m_sample a1))%Z ->
       frameIndex p2 = frameIndex p1 /\ backwards p2 = backwards p1) /\
    ((endFrame (m_sample a1) <= frameIndex p1)%Z ->
       frameIndex p2 = startFrame (m_sample a1) /\ backwards p2 = false) /\
    (isFinished n2 = false ->
       m_pluginData (note (playNote a1 n2 buf2)) =
       Some (snd (fst (Sample_play (m_sample a1) p2
                         (framesLeftForCurrentPeriod n2) (frequency n2)
                         (m_loopModel a1))))).
Proof.
  intros St F1 F2 New. cbv zeta.
  rewrite (playNote_ordinary a n1 buf1) by now apply magicKey_false.
  set (a1 := plugin (playNoteBody a n1 buf1)).
  destruct (playNoteBody_result a n1 buf1) as (p1 & D & _ & _ & P & S).
  destruct (P St) as [Pc Pb]. clear P. fold a1 in Pc, Pb, S.
  assert (St1 : m_stutterModel a1 = true).
  { destruct (playNoteBody_settings a n1 buf1) as (_ & _ & T & _).
    unfold a1. now rewrite T. }
  exists p1.
  split; [exact D|]. split; [exact Pc|]. split; [exact Pb|].
  assert (E2 : notePlaybackState a1 n2 =
               if (endFrame (m_sample a1) <=? m_nextPlayStartPoint a1)%Z
               then (restartCursor a1,
                     mkPlaybackState (hasDetuningInfo n2)
                       (srcmodeOf (m_interpolationModel a1))
                       (startFrame (m_sample a1)) false)
               else (a1,
                     mkPlaybackState (hasDetuningInfo n2)
                       (srcmodeOf (m_interpolationModel a1))
                       (m_nextPlayStartPoint a1) (m_nextPlayBackwards a1))).
  { unfold notePlaybackState. rewrite New, St1. cbn [andb].
    destruct (_ <=? _)%Z; reflexivity. }
  split; [|split].
  - intro L. rewrite E2, <- Pc, <- Pb.
    destruct (Z.leb_spec (endFrame (m_sample a1)) (m_nextPlayStartPoint a1));
      [lia|]. cbn. split; reflexivity.
  - intro L. rewrite E2.
    destruct (Z.leb_spec (endFrame (m_sample a1)) (m_nextPlayStartPoint a1));
      [|lia]. cbn. split; reflexivity.
  - intro Fin.
    rewrite (playNote_ordinary a1 n2 buf2)
      by (apply magicKey_false; assumption).
    destruct (playNoteBody_result a1 n2 buf2) as (p' & D' & R' & _).
    rewrite D', (R' Fin). reflexivity.
Qed.

Lemma stutter_continues_cursor_witness :
  let a := demoPlugin LoopOff true 0 in
  let n := demoNote 440 None in
  m_stutterModel a = true /\ ~ frequency n < 20 /\ m_pluginData n = None /\
  exists p1,
    m_pluginData (note (@playNote constantEnv a n [])) = Some p1 /\
    frameIndex p1 = 4%Z /\
    frameIndex
      (snd (notePlaybackState (plugin (@playNote constantEnv a n [])) n)) =
    4%Z.
Proof.
  cbv zeta.
  assert (H1 : m_stutterModel (demoPlugin LoopOff true 0) = true)
    by reflexivity.
  assert (H2 : ~ frequency (demoNote 440 None) < 20)
    by (cbn; intro L; lra).
  assert (H3 : m_pluginData (demoNote 440 None) = None) by reflexivity.
  split; [exact H1|]. split; [exact H2|]. split; [exact H3|].
  destruct (@stutter_continues_cursor constantEnv (demoPlugin LoopOff true 0)
              (demoNote 440 None) (demoNote 440 None) [] [] H1 H2 H2 H3)
    as (p1 & D & Pc & Pb & Lt & _).
  exists p1. split; [exact D|].
  assert (E : frameIndex p1 = 4%Z).
  { rewrite <- Pc. vm_compute. reflexivity. }
  split; [exact E|].
  destruct Lt as [Lt _].
  - rewrite E. vm_compute. reflexivity.
  - rewrite Lt. exact E.
Defined.

(** C4.  With stutter mode on, a call of [playNote] with a frequency below
    20 moves the continuation cursor to the sample's start frame with
    forward direction and does nothing else: the note keeps its (possibly
    empty) plugin data, the working buffer is untouched, nothing is emitted
    and the renderer is not used (the outcome is the same for every
    renderer).  With stutter mode off, [playNote] is the ordinary note
    path whatever the frequency. *)
Theorem magic_key_resets_cursor `{PlayEnv}
  (a : AudioFileProcessor) (n : NotePlayHandle) (buf : list sampleFrame) :
  (m_stutterModel a = true -> frequency n < 20 ->
     let r := playNote a n buf in
     m_nextPlayStartPoint (plugin r) = startFrame (m_sample a) /\
     m_nextPlayBackwards (plugin r) = false /\
     sameSettings a (plugin r) /\
     note r = n /\
     workingBuffer r = buf /\
     emitted r = [] /\
     forall E : PlayEnv, @playNote E a n buf = r) /\
  (m_stutterModel a = false -> playNote a n buf = playNoteBody a n buf).
Proof.
  split.
  - intros St F. cbv zeta.
    assert (M : magicKey a n = true).
    { unfold magicKey. rewrite St. cbn. now apply Qltb_lt. }
    unfold playNote. rewrite M. cbn.
    repeat split; reflexivity.
  - intro St. apply playNote_ordinary. unfold magicKey. now rewrite St.
Qed.

Lemma magic_key_resets_cursor_witness :
  let a := demoPlugin LoopOff true 60 in
  let n := demoNote 10 None in
  m_stutterModel a = true /\ frequency n < 20 /\
  m_nextPlayStartPoint (plugin (@playNote constantEnv a n [(1, 1)])) = 0%Z /\
  m_pluginData (note (@playNote constantEnv a n [(1, 1)])) = None /\
  workingBuffer (@playNote constantEnv a n [(1, 1)]) = [(1, 1)] /\
  @playNote constantEnv (demoPlugin LoopOff false 60) n [(1, 1)] =
  @playNoteBody constantEnv (demoPlugin LoopOff false 60) n [(1, 1)].
Proof.
  cbv zeta.
  assert (H1 : m_stutterModel (demoPlugin LoopOff true 60) = true)
    by reflexivity.
  assert (H2 : frequency (demoNote 10 None) < 20) by (cbn; lra).
  split; [exact H1|]. split; [exact H2|].
  destruct (@magic_key_resets_cursor constantEnv (demoPlugin LoopOff true 60)
              (demoNote 10 None) [(1, 1)]) as [On _].
  destruct (On H1 H2) as (C & _ & _ & N & B & _).
  split; [exact C|]. split; [rewrite N; reflexivity|]. split; [exact B|].
  destruct (@magic_key_resets_cursor constantEnv (demoPlugin LoopOff false 60)
              (demoNote 10 None) [(1, 1)]) as [_ Off].
  apply Off. reflexivity.
Defined.

(** ** Exhaustion *)

Lemma firstn_memset0 k buf : firstn k (memset0 k buf) = repeat zeroFrame k.
Proof.
  unfold memset0. rewrite firstn_app, repeat_length, Nat.sub_diag.
  cbn [firstn]. rewrite app_nil_r. apply firstn_all2.
  now rewrite repeat_length.
Qed.

Lemma nth_memset0 k buf i :
  nth i (memset0 k buf) zeroFrame =
  if (i <? k)%nat then zeroFrame else nth i buf zeroFrame.
Proof.
  unfold memset0. destruct (Nat.ltb_spec i k) as [L|L].
  - rewrite app_nth1 by now rewrite repeat_length.
    apply nth_repeat.
  - rewrite app_nth2 by now rewrite repeat_length.
    rewrite repeat_length, nth_skipn. f_equal. lia.
Qed.

Lemma nth_blit_after off src buf i :
  (off + length src <= i)%nat ->
  nth i (blit off src buf) zeroFrame = nth i buf zeroFrame.
Proof.
  intro L. unfold blit.
  destruct (Nat.le_gt_cases off (length buf)) as [B|B].
  - assert (F : length (firstn off buf) = off) by now apply firstn_length_le.
    rewrite app_nth2 by lia. rewrite F.
    rewrite app_nth2 by lia.
    rewrite nth_skipn. f_equal. lia.
  - rewrite (nth_overflow buf) by lia.
    apply nth_overflow.
    rewrite !length_app, length_skipn, length_firstn. lia.
Qed.

Lemma addsNoSound_refl buf : addsNoSound buf buf.
Proof. intro i. now right. Qed.

Lemma addsNoSound_memset0_blit k off src buf :
  (off + length src <= k)%nat ->
  addsNoSound buf (memset0 k (blit off src buf)).
Proof.
  intros L i. rewrite nth_memset0.
  destruct (Nat.ltb_spec i k) as [I|I].
  - now left.
  - right. apply nth_blit_after. lia.
Qed.

(** A period of [playNote] on a note whose cursor is past the end with
    loop mode Off. *)
Lemma playNote_pastEnd `{PlayEnv} a n buf :
  playReportsExhaustion -> playWritesPeriod ->
  pastEnd (m_sample a) (snd (notePlaybackState a n)) (m_loopModel a) = true ->
  let r := playNote a n buf in
  (magicKey a n = false ->
   m_pluginData (note r) = Some (snd (notePlaybackState a n))) /\
  (magicKey a n = true -> note r = n) /\
  addsNoSound buf (workingBuffer r) /\
  (isFinished n = false -> magicKey a n = false ->
   firstn (framesLeftForCurrentPeriod n + noteOffset n) (workingBuffer r) =
   repeat zeroFrame (framesLeftForCurrentPeriod n + noteOffset n) /\
   emitted r = [0%Z]).
Proof.
  intros Law Wr Past. cbv zeta. unfold playNote.
  destruct (magicKey a n) eqn:M.
  - cbn. repeat split; try discriminate. apply addsNoSound_refl.
  - unfold playNoteBody.
    pose proof (notePlaybackState_settings a n) as (HS & HL & _).
    destruct (notePlaybackState a n) as [a0 p0]. cbn [fst snd] in *.
    cbn [setPluginData isFinished frequency].
    rewrite HS, HL.
    destruct (isFinished n) eqn:F; cbn [negb].
    + cbn. repeat split; try discriminate. apply addsNoSound_refl.
    + destruct (Law (m_sample a) p0 (framesLeftForCurrentPeriod n)
                  (frequency n) (m_loopModel a)) as [Ok Same].
      pose proof (Wr (m_sample a) p0 (framesLeftForCurrentPeriod n)
                    (frequency n) (m_loopModel a)) as Len.
      rewrite Past in Ok. cbn [negb] in Ok. specialize (Same Ok).
      destruct (Sample_play (m_sample a) p0 _ _ _) as [[ok p1] out].
      cbn [fst snd] in *. subst ok p1.
      cbn [note plugin m_pluginData setPluginData workingBuffer emitted].
      split; [reflexivity|]. split; [discriminate|]. split.
      * apply addsNoSound_memset0_blit. lia.
      * intros _ _. split; [apply firstn_memset0 | reflexivity].
Qed.

(** Once the cursor of a note is past the end with loop mode Off, every
    further period of the note is silent, as long as the sample and the
    loop mode stay. *)
Lemma playPeriods_pastEnd `{PlayEnv} :
  playReportsExhaustion -> playWritesPeriod ->
  forall qs n p,
    m_pluginData n = Some p ->
    Forall (fun q => pastEnd (m_sample (p_plugin q)) p
                       (m_loopModel (p_plugin q)) = true) qs ->
    Forall2 silentPeriod qs (playPeriods n qs).
Proof.
  intros Law Wr. induction qs as [|q qs IH]; intros n p D All.
  - constructor.
  - inversion All as [|? ? Pq All']; subst.
    cbn [playPeriods].
    assert (E : notePlaybackState (p_plugin q) (atPeriod n q) = (p_plugin q, p))
      by now apply notePlaybackState_existing.
    pose proof (playNote_pastEnd (p_plugin q) (atPeriod n q) (p_buffer q)
                  Law Wr) as Step.
    rewrite E in Step. cbn [snd] in Step.
    destruct (Step Pq) as (Keep & Magic & Quiet & Zero).
    constructor.
    + split; [exact Quiet|].
      intros Fin NotMagic. apply Zero; assumption.
    + apply (IH _ p); [|exact All'].
      destruct (magicKey (p_plugin q) (atPeriod n q)) eqn:M.
      * now rewrite (Magic eq_refl).
      * now apply Keep.
Qed.

(** C5.  An unfinished note whose render call reports exhaustion gets its
    working buffer zero-filled over the period (from the start of the
    buffer to the end of the note's span) and nothing else is changed in
    it; and in every later period of the same note (same plugin data),
    while sample and loop mode stay, the call again yields only silence.
    The renderer is the one of the spec: it reports exhaustion exactly when
    the cursor is past the end with loop mode Off, and leaves the playback
    state alone then. *)
Theorem exhausted_note_stays_silent `{PlayEnv}
  (a : AudioFileProcessor) (n : NotePlayHandle) (buf : list sampleFrame)
  (qs : list Period) :
  playReportsExhaustion -> playWritesPeriod ->
  magicKey a n = false ->
  isFinished n = false ->
  fst (fst (Sample_play (m_sample a) (snd (notePlaybackState a n))
              (framesLeftForCurrentPeriod n) (frequency n)
              (m_loopModel a))) = false ->
  Forall (fun q => m_sample (p_plugin q) = m_sample a /\
                   m_loopModel (p_plugin q) = m_loopModel a) qs ->
  let r := playNote a n buf in
  let k := (framesLeftForCurrentPeriod n + noteOffset n)%nat in
  firstn k (workingBuffer r) = repeat zeroFrame k /\
  addsNoSound buf (workingBuffer r) /\
  emitted r = [0%Z] /\
  Forall2 silentPeriod qs (playPeriods (note r) qs).
Proof.
  intros Law Wr NotMagic Unfinished Exhausted Same. cbv zeta.
  assert (Past : pastEnd (m_sample a) (snd (notePlaybackState a n))
                   (m_loopModel a) = true).
  { destruct (Law (m_sample a) (snd (notePlaybackState a n))
                (framesLeftForCurrentPeriod n) (frequency n) (m_loopModel a))
      as [Ok _].
    rewrite Exhausted in Ok. now destruct (pastEnd _ _ _). }
  destruct (playNote_pastEnd a n buf Law Wr Past)
    as (Keep & _ & Quiet & Zero).
  destruct (Zero Unfinished NotMagic) as [Z0 Em].
  split; [exact Z0|]. split; [exact Quiet|]. split; [exact Em|].
  apply (playPeriods_pastEnd Law Wr qs _ _ (Keep NotMagic)).
  apply Forall_forall. intros q Hq.
  rewrite Forall_forall in Same. destruct (Same q Hq) as [Es El].
  now rewrite Es, El.
Qed.

Lemma constantEnv_reportsExhaustion : @playReportsExhaustion constantEnv.
Proof.
  intros s p k f l. cbn. unfold constantPlay.
  destruct (pastEnd s p l); cbn; split; auto; discriminate.
Qed.

Lemma constantEnv_writesPeriod : @playWritesPeriod constantEnv.
Proof.
  intros s p k f l. cbn. unfold constantPlay.
  destruct (pastEnd s p l); cbn; [lia|]. now rewrite repeat_length.
Qed.

Lemma exhausted_note_stays_silent_witness :
  let a := demoPlugin LoopOff false 0 in
  let n := demoNote 440 (Some (mkPlaybackState false SRC_LINEAR 100 false)) in
  let buf := repeat ((1, 1) : sampleFrame) 6 in
  let q := mkPeriod a 4 0 440 false buf in
  workingBuffer (@playNote constantEnv a n buf) =
    [zeroFrame; zeroFrame; zeroFrame; zeroFrame; (1, 1); (1, 1)] /\
  Forall2 silentPeriod [q; q]
    (@playPeriods constantEnv (note (@playNote constantEnv a n buf)) [q; q]).
Proof.
  cbv zeta.
  destruct (@exhausted_note_stays_silent constantEnv
              (demoPlugin LoopOff false 0)
              (demoNote 440 (Some (mkPlaybackState false SRC_LINEAR 100 false)))
              (repeat ((1, 1) : sampleFrame) 6)
              [mkPeriod (demoPlugin LoopOff false 0) 4 0 440 false
                 (repeat ((1, 1) : sampleFrame) 6);
               mkPeriod (demoPlugin LoopOff false 0) 4 0 440 false
                 (repeat ((1, 1) : sampleFrame) 6)]
              constantEnv_reportsExhaustion constantEnv_writesPeriod
              eq_refl eq_refl eq_refl)
    as (_ & _ & _ & Later).
  - repeat constructor.
  - split; [reflexivity | exact Later].
Defined.

(** C5, the claim as stated fails: nothing latches the exhaustion.  A note
    of a 100-frame sample with its cursor at frame 100 and loop mode Off
    reports exhaustion and is silenced; when the loop mode is then switched
    to On, the next period of the same note is rendered again and is
    audible, without any new note. *)
Lemma exhausted_note_resumes_when_loop_enabled :
  let a := demoPlugin LoopOff false 0 in
  let n := demoNote 440 (Some (mkPlaybackState false SRC_LINEAR 100 false)) in
  let buf := repeat zeroFrame 6 in
  let r := @playNote constantEnv a n buf in
  let q := mkPeriod (demoPlugin LoopOn false 0) 4 0 440 false buf in
  @playReportsExhaustion constantEnv /\
  isFinished n = false /\
  fst (fst (@Sample_play constantEnv (m_sample a)
              (snd (notePlaybackState a n))
              (framesLeftForCurrentPeriod n) (frequency n)
              (m_loopModel a))) = false /\
  workingBuffer r = repeat zeroFrame 6 /\
  m_pluginData (note r) = m_pluginData n /\
  workingBuffer (@playNote constantEnv (p_plugin q) (atPeriod (note r) q)
                   (p_buffer q)) =
    [(1, 1); (1, 1); (1, 1); (1, 1); zeroFrame; zeroFrame] /\
  ~ Forall2 silentPeriod [q] (@playPeriods constantEnv (note r) [q]).
Proof.
  cbv zeta.
  split; [exact constantEnv_reportsExhaustion|].
  split; [reflexivity|]. split; [reflexivity|]. split; [reflexivity|].
  split; [reflexivity|]. split; [reflexivity|].
  intro F. inversion F as [|? ? ? ? [_ Z0] _]; subst.
  specialize (Z0 eq_refl eq_refl). vm_compute in Z0. discriminate Z0.
Qed.

(** ** The SDL callback *)

Open Scope nat_scope.

Lemma length_blit {A} p (src ob : list A) :
  p + length src <= length ob -> length (blit p src ob) = length ob.
Proof.
  intro L. unfold blit.
  rewrite !length_app, length_skipn, length_firstn. lia.
Qed.

Lemma skipn_blit_at {A} p (src ob : list A) :
  p <= length ob ->
  skipn p (blit p src ob) = src ++ skipn (p + length src) ob.
Proof.
  intro L. unfold blit.
  rewrite skipn_app, length_firstn.
  replace (p - Nat.min p (length ob)) with 0 by lia.
  rewrite skipn_all2 by (rewrite length_firstn; lia).
  reflexivity.
Qed.

Lemma firstn_skipn_blit {A} p (src ob : list A) :
  p <= length ob ->
  firstn (length src) (skipn p (blit p src ob)) = src.
Proof.
  intro L. rewrite skipn_blit_at by exact L.
  rewrite firstn_app, Nat.sub_diag, firstn_all. cbn. apply app_nil_r.
Qed.

Lemma skipn_blit_after {A} p (src ob : list A) :
  p <= length ob ->
  skipn (length src + p) (blit p src ob) = skipn (p + length src) ob.
Proof.
  intro L. rewrite <- skipn_skipn, skipn_blit_at by exact L.
  rewrite skipn_app, Nat.sub_diag, skipn_all. reflexivity.
Qed.

Lemma isPrefix_nil {A} (l : list A) : isPrefix [] l.
Proof. now exists l. Qed.

Lemma isPrefix_app {A} (h l1 l2 : list A) :
  isPrefix l1 l2 -> isPrefix (h ++ l1) (h ++ l2).
Proof. intros [t E]. exists t. now rewrite E, app_assoc. Qed.

Lemma isPrefix_trans {A} (l1 l2 l3 : list A) :
  isPrefix l1 l2 -> isPrefix l2 l3 -> isPrefix l1 l3.
Proof.
  intros [t E] [u F]. exists (t ++ u). now rewrite F, E, app_assoc.
Qed.

(** More pulls only extend the stream. *)
Lemma engineStream_S `{DeviceEnv} n e :
  isPrefix (engineStream n e) (engineStream (S n) e).
Proof.
  revert e. induction n as [|n IH]; intro e.
  - apply isPrefix_nil.
  - change (engineStream (S (S n)) e) with
      (let '(produced, e0) := getNextBuffer e in
       match produced with
       | [] => []
       | _ => produced ++ engineStream (S n) e0
       end).
    cbn [engineStream].
    destruct (getNextBuffer e) as [produced e0].
    destruct produced as [|f fs]; [apply isPrefix_nil|].
    apply isPrefix_app, IH.
Qed.

Lemma delivered_cons_frames fs tr :
  delivered (Frames fs :: tr) = fs ++ delivered tr.
Proof. reflexivity. Qed.

Lemma bytesWritten_cons c tr :
  bytesWritten (c :: tr) = chunkBytes c + bytesWritten tr.
Proof. reflexivity. Qed.

(** One delivery of the float loop: from a device at position [p] inside
    a period of [c] frames, [m] frames are scaled in place and copied. *)
Lemma floatDeliver_state (g : Q) d n :
  let p := m_currentBufferFramePos d in
  let c := m_currentBufferFramesCount d in
  let m := Nat.min n (c - p) in
  let raw := firstn m (skipn p (m_outBuf d)) in
  let d1 := setOutBuf (blit p (map (applyGain g) raw) (m_outBuf d)) d in
  let d2 := setFramePos (p + m) d1 in
  let d3 := setFramePos (m_currentBufferFramePos d2
                         mod m_currentBufferFramesCount d2) d2 in
  p < c -> c <= length (m_outBuf d) -> 1 <= n ->
  length raw = m /\ 1 <= m /\
  firstn m (skipn p (m_outBuf d1)) = map (applyGain g) raw /\
  deviceOk d3 /\
  firstn (c - p) (skipn p (m_outBuf d)) = raw ++ pendingFrames d3.
Proof.
  cbv zeta. intros Hp Hc Hn.
  set (p := m_currentBufferFramePos d) in *.
  set (c := m_currentBufferFramesCount d) in *.
  set (ob := m_outBuf d) in *.
  set (m := Nat.min n (c - p)).
  set (raw := firstn m (skipn p ob)).
  assert (Lraw : length raw = m).
  { unfold raw. rewrite length_firstn, length_skipn. lia. }
  assert (Lsc : length (map (applyGain g) raw) = m)
    by now rewrite length_map.
  split; [exact Lraw|]. split; [lia|].
  cbn [setOutBuf m_outBuf setFramePos m_currentBufferFramePos
       m_currentBufferFramesCount].
  fold p c ob.
  split.
  { rewrite <- Lsc at 1. apply firstn_skipn_blit. lia. }
  assert (Lb : length (blit p (map (applyGain g) raw) ob) = length ob)
    by (apply length_blit; lia).
  unfold deviceOk, pendingFrames.
  cbn [setOutBuf m_outBuf setFramePos m_currentBufferFramePos
       m_currentBufferFramesCount].
  fold p c ob.
  destruct (Nat.eq_dec (p + m) c) as [E|E].
  - rewrite E, Nat.Div0.mod_same. cbn [Nat.eqb].
    split; [now left|].
    rewrite app_nil_r. unfold raw. f_equal. lia.
  - rewrite Nat.mod_small by lia.
    split; [right; lia|].
    destruct (Nat.eqb_spec (p + m) 0) as [Z|Z]; [lia|].
    replace (p + m) with (length (map (applyGain g) raw) + p) at 2 by lia.
    rewrite skipn_blit_after by lia. rewrite Lsc.
    unfold raw.
    rewrite <- (firstn_skipn m (firstn (c - p) (skipn p ob))).
    rewrite firstn_firstn.
    replace (Nat.min m (c - p)) with m by lia.
    f_equal.
    rewrite skipn_firstn_comm, skipn_skipn.
    f_equal; [lia | f_equal; lia].
Qed.

Lemma floatDeliver_spec `{DeviceEnv} d n :
  m_currentBufferFramePos d < m_currentBufferFramesCount d ->
  m_currentBufferFramesCount d <= length (m_outBuf d) ->
  1 <= n ->
  exists m raw,
    1 <= m <= n /\ length raw = m /\
    floatDeliver d (n * sizeofSampleFrame) =
      (fst (fst (floatDeliver d (n * sizeofSampleFrame))),
       map (applyGain masterGain) raw,
       (n - m) * sizeofSampleFrame) /\
    deviceOk (fst (fst (floatDeliver d (n * sizeofSampleFrame)))) /\
    m_stopped (fst (fst (floatDeliver d (n * sizeofSampleFrame)))) =
      m_stopped d /\
    firstn (m_currentBufferFramesCount d - m_currentBufferFramePos d)
           (skipn (m_currentBufferFramePos d) (m_outBuf d)) =
      raw ++ pendingFrames (fst (fst (floatDeliver d (n * sizeofSampleFrame)))).
Proof.
  intros Hp Hc Hn.
  destruct (floatDeliver_state masterGain d n Hp Hc Hn)
    as (Lraw & Lm & Out & Ok & Pend).
  unfold floatDeliver.
  rewrite Nat.div_mul by (unfold sizeofSampleFrame; lia).
  cbn [fst].
  set (m := Nat.min n (m_currentBufferFramesCount d
                       - m_currentBufferFramePos d)) in *.
  exists m, (firstn m (skipn (m_currentBufferFramePos d) (m_outBuf d))).
  split; [lia|]. split; [exact Lraw|].
  split.
  { fold m. rewrite Nat.mul_sub_distr_r, Out. reflexivity. }
  split; [exact Ok|]. split; [reflexivity | exact Pend].
Qed.

Lemma engineStream_pull `{DeviceEnv} n e produced e1 :
  getNextBuffer e = (produced, e1) -> length produced <> 0 ->
  engineStream (S n) e = produced ++ engineStream n e1.
Proof.
  intros G L. cbn [engineStream]. rewrite G.
  destruct produced; [contradiction L; reflexivity | reflexivity].
Qed.

Lemma floatPull_spec `{DeviceEnv} d e :
  deviceOk d ->
  match floatPull d e with
  | inl e1 =>
      m_currentBufferFramePos d = 0 /\ getNextBuffer e = ([], e1)
  | inr (d1, e1) =>
      m_currentBufferFramePos d1 < m_currentBufferFramesCount d1 /\
      m_currentBufferFramesCount d1 <= length (m_outBuf d1) /\
      m_stopped d1 = m_stopped d /\
      forall n,
        pendingFrames d ++ engineStream (S n) e =
        firstn (m_currentBufferFramesCount d1 - m_currentBufferFramePos d1)
               (skipn (m_currentBufferFramePos d1) (m_outBuf d1))
        ++ engineStream (S n) e1 \/
        pendingFrames d ++ engineStream (S n) e =
        firstn (m_currentBufferFramesCount d1 - m_currentBufferFramePos d1)
               (skipn (m_currentBufferFramePos d1) (m_outBuf d1))
        ++ engineStream n e1
  end.
Proof.
  intro Ok. unfold floatPull, pendingFrames.
  destruct (Nat.eqb_spec (m_currentBufferFramePos d) 0) as [Z|NZ].
  - destruct (getNextBuffer e) as [produced e1] eqn:G.
    destruct (Nat.eqb_spec (length produced) 0) as [L|L].
    + split; [exact Z|]. destruct produced; [reflexivity | discriminate].
    + cbn [setFramesCount setOutBuf m_currentBufferFramePos
           m_currentBufferFramesCount m_outBuf m_stopped].
      rewrite Z.
      split; [lia|]. split.
      { unfold blit. cbn [firstn app Nat.add].
        rewrite length_app. lia. }
      split; [reflexivity|].
      intro n. right.
      rewrite (engineStream_pull n e produced e1 G L).
      cbn [app]. f_equal.
      rewrite Nat.sub_0_r. cbn [skipn].
      unfold blit. cbn [firstn app Nat.add].
      rewrite firstn_app, Nat.sub_diag, firstn_all. cbn [firstn].
      now rewrite app_nil_r.
  - destruct Ok as [Z|[Lt Le]]; [contradiction|].
    split; [exact Lt|]. split; [exact Le|]. split; [reflexivity|].
    intro n. now left.
Qed.

(** The float loop asked for [n] whole frames: with more fuel than frames
    it returns, having written exactly the requested bytes.  What it
    delivers are frames [raw] with the gain applied, where [raw] followed
    by the frames left pending in the device is an initial segment of the
    frames that were pending before followed by the engine's stream. *)
Lemma floatLoop_frames `{DeviceEnv} fuel :
  forall n d e,
    deviceOk d -> n < fuel ->
    exists r,
      floatLoop fuel d e (n * sizeofSampleFrame) = Some r /\
      deviceOk (device r) /\
      m_stopped (device r) = m_stopped d /\
      (exists raw,
         delivered (written r) = map (applyGain masterGain) raw /\
         isPrefix (raw ++ pendingFrames (device r))
                  (pendingFrames d ++ engineStream fuel e)) /\
      bytesWritten (written r) = n * sizeofSampleFrame /\
      (exists fs, written r =
                  map Frames fs ++
                  (if starved r
                   then [Zeros (n * sizeofSampleFrame
                                - bytesWritten (map Frames fs))]
                   else [])).
Proof.
  induction fuel as [|fuel IH]; intros n d e Ok Fuel; [lia|].
  cbn [floatLoop].
  destruct n as [|n'].
  - cbn [Nat.mul Nat.eqb].
    eexists. split; [reflexivity|]. cbn [device written starved].
    split; [exact Ok|]. split; [reflexivity|].
    split.
    { exists []. split; [reflexivity|]. cbn [app].
      now exists (engineStream (S fuel) e). }
    split; [reflexivity|].
    exists []. reflexivity.
  - set (n := S n') in *.
    destruct (Nat.eqb_spec (n * sizeofSampleFrame) 0) as [Z|NZ];
      [unfold sizeofSampleFrame, n in Z; lia|].
    pose proof (floatPull_spec d e Ok) as Pull.
    destruct (floatPull d e) as [e1|[d1 e1]].
    + eexists. split; [reflexivity|]. cbn [device written starved].
      split; [exact Ok|]. split; [reflexivity|].
      split.
      { exists []. split; [reflexivity|]. cbn [app].
        now exists (engineStream (S fuel) e). }
      split; [cbn; lia|].
      exists []. cbn [map app bytesWritten fold_right].
      now rewrite Nat.sub_0_r.
    + destruct Pull as (Hp & Hc & St & Stream).
      destruct (floatDeliver_spec d1 n Hp Hc ltac:(lia))
        as (m & raw & Hm & Lraw & Eq & Ok3 & St3 & Pend).
      rewrite Eq.
      set (d3 := fst (fst (floatDeliver d1 (n * sizeofSampleFrame)))) in *.
      destruct (IH (n - m) d3 e1 Ok3 ltac:(lia))
        as (r & Run & Okr & Str & (raw' & Del & Pre) & Bytes & fs & Shape).
      rewrite Run.
      eexists. split; [reflexivity|]. cbn [device written starved].
      split; [exact Okr|]. split; [congruence|].
      split; [|split].
      * exists (raw ++ raw'). split.
        { now rewrite delivered_cons_frames, Del, map_app. }
        assert (Src : isPrefix
                        (raw ++ pendingFrames d3 ++ engineStream fuel e1)
                        (pendingFrames d ++ engineStream (S fuel) e)).
        { destruct (Stream fuel) as [E|E]; rewrite E, Pend, <- app_assoc.
          - apply isPrefix_app, isPrefix_app, engineStream_S.
          - exists []. now rewrite app_nil_r. }
        eapply isPrefix_trans; [|exact Src].
        rewrite <- app_assoc. apply isPrefix_app, Pre.
      * rewrite bytesWritten_cons, Bytes. cbn [chunkBytes].
        rewrite length_map, Lraw.
        rewrite Nat.mul_sub_distr_r.
        assert (m * sizeofSampleFrame <= n * sizeofSampleFrame)
          by (apply Nat.mul_le_mono_r; lia).
        lia.
      * exists (map (applyGain masterGain) raw :: fs).
        rewrite Shape. cbn [map app]. f_equal.
        destruct (starved r); [|reflexivity].
        f_equal. f_equal. rewrite bytesWritten_cons. cbn [chunkBytes].
        rewrite length_map, Lraw, Nat.mul_sub_distr_r. f_equal. lia.
Qed.

(** *** The fixed-point loop *)

Lemma fixedPull_spec `{DeviceEnv} d e :
  fixedOk d ->
  match fixedPull d e with
  | inl e1 => m_convertedBufPos d = 0 /\ getNextBuffer e = ([], e1)
  | inr (d1, e1) =>
      m_convertedBufPos d1 < m_convertedBufSize d1 /\
      channels d1 = channels d /\ m_stopped d1 = m_stopped d
  end.
Proof.
  intros [Ch Pos]. unfold fixedPull.
  destruct (Nat.eqb_spec (m_convertedBufPos d) 0) as [Z|NZ].
  - destruct (getNextBuffer e) as [produced e1] eqn:G.
    destruct (Nat.eqb_spec (length produced) 0) as [L|L].
    + split; [exact Z|]. destruct produced; [reflexivity | discriminate].
    + cbn [setConverted setOutBuf m_convertedBufPos m_convertedBufSize
           channels m_stopped].
      rewrite Z. split; [|split; reflexivity].
      unfold sizeofIntSample. nia.
  - destruct Pos as [Z|Lt]; [contradiction|].
    split; [exact Lt|]. split; reflexivity.
Qed.

Lemma fixedDeliver_spec d len :
  m_convertedBufPos d < m_convertedBufSize d -> 0 < channels d ->
  1 <= len ->
  exists m d3 bs,
    fixedDeliver d len = (d3, Bytes m bs, len - m) /\ 1 <= m <= len /\
    fixedOk d3 /\ m_stopped d3 = m_stopped d.
Proof.
  intros Lt Ch Len. unfold fixedDeliver.
  set (m := Nat.min len (m_convertedBufSize d - m_convertedBufPos d)).
  eexists m, _, _. split; [reflexivity|].
  split; [lia|].
  split; [|reflexivity].
  unfold fixedOk.
  cbn [setConvertedPos channels m_convertedBufPos m_convertedBufSize].
  split; [exact Ch|]. right.
  apply Nat.mod_upper_bound. lia.
Qed.

(** The fixed-point loop returns with more fuel than bytes asked for; it
    writes exactly the requested bytes, converted bytes first and zeros
    for the rest when it ends on an empty pull, and then the device is
    marked stopped. *)
Lemma fixedLoop_bytes `{DeviceEnv} fuel :
  forall len d e,
    fixedOk d -> len < fuel ->
    exists r,
      fixedLoop fuel d e len = Some r /\
      m_stopped (device r) = (starved r || m_stopped d)%bool /\
      bytesWritten (written r) = len /\
      (exists cs,
         Forall (fun c => exists n bs, c = Bytes n bs) cs /\
         written r =
           cs ++ (if starved r then [Zeros (len - bytesWritten cs)] else [])).
Proof.
  induction fuel as [|fuel IH]; intros len d e Ok Fuel; [lia|].
  cbn [fixedLoop].
  destruct (Nat.eqb_spec len 0) as [Z|NZ].
  - eexists. split; [reflexivity|]. cbn [device written starved].
    split; [reflexivity|]. split; [now subst|].
    exists []. split; [constructor | reflexivity].
  - pose proof (fixedPull_spec d e Ok) as Pull.
    destruct (fixedPull d e) as [e1|[d1 e1]].
    + eexists. split; [reflexivity|]. cbn [device written starved].
      split; [reflexivity|]. split; [cbn; lia|].
      exists []. split; [constructor|].
      cbn [app bytesWritten fold_right]. now rewrite Nat.sub_0_r.
    + destruct Pull as (Lt & Ch & St).
      destruct Ok as [Ch0 _].
      destruct (fixedDeliver_spec d1 len Lt ltac:(lia) ltac:(lia))
        as (m & d3 & bs & Eq & Hm & Ok3 & St3).
      rewrite Eq.
      destruct (IH (len - m) d3 e1 Ok3 ltac:(lia))
        as (r & Run & Str & Tot & cs & AllB & Shape).
      rewrite Run.
      eexists. split; [reflexivity|]. cbn [device written starved].
      split; [congruence|]. split.
      * rewrite bytesWritten_cons, Tot. cbn [chunkBytes]. lia.
      * exists (Bytes m bs :: cs). split.
        { constructor; [now exists m, bs | exact AllB]. }
        rewrite Shape. cbn [app]. f_equal.
        destruct (starved r); [|reflexivity].
        f_equal. f_equal. rewrite bytesWritten_cons. cbn [chunkBytes].
        f_equal. lia.
Qed.

Lemma floatLoop_empty_pull `{DeviceEnv} fuel d e len :
  len <> 0 -> m_currentBufferFramePos d = 0 ->
  fst (getNextBuffer e) = [] ->
  floatLoop (S fuel) d e len =
  Some (mkCallbackResult d (snd (getNextBuffer e)) [Zeros len] true).
Proof.
  intros L P G. cbn [floatLoop].
  destruct (Nat.eqb_spec len 0) as [Z|_]; [contradiction|].
  unfold floatPull. rewrite P. cbn [Nat.eqb].
  destruct (getNextBuffer e) as [produced e1]. cbn [fst snd] in *.
  subst produced. reflexivity.
Qed.

Lemma fixedLoop_empty_pull `{DeviceEnv} fuel d e len :
  len <> 0 -> m_convertedBufPos d = 0 ->
  fst (getNextBuffer e) = [] ->
  fixedLoop (S fuel) d e len =
  Some (mkCallbackResult (setStopped true d) (snd (getNextBuffer e))
          [Zeros len] true).
Proof.
  intros L P G. cbn [fixedLoop].
  destruct (Nat.eqb_spec len 0) as [Z|_]; [contradiction|].
  unfold fixedPull. rewrite P. cbn [Nat.eqb].
  destruct (getNextBuffer e) as [produced e1]. cbn [fst snd] in *.
  subst produced. reflexivity.
Qed.

(** C6.  When the pull from the engine returns 0 frames with [len] bytes
    of the request still open, both variants of the loop zero-fill exactly
    these [len] bytes and return at once (whatever fuel is left, and with
    the engine as the pull left it); the fixed-point variant also sets
    [m_stopped], after which a callback zero-fills its whole request
    without asking the engine, until [startProcessing] clears the flag.
    A whole call returns and writes exactly the bytes requested: the data
    it got, then zeros for the rest when it ended on an empty pull. *)
Theorem empty_pull_zero_fills `{DeviceEnv}
  (d : AudioSdl) (e : Engine) (len : nat) :
  fst (getNextBuffer e) = [] -> len <> 0 ->
  (m_currentBufferFramePos d = 0 ->
   forall fuel,
     floatLoop (S fuel) d e len =
     Some (mkCallbackResult d (snd (getNextBuffer e)) [Zeros len] true)) /\
  (m_convertedBufPos d = 0 ->
   forall fuel,
     fixedLoop (S fuel) d e len =
     Some (mkCallbackResult (setStopped true d) (snd (getNextBuffer e))
             [Zeros len] true)) /\
  (forall fuel e' len',
     sdlAudioCallbackS16 fuel (setStopped true d) e' len' =
     Some (mkCallbackResult (setStopped true d) e' [Zeros len'] false)) /\
  m_stopped (startProcessing (setStopped true d)) = false /\
  (forall d0 e0 n,
     deviceOk d0 -> m_stopped d0 = false ->
     exists r fs,
       sdlAudioCallback (S n) d0 e0 (n * sizeofSampleFrame) = Some r /\
       bytesWritten (written r) = n * sizeofSampleFrame /\
       written r =
         map Frames fs ++
         (if starved r
          then [Zeros (n * sizeofSampleFrame - bytesWritten (map Frames fs))]
          else []) /\
       m_stopped (device r) = false) /\
  (forall d0 e0 k,
     fixedOk d0 -> m_stopped d0 = false ->
     exists r cs,
       sdlAudioCallbackS16 (S k) d0 e0 k = Some r /\
       bytesWritten (written r) = k /\
       Forall (fun c => exists n bs, c = Bytes n bs) cs /\
       written r =
         cs ++ (if starved r then [Zeros (k - bytesWritten cs)] else []) /\
       m_stopped (device r) = starved r).
Proof.
  intros G L.
  split; [intros P fuel; now apply floatLoop_empty_pull|].
  split; [intros P fuel; now apply fixedLoop_empty_pull|].
  split; [reflexivity|]. split; [reflexivity|]. split.
  - intros d0 e0 n Ok St.
    destruct (floatLoop_frames (S n) n d0 e0 Ok ltac:(lia))
      as (r & Run & _ & Str & _ & Tot & fs & Shape).
    exists r, fs. unfold sdlAudioCallback. rewrite St.
    split; [exact Run|]. split; [exact Tot|]. split; [exact Shape|].
    congruence.
  - intros d0 e0 k Ok St.
    destruct (fixedLoop_bytes (S k) k d0 e0 Ok ltac:(lia))
      as (r & Run & Str & Tot & cs & AllB & Shape).
    exists r, cs. unfold sdlAudioCallbackS16. rewrite St.
    split; [exact Run|]. split; [exact Tot|]. split; [exact AllB|].
    split; [exact Shape|].
    rewrite Str, St. apply orb_false_r.
Qed.

Lemma empty_pull_zero_fills_witness :
  let E := queueEnv 1 in
  let d := AudioSdl_new 4 in
  @fst (list sampleFrame) (@Engine E) (@getNextBuffer E []) = [] /\ 32 <> 0 /\
  @sdlAudioCallback E 1 d [] 32 =
    Some (@mkCallbackResult E d [] [Zeros 32] true) /\
  @sdlAudioCallbackS16 E 1 d [] 32 =
    Some (@mkCallbackResult E (setStopped true d) [] [Zeros 32] true).
Proof.
  cbv zeta.
  assert (G : @fst (list sampleFrame) (@Engine (queueEnv 1))
                (@getNextBuffer (queueEnv 1) []) = []) by reflexivity.
  assert (L : 32 <> 0) by discriminate.
  split; [exact G|]. split; [exact L|].
  destruct (@empty_pull_zero_fills (queueEnv 1) (AudioSdl_new 4) [] 32 G L)
    as (F & X & _).
  split.
  - exact (F eq_refl 0).
  - exact (X eq_refl 0).
Defined.

Lemma applyGain_one f : applyGain 1 f = f.
Proof.
  destruct f as [[a b] [c d]]. unfold applyGain, Qmult. cbn [fst snd Qnum Qden].
  now rewrite !Z.mul_1_r, !Pos.mul_1_r.
Qed.

Lemma map_applyGain_one l : map (applyGain 1) l = l.
Proof.
  induction l as [|f l IH]; [reflexivity|].
  cbn [map]. now rewrite applyGain_one, IH.
Qed.

Lemma applyGain_zero g f :
  (g == 0)%Q -> (fst (applyGain g f) == 0 /\ snd (applyGain g f) == 0)%Q.
Proof.
  intro Z. unfold applyGain. cbn [fst snd]. rewrite Z. split; ring.
Qed.

(** C7.  A call of the float callback for [n] whole frames returns, and
    the frames it delivers are the frames [raw] that come next in the
    device and from the engine, in their order, each with both channels
    multiplied by the master gain, once: a delivered frame is
    (left * gain, right * gain) of the raw frame at its position.  The
    frames left pending in the device are the ones that follow [raw],
    untouched.  With gain 1 the delivered frames are the engine's frames
    themselves; with gain 0 every delivered frame is zero in both
    channels. *)
Theorem gain_applied_once `{DeviceEnv}
  (d : AudioSdl) (e : Engine) (n : nat) :
  deviceOk d -> m_stopped d = false ->
  exists r raw,
    sdlAudioCallback (S n) d e (n * sizeofSampleFrame) = Some r /\
    delivered (written r) =
      map (fun f : sampleFrame =>
             (fst f * masterGain, snd f * masterGain)%Q) raw /\
    isPrefix (raw ++ pendingFrames (device r))
             (pendingFrames d ++ engineStream (S n) e) /\
    (starved r = false -> length raw = n) /\
    (masterGain = 1%Q -> delivered (written r) = raw) /\
    ((masterGain == 0)%Q ->
     Forall (fun f => (fst f == 0 /\ snd f == 0)%Q) (delivered (written r))).
Proof.
  intros Ok St.
  destruct (floatLoop_frames (S n) n d e Ok ltac:(lia))
    as (r & Run & _ & _ & (raw & Del & Pre) & Tot & fs & Shape).
  exists r, raw. unfold sdlAudioCallback. rewrite St.
  split; [exact Run|]. split; [exact Del|]. split; [exact Pre|].
  split; [|split].
  - intro NS. rewrite NS, app_nil_r in Shape.
    assert (L : length (delivered (written r)) * sizeofSampleFrame =
                bytesWritten (written r)).
    { rewrite Shape. clear. induction fs as [|f fs IH]; [reflexivity|].
      cbn [map]. rewrite delivered_cons_frames, bytesWritten_cons.
      cbn [chunkBytes]. rewrite length_app. lia. }
    rewrite Tot, Del, length_map in L.
    unfold sizeofSampleFrame in L. lia.
  - intro G. rewrite Del, G. apply map_applyGain_one.
  - intro G. rewrite Del. apply Forall_forall. intros f In.
    apply in_map_iff in In. destruct In as (x & <- & _).
    now apply applyGain_zero.
Qed.

Lemma gain_applied_once_witness :
  let E := queueEnv (1 # 2) in
  let d := AudioSdl_new 3 in
  let e := [[(1, 1); (2, 2); (3, 3)]; [(4, 4); (5, 5); (6, 6)]]%Q in
  deviceOk d /\ m_stopped d = false /\
  exists r raw,
    @sdlAudioCallback E 5 d e 32 = Some r /\
    delivered (@written E r) =
      map (fun f : sampleFrame =>
             (fst f * (1 # 2), snd f * (1 # 2))%Q) raw /\
    delivered (@written E r) =
      [(1 # 2, 1 # 2); (2 # 2, 2 # 2); (3 # 2, 3 # 2); (4 # 2, 4 # 2)]%Q /\
    isPrefix raw [(1, 1); (2, 2); (3, 3); (4, 4); (5, 5); (6, 6)]%Q /\
    length raw = 4.
Proof.
  cbv zeta.
  assert (Ok : deviceOk (AudioSdl_new 3)) by (left; reflexivity).
  assert (St : m_stopped (AudioSdl_new 3) = false) by reflexivity.
  split; [exact Ok|]. split; [exact St|].
  destruct (@gain_applied_once (queueEnv (1 # 2)) (AudioSdl_new 3)
              [[(1, 1); (2, 2); (3, 3)]; [(4, 4); (5, 5); (6, 6)]]%Q 4 Ok St)
    as (r & raw & Run & Del & Pre & Len & _).
  exists r, raw. split; [exact Run|]. split; [exact Del|].
  assert (NS : @starved (queueEnv (1 # 2)) r = false).
  { vm_compute in Run. injection Run as <-. reflexivity. }
  split.
  { clear Del Pre Len NS. vm_compute in Run. injection Run as <-.
    reflexivity. }
  split; [|exact (Len NS)].
  destruct Pre as [t Pre].
  exists (pendingFrames (@device (queueEnv (1 # 2)) r) ++ t).
  rewrite app_assoc. exact Pre.
Defined.
Open Scope Q_scope.

(** ** The wet/dry levels *)

(** C10.  Claim: for every value of the wet/dry model the dry level is
    1 minus the wet level, and the two sum to 1.  The code computes
    [1.0f - wet] in [float], which rounds.  What holds: for a wet/dry
    value between -1 and 1 the dry level is at most 2^-24 away from
    1 - wet, and the sum of dry and wet level, computed in [float], is
    between 1 - 2^-24 and 1; for a value between 0 and 1 the sum is
    exactly 1. *)
Theorem dry_wet_sum (fx : Effect) :
  -1 <= wetLevel fx <= 1 ->
  let sum := round32 (dryLevel fx + wetLevel fx) in
  (1 - wetLevel fx) - pow2 (-24) <= dryLevel fx /\
  dryLevel fx <= (1 - wetLevel fx) + pow2 (-24) /\
  1 - pow2 (-24) <= sum /\ sum <= 1 /\
  (0 <= wetLevel fx -> sum == 1).
Proof.
  intros [L U]. cbv zeta. unfold dryLevel, wetLevel in *.
  set (w := m_wetDryModel fx) in *.
  set (sum := round32 (round32 (1 - w) + w)).
  assert (P24 : pow2 (-24) == 1 # 16777216) by reflexivity.
  assert (P25 : pow2 (-25) == 1 # 33554432) by reflexivity.
  destruct (Qlt_le_dec (1 - w) 1) as [C|C].
  - destruct (round32_error_below_one (1 - w) ltac:(lra) C) as [A1 A2].
    assert (S1 : sum == 1).
    { apply round32_near_one; lra. }
    lra.
  - destruct (round32_error_one_to_two (1 - w) C ltac:(lra)) as [A1 A2].
    destruct (round32_near_one_below (round32 (1 - w) + w)
                ltac:(lra) ltac:(lra)) as [B1 B2].
    fold sum in B1, B2.
    split; [lra|]. split; [lra|]. split; [exact B1|]. split; [exact B2|].
    intro W0.
    assert (E : round32 (1 - w) == round32 1)
      by (apply round32_comp; lra).
    pose proof round32_one as E1.
    apply round32_near_one; lra.
Qed.

Lemma dry_wet_sum_witness :
  let fx := mkEffect (1 # 3) 0 1 in
  -1 <= wetLevel fx <= 1 /\ 0 <= wetLevel fx /\
  round32 (dryLevel fx + wetLevel fx) == 1.
Proof.
  cbv zeta.
  assert (R : -1 <= wetLevel (mkEffect (1 # 3) 0 1) <= 1)
    by (cbn; lra).
  assert (W : 0 <= wetLevel (mkEffect (1 # 3) 0 1)) by (cbn; lra).
  split; [exact R|]. split; [exact W|].
  exact (proj2 (proj2 (proj2 (proj2
           (dry_wet_sum (mkEffect (1 # 3) 0 1) R)))) W).
Defined.

(** C10, the input that contradicts the claim: the wet/dry value
    -4194305 * 2^-24 (the [float] -0.25000006).  It is a [float] between
    -1 and 1; 1 - wet is 1.25000006, half-way between two [float]
    values, and is rounded to 1.25; so the dry level is not 1 - wet, and
    the sum of dry and wet level is 1 - 2^-24 (the [float] 0.99999994),
    not 1. *)
Theorem dry_wet_sum_below_one :
  let fx := mkEffect (-4194305 # 16777216) 0 1 in
  isFloat32 (wetLevel fx) /\ -1 <= wetLevel fx <= 1 /\
  dryLevel fx == 5 # 4 /\
  ~ dryLevel fx == 1 - wetLevel fx /\
  dryLevel fx + wetLevel fx == 1 - pow2 (-24) /\
  round32 (dryLevel fx + wetLevel fx) == 1 - pow2 (-24) /\
  ~ round32 (dryLevel fx + wetLevel fx) == 1.
Proof.
  cbv zeta.
  split; [vm_compute; reflexivity|].
  split; [split; apply Qle_bool_iff; vm_compute; reflexivity|].
  split; [vm_compute; reflexivity|].
  split; [intro H; vm_compute in H; discriminate|].
  split; [vm_compute; reflexivity|].
  split; [vm_compute; reflexivity|].
  intro H; vm_compute in H; discriminate.
Qed.


(** * More of the code: the plugin in use, the wave view and its knobs,
      the auto-quit timeout, the buffer-size slider, successive
      callbacks *)

Open Scope Q_scope.

(** ** Truncation and integer conversions *)

Lemma Qtrunc_nonneg x : 0 <= x -> Qtrunc x = Qfloor x.
Proof.
  intro H. unfold Qtrunc.
  destruct (Qltb x 0) eqn:E; [apply Qltb_lt in E; lra | reflexivity].
Qed.

Lemma Qfloor_nonneg x : 0 <= x -> (0 <= Qfloor x)%Z.
Proof.
  intro H. change 0%Z with (Qfloor 0). now apply Qfloor_resp_le.
Qed.

Lemma Qfloor_bounds x :
  inject_Z (Qfloor x) <= x /\ x < inject_Z (Qfloor x) + 1.
Proof.
  split; [apply Qfloor_le|].
  pose proof (Qlt_floor x) as H. rewrite inject_Z_plus in H. exact H.
Qed.

Lemma Qtrunc_mono x y : x <= y -> (Qtrunc x <= Qtrunc y)%Z.
Proof.
  intro H. unfold Qtrunc.
  destruct (Qltb x 0) eqn:Ex; [apply Qltb_lt in Ex | apply Qltb_ge in Ex];
    (destruct (Qltb y 0) eqn:Ey; [apply Qltb_lt in Ey | apply Qltb_ge in Ey]).
  - assert (L : (Qfloor (- y) <= Qfloor (- x))%Z)
      by (apply Qfloor_resp_le; lra). lia.
  - pose proof (Qfloor_nonneg (- x) ltac:(lra)).
    pose proof (Qfloor_nonneg y Ey). lia.
  - lra.
  - now apply Qfloor_resp_le.
Qed.

Lemma Qtrunc_inject_Z k : Qtrunc (inject_Z k) = k.
Proof.
  unfold Qtrunc. destruct (Qltb (inject_Z k) 0) eqn:E.
  - rewrite <- inject_Z_opp, Qfloor_Z. lia.
  - apply Qfloor_Z.
Qed.

Lemma inject_Z_nonneg k : (0 <= k)%Z -> 0 <= inject_Z k.
Proof. intro H. change 0 with (inject_Z 0). now rewrite <- Zle_Qle. Qed.

Lemma inject_Z_pos k : (0 < k)%Z -> 0 < inject_Z k.
Proof. intro H. change 0 with (inject_Z 0). now rewrite <- Zlt_Qlt. Qed.


Lemma toSizeT_small x : (0 <= x < 2 ^ 64)%Z -> toSizeT x = x.
Proof. intro H. unfold toSizeT. now apply Z.mod_small. Qed.


Lemma toInt_small x : (- 2 ^ 31 <= x < 2 ^ 31)%Z -> toInt x = x.
Proof.
  intro H. unfold toInt. rewrite Z.mod_small; lia.
Qed.

Lemma toInt_toSizeT x : toInt (toSizeT x) = toInt x.
Proof.
  unfold toInt, toSizeT. f_equal.
  rewrite (Z.add_mod (x mod 2 ^ 64)) by lia.
  rewrite Z.mod_mod_divide by (exists (2 ^ 32)%Z; reflexivity).
  rewrite <- Z.add_mod by lia. reflexivity.
Qed.

(** ** The auto-quit timeout of [Effect] *)

(** The samples [timeout] computes are within the rounding of [float]
    of rate * autoQuit / 1000. *)
Lemma timeoutSamples_bounds (rate : Z) (autoQuit : Q) :
  (1 <= rate <= 2 ^ 24)%Z -> 1 <= autoQuit ->
  let exact := inject_Z rate * autoQuit * (1 # 1000) in
  let samples := timeoutSamples rate autoQuit in
  exact - pow2 (-23) * exact <= samples /\
  samples <= exact + pow2 (-22) * exact.
Proof.
  intros Hr Ha exact samples.
  pose proof (inject_Z_pos rate ltac:(lia)) as R0.
  assert (R1 : 1 <= inject_Z rate).
  { change 1 with (inject_Z 1). rewrite <- Zle_Qle. lia. }
  pose proof (round32_inject_Z rate ltac:(lia)) as Er.
  set (r := round32 (inject_Z rate)) in *.
  assert (X1 : 1 <= r * autoQuit).
  { rewrite Er. nra. }
  assert (P126 : pow2 (-126) <= 1 # 1000) by qle_compute.
  destruct (round32_relative_error (r * autoQuit) ltac:(lra)) as [A1 A2].
  assert (P1 : 1 <= round32 (r * autoQuit)).
  { pose proof (round32_mono 1 (r * autoQuit) ltac:(lra) X1) as M.
    pose proof round32_one. lra. }
  set (p := round32 (r * autoQuit)) in *.
  assert (Eq : p / 1000 == p * (1 # 1000)) by (field; lra).
  destruct (round32_relative_error (p / 1000) ltac:(lra)) as [B1 B2].
  assert (S : samples = round32 (p / 1000)) by reflexivity.
  rewrite <- S in B1, B2. clearbody samples.
  assert (Ex : exact == r * autoQuit * (1 # 1000)).
  { unfold exact. rewrite Er. reflexivity. }
  assert (E24 : pow2 (-24) == 1 # 16777216) by reflexivity.
  assert (E23 : pow2 (-23) == 1 # 8388608) by reflexivity.
  assert (E22 : pow2 (-22) == 1 # 4194304) by reflexivity.
  set (x := r * autoQuit) in *. clearbody x p exact.
  rewrite E24 in *. rewrite Eq in *.
  split; [rewrite E23 | rewrite E22]; nra.
Qed.

(** The timeout, in periods, covers the auto-quit time up to the
    rounding of [float].  For a sample rate from 1 to 2^24, an auto-quit
    time of at least 1 ms that comes to less than 2^30 samples, and a
    positive period length: the number of samples the code computes is
    within 2^-23 (below) and 2^-22 (above) of rate * autoQuit / 1000 and
    fits [int]; the timeout is at least one period; the periods before
    the last do not exceed the computed samples, and all periods together
    are strictly longer. *)
Theorem timeout_covers_auto_quit (rate : Z) (autoQuit : Q) (fpp : Z) :
  (1 <= rate <= 2 ^ 24)%Z -> 1 <= autoQuit -> (0 < fpp)%Z ->
  inject_Z rate * autoQuit * (1 # 1000) < inject_Z (2 ^ 30) ->
  let exact := inject_Z rate * autoQuit * (1 # 1000) in
  let samples := timeoutSamples rate autoQuit in
  let t := timeout rate autoQuit fpp in
  exact - pow2 (-23) * exact <= samples /\
  samples <= exact + pow2 (-22) * exact /\
  samples < inject_Z (2 ^ 31) /\
  (1 <= t)%Z /\
  inject_Z ((t - 1) * fpp) <= samples /\
  samples < inject_Z (t * fpp).
Proof.
  intros Hr Ha Hf Hs exact samples t.
  destruct (timeoutSamples_bounds rate autoQuit Hr Ha) as [L U].
  fold exact samples in L, U. fold exact in Hs.
  assert (E23 : pow2 (-23) == 1 # 8388608) by reflexivity.
  assert (E22 : pow2 (-22) == 1 # 4194304) by reflexivity.
  assert (E30 : inject_Z (2 ^ 30) == 1073741824) by reflexivity.
  assert (E31 : inject_Z (2 ^ 31) == 2147483648) by reflexivity.
  assert (X0 : 0 <= exact).
  { unfold exact. pose proof (inject_Z_nonneg rate ltac:(lia)). nra. }
  split; [exact L|]. split; [exact U|].
  assert (S31 : samples < inject_Z (2 ^ 31)).
  { rewrite E31. rewrite E22, E30 in *. clearbody exact samples. nra. }
  split; [exact S31|].
  assert (S0 : 0 <= samples).
  { rewrite E23 in L. clearbody exact samples. nra. }
  unfold t, timeout. fold samples.
  rewrite (Qtrunc_nonneg _ S0).
  pose proof (Qfloor_nonneg _ S0) as N0.
  pose proof (Qfloor_bounds samples) as [FL FU].
  set (n := Qfloor samples) in *.
  rewrite Z.quot_div_nonneg by lia.
  pose proof (Z.div_mod n fpp ltac:(lia)) as DM.
  pose proof (Z.mod_pos_bound n fpp Hf) as MB.
  assert (Q0 : (0 <= n / fpp)%Z) by (apply Z.div_pos; lia).
  split; [lia|]. split.
  - apply Qle_trans with (inject_Z n); [|exact FL].
    rewrite <- Zle_Qle. nia.
  - apply Qlt_le_trans with (inject_Z n + 1); [exact FU|].
    change 1 with (inject_Z 1). rewrite <- inject_Z_plus, <- Zle_Qle. nia.
Qed.

Lemma timeout_covers_auto_quit_witness :
  (1 <= 44100 <= 2 ^ 24)%Z /\ 1 <= 1000 /\ (0 < 256)%Z /\
  inject_Z 44100 * 1000 * (1 # 1000) < inject_Z (2 ^ 30) /\
  (1 <= timeout 44100 1000 256)%Z /\
  timeoutSamples 44100 1000 < inject_Z (timeout 44100 1000 256 * 256).
Proof.
  assert (H1 : (1 <= 44100 <= 2 ^ 24)%Z) by lia.
  assert (H2 : 1 <= 1000) by lra.
  assert (H3 : (0 < 256)%Z) by lia.
  assert (H4 : inject_Z 44100 * 1000 * (1 # 1000) < inject_Z (2 ^ 30))
    by reflexivity.
  split; [exact H1|]. split; [exact H2|]. split; [exact H3|].
  split; [exact H4|].
  destruct (timeout_covers_auto_quit 44100 1000 256 H1 H2 H3 H4)
    as (_ & _ & _ & T1 & _ & T2).
  split; [exact T1 | exact T2].
Defined.

(** The product of the rate and the auto-quit time is rounded: at
    44100 Hz with periods of 256 frames, the auto-quit time 29.024942 ms
    (as a [float]) comes to less than 1280 samples, yet the code computes
    1280.0 and a timeout of 6 periods. *)
Lemma timeout_rounds_up :
  let autoQuit := round32 (29024942 # 1000000) in
  inject_Z 44100 * autoQuit * (1 # 1000) < 1280 /\
  timeoutSamples 44100 autoQuit == 1280 /\
  timeout 44100 autoQuit 256 = 6%Z.
Proof.
  cbv zeta. split; [|split]; vm_compute; reflexivity.
Qed.

(** ** The plugin in use *)








Lemma notePlaybackState_cursorAtStart a n :
  cursorAtStart a -> m_pluginData n = None -> newNoteFromStart a n.
Proof.
  intros [C B] D. unfold newNoteFromStart, notePlaybackState. rewrite D.
  destruct (m_stutterModel a && _)%bool; cbn.
  - unfold restartCursor, setNextPlay. rewrite <- C, <- B at 1.
    destruct a; cbn; auto.
  - auto.
Qed.

(** ** The beat length *)





(** The factor is rounded: with 3 frames left, base frequency 440 Hz and
    a note of 146.66667 Hz (as a [float]) the exact product is below 9,
    yet the result is 9. *)
Lemma beatLen_rounds_up :
  let a := mkAFP (mkSample 3 0 3 0 3) 0 1 0 LoopOff false 1%Z 0%Z false in
  let freq := round32 (14666667 # 100000) in
  inject_Z 3 * (440 / freq) < 9 /\
  beatLen a 440 freq 44100 44100 = 9%Z.
Proof. cbv zeta. split; vm_compute; reflexivity. Qed.

(** ** The wave view *)

Lemma updateSampleRange_window (s : Sample) (w : WaveView) :
  (0 <= startFrame s <= endFrame s)%Z ->
  (endFrame s <= sampleSize s < 2 ^ 30)%Z ->
  let w' := updateSampleRange s w in
  ((sampleSize s <= 1)%Z -> w' = w) /\
  ((1 < sampleSize s)%Z ->
   (0 <= m_from w' <= startFrame s)%Z /\
   (endFrame s <= m_to w' <= sampleSize s)%Z /\
   (10 * (startFrame s - m_from w') <= endFrame s - startFrame s)%Z /\
   (10 * (m_to w' - endFrame s) <= endFrame s - startFrame s)%Z /\
   m_reversed w' = m_reversed w /\ width w' = width w).
Proof.
  intros [S0 SE] [ES SM] w'. unfold w', updateSampleRange.
  split.
  - intro H. destruct (1 <? sampleSize s)%Z eqn:E; [|reflexivity].
    apply Z.ltb_lt in E. lia.
  - intro H. apply Z.ltb_lt in H. rewrite H. cbv zeta.
    cbn [m_from m_to m_reversed width setWindow].
    set (n := (endFrame s - startFrame s)%Z).
    assert (N0 : (0 <= n)%Z) by (unfold n; lia).
    assert (X0 : 0 <= inject_Z n * (1 # 10)).
    { pose proof (inject_Z_nonneg n N0). nra. }
    rewrite (Qtrunc_nonneg _ X0).
    pose proof (Qfloor_nonneg _ X0) as M0.
    pose proof (Qfloor_bounds (inject_Z n * (1 # 10))) as [FL FU].
    set (m := Qfloor (inject_Z n * (1 # 10))) in *.
    assert (M1 : (10 * m <= n)%Z).
    { rewrite Zle_Qle, inject_Z_mult. change (inject_Z 10) with 10. lra. }
    rewrite !toSizeT_small by lia.
    rewrite toInt_small by lia.
    repeat split; lia.
Qed.

(** [updateSampleRange] shows the played region.  For a sample of more
    than one frame whose start and end frames are in order inside it, the
    window afterwards lies inside the sample and contains the region from
    the start frame to the end frame, with a margin of at most a tenth of
    that region on either side; a sample of at most one frame leaves the
    window as it is. *)
Theorem updateSampleRange_shows_region (s : Sample) (w : WaveView) :
  (0 <= startFrame s <= endFrame s)%Z ->
  (endFrame s <= sampleSize s < 2 ^ 30)%Z ->
  let w' := updateSampleRange s w in
  ((sampleSize s <= 1)%Z -> w' = w) /\
  ((1 < sampleSize s)%Z ->
   (0 <= m_from w' <= startFrame s)%Z /\
   (endFrame s <= m_to w' <= sampleSize s)%Z /\
   (10 * (startFrame s - m_from w') <= endFrame s - startFrame s)%Z /\
   (10 * (m_to w' - endFrame s) <= endFrame s - startFrame s)%Z /\
   m_reversed w' = m_reversed w /\ width w' = width w).
Proof.
  intros H1 H2. exact (updateSampleRange_window s w H1 H2).
Qed.

Lemma updateSampleRange_shows_region_witness :
  let s := mkSample 1000 200 600 200 600 in
  let w := mkWaveView 0 1 false 245 in
  (0 <= startFrame s <= endFrame s)%Z /\
  (endFrame s <= sampleSize s < 2 ^ 30)%Z /\
  updateSampleRange s w = mkWaveView 160 640 false 245 /\
  (0 <= m_from (updateSampleRange s w) <= startFrame s)%Z.
Proof.
  cbv zeta.
  assert (H1 : (0 <= startFrame (mkSample 1000 200 600 200 600)
                <= endFrame (mkSample 1000 200 600 200 600))%Z)
    by (cbn; lia).
  assert (H2 : (endFrame (mkSample 1000 200 600 200 600)
                <= sampleSize (mkSample 1000 200 600 200 600) < 2 ^ 30)%Z)
    by (cbn; lia).
  split; [exact H1|]. split; [exact H2|].
  split; [vm_compute; reflexivity|].
  destruct (updateSampleRange_shows_region
              (mkSample 1000 200 600 200 600) (mkWaveView 0 1 false 245)
              H1 H2) as [_ U].
  exact (proj1 (U ltac:(cbn; lia))).
Defined.












(** [reverse] mirrors the window and the played region about the middle of
    the sample.  The window becomes [size - m_to, size - m_from], still
    inside the sample; the shift handed to [slideSampleByFrames] takes the
    start frame to the mirror image of the end frame and the end frame to
    that of the start frame, so a region that was in view is in view after
    the shift; the flag is flipped; reversing twice gives the window
    back. *)
Theorem reverse_mirrors_window (s : Sample) (w : WaveView) :
  (0 <= m_from w <= m_to w)%Z -> (m_to w <= sampleSize s < 2 ^ 30)%Z ->
  (0 <= startFrame s <= endFrame s)%Z -> (endFrame s <= sampleSize s)%Z ->
  let w' := fst (reverse s w) in
  let shift := snd (reverse s w) in
  m_from w' = (sampleSize s - m_to w)%Z /\
  m_to w' = (sampleSize s - m_from w)%Z /\
  m_reversed w' = negb (m_reversed w) /\
  (0 <= m_from w' <= m_to w')%Z /\ (m_to w' <= sampleSize s)%Z /\
  (startFrame s + shift = sampleSize s - endFrame s)%Z /\
  (endFrame s + shift = sampleSize s - startFrame s)%Z /\
  ((m_from w <= startFrame s)%Z -> (endFrame s <= m_to w)%Z ->
   (m_from w' <= startFrame s + shift)%Z /\
   (endFrame s + shift <= m_to w')%Z) /\
  (forall s', sampleSize s' = sampleSize s -> fst (reverse s' w') = w).
Proof.
  intros [F0 FT] [TS SM] [S0 SE] ES w' shift.
  assert (Ew : w' = mkWaveView (sampleSize s - m_to w)
                      (sampleSize s - m_from w) (negb (m_reversed w))
                      (width w)).
  { unfold w', reverse. cbv zeta. cbn [fst].
    rewrite (toSizeT_small (sampleSize s)) by lia.
    rewrite (toSizeT_small (m_to w)) by lia.
    rewrite (toSizeT_small (m_from w)) by lia.
    rewrite !toInt_toSizeT, !toInt_small by lia. reflexivity. }
  assert (Es : shift = (sampleSize s - endFrame s - startFrame s)%Z).
  { unfold shift, reverse. cbv zeta. cbn [snd].
    rewrite (toSizeT_small (sampleSize s)) by lia.
    rewrite (toSizeT_small (endFrame s)) by lia.
    rewrite (toSizeT_small (startFrame s)) by lia.
    rewrite (toSizeT_small (sampleSize s - endFrame s)) by lia.
    rewrite toInt_toSizeT, toInt_small by lia. reflexivity. }
  rewrite Ew, Es. cbn [m_from m_to m_reversed width].
  repeat split; try lia.
  intros s' Hs'. unfold reverse. cbv zeta.
  cbn [fst m_from m_to m_reversed width].
  rewrite Hs'.
  rewrite (toSizeT_small (sampleSize s)) by lia.
  rewrite (toSizeT_small (sampleSize s - m_to w)) by lia.
  rewrite (toSizeT_small (sampleSize s - m_from w)) by lia.
  rewrite !toInt_toSizeT, !toInt_small by lia.
  rewrite negb_involutive. destruct w as [f t r wd]. cbn. f_equal; lia.
Qed.

Lemma reverse_mirrors_window_witness :
  let s := mkSample 1000 200 600 200 600 in
  let w := mkWaveView 160 640 false 245 in
  (0 <= m_from w <= m_to w)%Z /\ (m_to w <= sampleSize s < 2 ^ 30)%Z /\
  (0 <= startFrame s <= endFrame s)%Z /\ (endFrame s <= sampleSize s)%Z /\
  reverse s w = (mkWaveView 360 840 true 245, 200%Z) /\
  m_from (fst (reverse s w)) = (sampleSize s - m_to w)%Z.
Proof.
  cbv zeta.
  assert (H1 : (0 <= m_from (mkWaveView 160 640 false 245)
                <= m_to (mkWaveView 160 640 false 245))%Z) by (cbn; lia).
  assert (H2 : (m_to (mkWaveView 160 640 false 245)
                <= sampleSize (mkSample 1000 200 600 200 600) < 2 ^ 30)%Z)
    by (cbn; lia).
  assert (H3 : (0 <= startFrame (mkSample 1000 200 600 200 600)
                <= endFrame (mkSample 1000 200 600 200 600))%Z)
    by (cbn; lia).
  assert (H4 : (endFrame (mkSample 1000 200 600 200 600)
                <= sampleSize (mkSample 1000 200 600 200 600))%Z)
    by (cbn; lia).
  split; [exact H1|]. split; [exact H2|]. split; [exact H3|].
  split; [exact H4|]. split; [vm_compute; reflexivity|].
  exact (proj1 (reverse_mirrors_window _ _ H1 H2 H3 H4)).
Defined.

(** Which marker a mouse press grabs.  The start marker is grabbed exactly
    when it is less than 4 pixels away and strictly nearer than the loop
    marker; failing that, the end marker exactly when it is less than 4
    pixels away and strictly nearer than the loop marker; the loop marker
    exactly when it is less than 4 pixels away and neither of the others
    is strictly nearer; in all other cases the wave itself is dragged, in
    particular when the start marker is nearer than the loop marker but 4
    or more pixels away, however near the end marker is. *)
Theorem mousePress_grabs_near_marker (x startX endX loopX : Z) :
  let start_dist := Z.abs (startX - x) in
  let end_dist := Z.abs (endX - x) in
  let loop_dist := Z.abs (loopX - x) in
  let dt := mousePressDragging x startX endX loopX in
  (dt = DragSampleStart <-> (start_dist < 4 /\ start_dist < loop_dist)%Z) /\
  (dt = DragSampleEnd <->
   (end_dist < 4 /\ end_dist < loop_dist /\ loop_dist <= start_dist)%Z) /\
  (dt = DragSampleLoop <->
   (loop_dist < 4 /\ loop_dist <= start_dist /\ loop_dist <= end_dist)%Z) /\
  (dt = DragWave <->
   (4 <= start_dist /\ start_dist < loop_dist)%Z \/
   (loop_dist <= start_dist /\ 4 <= end_dist /\ 4 <= loop_dist)%Z).
Proof.
  cbv zeta. unfold mousePressDragging. cbv zeta.
  set (sd := Z.abs (startX - x)). set (ed := Z.abs (endX - x)).
  set (ld := Z.abs (loopX - x)).
  clearbody sd ed ld.
  destruct (sd <? ld)%Z eqn:A;
    [apply Z.ltb_lt in A | apply Z.ltb_ge in A].
  - destruct (sd <? 4)%Z eqn:B;
      [apply Z.ltb_lt in B | apply Z.ltb_ge in B];
      repeat split; intros; try discriminate; try lia.
  - destruct (ed <? ld)%Z eqn:C;
      [apply Z.ltb_lt in C | apply Z.ltb_ge in C].
    + destruct (ed <? 4)%Z eqn:B;
        [apply Z.ltb_lt in B | apply Z.ltb_ge in B];
        repeat split; intros; try discriminate; try lia.
    + destruct (ld <? 4)%Z eqn:B;
        [apply Z.ltb_lt in B | apply Z.ltb_ge in B];
        repeat split; intros; try discriminate; try lia.
Qed.


Lemma markerX_mono gx gw f1 f2 w :
  (0 <= gw)%Z -> (m_from w < m_to w)%Z -> (f1 <= f2)%Z ->
  (markerX gx gw f1 w <= markerX gx gw f2 w)%Z.
Proof.
  intros G W F. unfold markerX. cbv zeta. apply Qtrunc_mono.
  pose proof (inject_Z_nonneg gw G) as G'.
  pose proof (inject_Z_pos (m_to w - m_from w) ltac:(lia)) as W'.
  assert (F' : inject_Z (f1 - m_from w) <= inject_Z (f2 - m_from w))
    by (rewrite <- Zle_Qle; lia).
  apply Qplus_le_r. apply Qmult_le_compat_r.
  - apply Qmult_le_compat_r; assumption.
  - apply Qlt_le_weak, Qinv_lt_0_compat, W'.
Qed.

Lemma markerX_edges gx gw w :
  (m_from w < m_to w)%Z ->
  markerX gx gw (m_from w) w = gx /\
  markerX gx gw (m_to w) w = (gx + gw)%Z.
Proof.
  intro W. unfold markerX. cbv zeta.
  pose proof (inject_Z_pos (m_to w - m_from w) ltac:(lia)) as W'.
  split.
  - rewrite <- (Qtrunc_inject_Z gx) at 2. apply Qtrunc_comp.
    rewrite Z.sub_diag. change (inject_Z 0) with 0. field. lra.
  - rewrite <- (Qtrunc_inject_Z (gx + gw)). apply Qtrunc_comp.
    rewrite inject_Z_plus. field. lra.
Qed.

(** The marker lines are drawn inside the graph, in order.  When the
    window is not empty and contains the start, loop and end frames in
    this order, the x positions [paintEvent] computes for them lie between
    the left and the right edge of the graph rectangle, start first, then
    loop, then end; a marker on an edge of the window is drawn on that edge
    of the rectangle. *)
Theorem markers_drawn_in_order (gx gw : Z) (s : Sample) (w : WaveView) :
  (0 <= gw)%Z -> (m_from w < m_to w)%Z ->
  (m_from w <= startFrame s <= loopStartFrame s)%Z ->
  (loopStartFrame s <= endFrame s <= m_to w)%Z ->
  (gx <= markerX gx gw (startFrame s) w)%Z /\
  (markerX gx gw (startFrame s) w <= markerX gx gw (loopStartFrame s) w)%Z /\
  (markerX gx gw (loopStartFrame s) w <= markerX gx gw (endFrame s) w)%Z /\
  (markerX gx gw (endFrame s) w <= gx + gw)%Z /\
  (startFrame s = m_from w -> markerX gx gw (startFrame s) w = gx) /\
  (endFrame s = m_to w -> markerX gx gw (endFrame s) w = (gx + gw)%Z).
Proof.
  intros G W [F1 F2] [F3 F4].
  destruct (markerX_edges gx gw w W) as [E0 E1].
  pose proof (markerX_mono gx gw (m_from w) (startFrame s) w G W F1) as M1.
  pose proof (markerX_mono gx gw _ _ w G W F2) as M2.
  pose proof (markerX_mono gx gw _ _ w G W F3) as M3.
  pose proof (markerX_mono gx gw _ _ w G W F4) as M4.
  rewrite E0 in M1. rewrite E1 in M4.
  split; [exact M1|]. split; [exact M2|]. split; [exact M3|].
  split; [exact M4|]. split; intro E; rewrite E; assumption.
Qed.

Lemma markers_drawn_in_order_witness :
  let s := mkSample 1000 200 600 300 600 in
  let w := mkWaveView 160 640 false 245 in
  (0 <= 241)%Z /\ (m_from w < m_to w)%Z /\
  (m_from w <= startFrame s <= loopStartFrame s)%Z /\
  (loopStartFrame s <= endFrame s <= m_to w)%Z /\
  markerX 2 241 (startFrame s) w = 22%Z /\
  markerX 2 241 (loopStartFrame s) w = 72%Z /\
  markerX 2 241 (endFrame s) w = 222%Z /\
  (2 <= markerX 2 241 (startFrame s) w)%Z.
Proof.
  cbv zeta.
  assert (H1 : (0 <= 241)%Z) by lia.
  assert (H2 : (m_from (mkWaveView 160 640 false 245)
                < m_to (mkWaveView 160 640 false 245))%Z) by (cbn; lia).
  assert (H3 : (m_from (mkWaveView 160 640 false 245)
                <= startFrame (mkSample 1000 200 600 300 600)
                <= loopStartFrame (mkSample 1000 200 600 300 600))%Z)
    by (cbn; lia).
  assert (H4 : (loopStartFrame (mkSample 1000 200 600 300 600)
                <= endFrame (mkSample 1000 200 600 300 600)
                <= m_to (mkWaveView 160 640 false 245))%Z)
    by (cbn; lia).
  split; [exact H1|]. split; [exact H2|]. split; [exact H3|].
  split; [exact H4|].
  split; [vm_compute; reflexivity|]. split; [vm_compute; reflexivity|].
  split; [vm_compute; reflexivity|].
  exact (proj1 (markers_drawn_in_order 2 241 _ _ H1 H2 H3 H4)).
Defined.

(** ** The knobs *)


(** ** The buffer-size slider *)

(** Snapping settles in one round.  For a positive step, a call of
    [setBufferSize] either stores 64 times the value (when the value is at
    most the step or a multiple of it), or hands the slider another value:
    a multiple of the step, at least the step, at most half a step (rounded
    up) away from the value asked for; and a call with that value stores
    it. *)
Theorem setBufferSize_snaps_once (step v : Z) :
  (0 < step)%Z ->
  match setBufferSize step v with
  | SliderTo t =>
      (step < v)%Z /\ t <> v /\
      (exists q, t = q * step /\ 1 <= q)%Z /\
      (Z.abs (t - v) <= Z.quot (step + 1) 2)%Z /\
      setBufferSize step t = StoreBufferSize (t * 64)
  | StoreBufferSize frames =>
      frames = (v * 64)%Z /\
      ((v <= step)%Z \/ exists q, v = (q * step)%Z)
  end.
Proof.
  intro S. unfold setBufferSize.
  destruct (step <? v)%Z eqn:A;
    [apply Z.ltb_lt in A | apply Z.ltb_ge in A]; cbn [andb].
  2:{ split; [reflexivity | left; exact A]. }
  rewrite Z.rem_mod_nonneg by lia.
  pose proof (Z.div_mod v step ltac:(lia)) as DM.
  pose proof (Z.mod_pos_bound v step S) as MB.
  destruct (v mod step =? 0)%Z eqn:B;
    [apply Z.eqb_eq in B | apply Z.eqb_neq in B]; cbn [negb].
  { split; [reflexivity|]. right. exists (v / step)%Z. lia. }
  cbv zeta.
  assert (Q2 : (2 * Z.quot step 2 <= step < 2 * Z.quot step 2 + 2)%Z).
  { rewrite Z.quot_div_nonneg by lia.
    pose proof (Z.div_mod step 2 ltac:(lia)).
    pose proof (Z.mod_pos_bound step 2 ltac:(lia)). lia. }
  assert (Q3 : (step <= 2 * Z.quot (step + 1) 2)%Z).
  { rewrite Z.quot_div_nonneg by lia.
    pose proof (Z.div_mod (step + 1) 2 ltac:(lia)).
    pose proof (Z.mod_pos_bound (step + 1) 2 ltac:(lia)). lia. }
  assert (Q1 : (1 <= v / step)%Z).
  { apply Z.div_le_lower_bound; lia. }
  assert (Settled : forall q, (1 <= q)%Z ->
            (if (step <? q * step)%Z
                && negb (Z.rem (q * step) step =? 0)%Z
             then
               if (Z.rem (q * step) step <? Z.quot step 2)%Z
               then SliderTo (q * step - Z.rem (q * step) step)
               else SliderTo (q * step + step - Z.rem (q * step) step)
             else StoreBufferSize (q * step * 64))
            = StoreBufferSize (q * step * 64)).
  { intros q Hq. rewrite Z.rem_mul by lia. cbn [Z.eqb negb].
    now rewrite andb_false_r. }
  destruct (v mod step <? Z.quot step 2)%Z eqn:C;
    [apply Z.ltb_lt in C | apply Z.ltb_ge in C].
  - split; [exact A|]. split; [lia|].
    assert (E : (v - v mod step = v / step * step)%Z) by lia.
    split; [exists (v / step)%Z; split; [exact E | exact Q1]|].
    split; [lia|].
    rewrite E. apply Settled, Q1.
  - split; [exact A|]. split; [lia|].
    assert (E : (v + step - v mod step = (v / step + 1) * step)%Z) by lia.
    split; [exists (v / step + 1)%Z; split; [exact E | lia]|].
    split; [lia|].
    rewrite E. apply Settled. lia.
Qed.

Lemma setBufferSize_snaps_once_witness :
  (0 < 4)%Z /\
  setBufferSize 4 7 = SliderTo 8 /\ setBufferSize 4 5 = SliderTo 4 /\
  setBufferSize 4 8 = StoreBufferSize 512.
Proof.
  assert (S : (0 < 4)%Z) by lia.
  pose proof (setBufferSize_snaps_once 4 7 S) as H.
  change (setBufferSize 4 7) with (SliderTo 8) in H.
  split; [exact S|]. split; [reflexivity|]. split; [reflexivity|].
  exact (proj2 (proj2 (proj2 (proj2 H)))).
Defined.

(** ** Successive callbacks *)

Open Scope nat_scope.

Lemma pullN_add `{DeviceEnv} j k e :
  pullN (j + k) e =
  (fst (pullN j e) ++ fst (pullN k (snd (pullN j e))),
   snd (pullN k (snd (pullN j e)))).
Proof.
  revert e. induction j as [|j IH]; intro e.
  - cbn. now destruct (pullN k e).
  - cbn [Nat.add pullN].
    destruct (getNextBuffer e) as [produced e1].
    rewrite IH.
    destruct (pullN j e1) as [a e2]. cbn [fst snd].
    now rewrite app_assoc.
Qed.

(** The pull of the float loop, in terms of the frames taken from the
    engine. *)
Lemma floatPull_pulls `{DeviceEnv} d e :
  deviceOk d ->
  match floatPull d e with
  | inl e1 =>
      m_currentBufferFramePos d = 0 /\ getNextBuffer e = ([], e1)
  | inr (d1, e1) =>
      m_currentBufferFramePos d1 < m_currentBufferFramesCount d1 /\
      m_currentBufferFramesCount d1 <= length (m_outBuf d1) /\
      m_stopped d1 = m_stopped d /\
      exists j,
        e1 = snd (pullN j e) /\
        pendingFrames d ++ fst (pullN j e) =
        firstn (m_currentBufferFramesCount d1 - m_currentBufferFramePos d1)
               (skipn (m_currentBufferFramePos d1) (m_outBuf d1))
  end.
Proof.
  intro Ok. unfold floatPull, pendingFrames.
  destruct (Nat.eqb_spec (m_currentBufferFramePos d) 0) as [Z|NZ].
  - destruct (getNextBuffer e) as [produced e1] eqn:G.
    destruct (Nat.eqb_spec (length produced) 0) as [L|L].
    + split; [exact Z|]. destruct produced; [reflexivity | discriminate].
    + cbn [setFramesCount setOutBuf m_currentBufferFramePos
           m_currentBufferFramesCount m_outBuf m_stopped].
      rewrite Z.
      split; [lia|]. split.
      { unfold blit. cbn [firstn app Nat.add].
        rewrite length_app. lia. }
      split; [reflexivity|].
      exists 1. cbn [pullN]. rewrite G. cbn [fst snd app].
      split; [reflexivity|].
      rewrite app_nil_r, Nat.sub_0_r. cbn [skipn].
      unfold blit. cbn [firstn app Nat.add].
      rewrite firstn_app, Nat.sub_diag, firstn_all. cbn [firstn].
      now rewrite app_nil_r.
  - destruct Ok as [Z|[Lt Le]]; [contradiction|].
    split; [exact Lt|]. split; [exact Le|]. split; [reflexivity|].
    exists 0. cbn [pullN fst snd]. split; [reflexivity|].
    now rewrite app_nil_r.
Qed.

(** One call of the float loop for [n] whole frames: what it delivers,
    followed by what the device keeps pending, is what was pending
    followed by what the call pulled from the engine. *)
Lemma floatLoop_pulls `{DeviceEnv} fuel :
  forall n d e,
    deviceOk d -> n < fuel ->
    exists r raw k,
      floatLoop fuel d e (n * sizeofSampleFrame) = Some r /\
      deviceOk (device r) /\
      m_stopped (device r) = m_stopped d /\
      delivered (written r) = map (applyGain masterGain) raw /\
      raw ++ pendingFrames (device r) = pendingFrames d ++ fst (pullN k e) /\
      engine r = snd (pullN k e) /\
      (starved r = false -> length raw = n).
Proof.
  induction fuel as [|fuel IH]; intros n d e Ok Fuel; [lia|].
  cbn [floatLoop].
  destruct n as [|n'].
  - cbn [Nat.mul Nat.eqb].
    eexists. exists [], 0. split; [reflexivity|].
    cbn [device written starved engine pullN fst snd app].
    split; [exact Ok|]. split; [reflexivity|]. split; [reflexivity|].
    split; [now rewrite app_nil_r|]. split; reflexivity.
  - set (n := S n') in *.
    destruct (Nat.eqb_spec (n * sizeofSampleFrame) 0) as [Z|NZ];
      [unfold sizeofSampleFrame, n in Z; lia|].
    pose proof (floatPull_pulls d e Ok) as Pull.
    destruct (floatPull d e) as [e1|[d1 e1]].
    + destruct Pull as [P0 G].
      eexists. exists [], 1. split; [reflexivity|].
      cbn [device written starved engine pullN fst snd app].
      rewrite G. cbn [fst snd app].
      split; [exact Ok|]. split; [reflexivity|]. split; [reflexivity|].
      split; [now rewrite app_nil_r|]. split; [reflexivity|discriminate].
    + destruct Pull as (Hp & Hc & St & j & Ej & Stream).
      destruct (floatDeliver_spec d1 n Hp Hc ltac:(lia))
        as (m & raw & Hm & Lraw & Eq & Ok3 & St3 & Pend).
      rewrite Eq.
      set (d3 := fst (fst (floatDeliver d1 (n * sizeofSampleFrame)))) in *.
      destruct (IH (n - m) d3 e1 Ok3 ltac:(lia))
        as (r & raw' & k & Run & Okr & Str & Del & Pre & Eng & Full).
      rewrite Run.
      eexists. exists (raw ++ raw'), (j + k).
      split; [reflexivity|]. cbn [device written starved engine].
      split; [exact Okr|]. split; [congruence|].
      split; [now rewrite delivered_cons_frames, Del, map_app|].
      rewrite pullN_add. cbn [fst snd]. rewrite <- Ej.
      split; [|split; [exact Eng|]].
      * rewrite <- app_assoc, Pre, !app_assoc. f_equal.
        now rewrite Stream, Pend.
      * intro S. rewrite length_app, Lraw, (Full S). lia.
Qed.

(** Over any number of callbacks the float variant hands out the engine's
    frames in order, none lost and none twice, each scaled by the gain
    once.  For a device that is in order and not stopped, and callbacks
    that each ask for a whole number of frames: every call returns; the
    frames delivered over all the calls are frames [raw] with the gain
    applied; [raw], followed by what the device still holds pending, is
    exactly what was pending at the start followed by everything pulled
    from the engine in these calls; and when no call ended on an empty
    pull, as many frames were delivered as were asked for. *)
Theorem callbacks_deliver_engine_frames_in_order `{DeviceEnv}
  (ns : list nat) (d : AudioSdl) (e : Engine) :
  deviceOk d -> m_stopped d = false ->
  exists rs raw k,
    sdlAudioCallbacks d e ns = Some rs /\
    run_delivered rs = map (applyGain masterGain) raw /\
    raw ++ pendingFrames (run_device rs) =
      pendingFrames d ++ fst (pullN k e) /\
    run_engine rs = snd (pullN k e) /\
    (run_starved rs = false -> length raw = list_sum ns) /\
    deviceOk (run_device rs) /\ m_stopped (run_device rs) = false.
Proof.
  revert d e. induction ns as [|n ns IH]; intros d e Ok St.
  - eexists. exists [], 0. split; [reflexivity|].
    cbn [run_delivered run_device run_engine run_starved pullN fst snd
         map app list_sum].
    split; [reflexivity|]. split; [now rewrite app_nil_r|].
    split; [reflexivity|]. split; [reflexivity|]. split; assumption.
  - cbn [sdlAudioCallbacks]. unfold sdlAudioCallback. rewrite St.
    destruct (floatLoop_pulls (S n) n d e Ok ltac:(lia))
      as (r & raw & k & Run & Okr & Str & Del & Pre & Eng & Full).
    rewrite Run.
    destruct (IH (device r) (engine r) Okr ltac:(congruence))
      as (rs & raw' & k' & Runs & Del' & Pre' & Eng' & Full' & Ok' & St').
    rewrite Runs.
    eexists. exists (raw ++ raw'), (k + k').
    split; [reflexivity|].
    cbn [run_delivered run_device run_engine run_starved list_sum].
    split; [now rewrite Del, Del', map_app|].
    rewrite pullN_add. cbn [fst snd]. rewrite <- Eng.
    split; [|split; [exact Eng'|split; [|split; assumption]]].
    + rewrite <- app_assoc, Pre', !app_assoc. f_equal. exact Pre.
    + intro S. apply orb_false_iff in S. destruct S as [S1 S2].
      rewrite length_app, (Full S1), (Full' S2). reflexivity.
Qed.

Lemma callbacks_deliver_engine_frames_in_order_witness :
  let E := queueEnv (1 # 2) in
  let d := AudioSdl_new 3 in
  let e := [[(1, 1); (2, 2); (3, 3)]; [(4, 4); (5, 5); (6, 6)]]%Q in
  deviceOk d /\ m_stopped d = false /\
  exists rs,
    @sdlAudioCallbacks E d e [2; 2] = Some rs /\
    @run_delivered E rs =
      map (applyGain (1 # 2)) [(1, 1); (2, 2); (3, 3); (4, 4)]%Q /\
    pendingFrames (@run_device E rs) = [(5, 5); (6, 6)]%Q /\
    deviceOk (@run_device E rs).
Proof.
  cbv zeta.
  assert (Ok : deviceOk (AudioSdl_new 3)) by (left; reflexivity).
  assert (St : m_stopped (AudioSdl_new 3) = false) by reflexivity.
  split; [exact Ok|]. split; [exact St|].
  destruct (@callbacks_deliver_engine_frames_in_order (queueEnv (1 # 2))
              [2; 2] (AudioSdl_new 3)
              [[(1, 1); (2, 2); (3, 3)]; [(4, 4); (5, 5); (6, 6)]]%Q Ok St)
    as (rs & raw & k & Run & _ & _ & _ & _ & Ok' & _).
  exists rs. split; [exact Run|].
  vm_compute in Run. injection Run as <-.
  split; [reflexivity|]. split; [reflexivity | exact Ok'].
Defined.
(** ** Point editing with the signals of the models: the proofs *)

Open Scope Q_scope.

Ltac proj_cbn :=
  cbn [Direct.store startPoint_setValue endPoint_setValue loopPoint_setValue
       knobValue Direct.pointChanged setNextPlay setSample setAllPointFrames
       m_sample m_startPointModel m_endPointModel m_loopPointModel
       m_loopModel m_stutterModel m_interpolationModel m_nextPlayStartPoint
       m_nextPlayBackwards] in *.

(** Decides the comparisons of the goal that follow from the context. *)
Ltac qbool :=
  repeat match goal with
  | |- context [Qltb ?x ?y] =>
      first [ rewrite (proj2 (Qltb_lt x y)) by lra
            | rewrite (proj2 (Qltb_ge x y)) by lra ]
  | |- context [Qleb ?x ?y] =>
      first [ rewrite (proj2 (Qleb_le x y)) by lra
            | rewrite (proj2 (Qleb_gt x y)) by lra ]
  | |- context [Qeqb ?x ?y] =>
      first [ rewrite (proj2 (Qeqb_eq x y)) by lra
            | rewrite (proj2 (Qeqb_neq x y)) by lra ]
  end.

Ltac qrun := repeat (progress (proj_cbn; qbool; cbn [Direct.bind])).

Lemma direct_pointChanged_cursor a : cursorAtStart (Direct.pointChanged a).
Proof. split; reflexivity. Qed.

Lemma fittedValue_id v : 0 <= v <= 1 -> fittedValue v == v.
Proof.
  intro H. destruct (fittedValue_cases v) as [[? E]|[[? E]|[? E]]]; lra.
Qed.

Lemma fittedValue_range v : 0 <= fittedValue v <= 1.
Proof.
  destruct (fittedValue_cases v) as [[? E]|[[? E]|[? E]]]; lra.
Qed.

Lemma store_range k v a : in_range a -> in_range (Direct.store k v a).
Proof.
  intro R. pose proof (fittedValue_range v).
  destruct k; unfold in_range in *; proj_cbn; lra.
Qed.

(** On a state with start <= loop < end no slot changes a marker: it
    recomputes the frames. *)
Lemma dataChanged_stable fuel k a :
  ordered a ->
  Direct.dataChanged (S fuel) k a = Some (Direct.pointChanged a).
Proof.
  intros [O1 O2]. change (Direct.dataChanged (S fuel) k a)
    with (Direct.slot (Direct.dataChanged fuel) k a).
  destruct k; unfold Direct.slot, Direct.endPointChanged,
    Direct.startPointChanged, Direct.loopPointChanged,
    Direct.swapStartEnd, Direct.nudgeLoopWithEnd, Direct.nudgeLoopWithStart,
    Direct.nudgeEndUp, Direct.pushEndWithLoop, Direct.nudgeStartWithLoop;
    qrun; reflexivity.
Qed.

Lemma setValue_same emit k v a :
  fittedValue v == knobValue k a -> Direct.setValue emit k v a = Some a.
Proof.
  intro H. unfold Direct.setValue. now rewrite (proj2 (Qeqb_eq _ _) H).
Qed.

Lemma setValue_changed emit k v a :
  ~ fittedValue v == knobValue k a ->
  Direct.setValue emit k v a = emit k (Direct.store k v a).
Proof.
  intro H. unfold Direct.setValue. now rewrite (proj2 (Qeqb_neq _ _) H).
Qed.

Lemma dataChanged_S fuel k a :
  Direct.dataChanged (S fuel) k a = Direct.slot (Direct.dataChanged fuel) k a.
Proof. reflexivity. Qed.

Lemma dataChanged_end fuel a :
  Direct.dataChanged fuel PointEnd a = Direct.dataChanged fuel PointStart a.
Proof. destruct fuel; reflexivity. Qed.

Ltac open_slot :=
  rewrite dataChanged_S;
  unfold Direct.slot, Direct.endPointChanged,
    Direct.startPointChanged, Direct.loopPointChanged,
    Direct.swapStartEnd, Direct.nudgeLoopWithEnd, Direct.nudgeLoopWithStart,
    Direct.nudgeEndUp, Direct.pushEndWithLoop, Direct.nudgeStartWithLoop.

(** Closes a goal [yields (Some a') P]. *)
Ltac close_yield :=
  eexists; split; [reflexivity|];
  unfold in_range, ordered in *; proj_cbn; lra.

(** The loop slot on a state with loop < end: start is pulled down to
    loop when it is above. *)
Lemma loop_slot_below_end fuel a :
  in_range a -> m_loopPointModel a < m_endPointModel a ->
  yields (Direct.dataChanged (S (S fuel)) PointLoop a)
    (fun a' =>
       in_range a' /\
       m_endPointModel a' == m_endPointModel a /\
       m_loopPointModel a' == m_loopPointModel a /\
       ((m_loopPointModel a < m_startPointModel a /\
         m_startPointModel a' == m_loopPointModel a) \/
        (m_startPointModel a <= m_loopPointModel a /\
         m_startPointModel a' == m_startPointModel a))).
Proof.
  intros R L.
  assert (FL : fittedValue (m_loopPointModel a) == m_loopPointModel a)
    by (apply fittedValue_id; unfold in_range in R; lra).
  open_slot. qrun.
  destruct (Qlt_le_dec (m_loopPointModel a) (m_startPointModel a)) as [C|C].
  - qrun. rewrite setValue_changed by (proj_cbn; lra).
    rewrite dataChanged_stable by (unfold ordered; proj_cbn; lra).
    cbn [Direct.bind]. close_yield.
  - qrun. close_yield.
Qed.

(** Takes the result of a nested call from a lemma. *)
Ltac nested L a1 P1 :=
  let E := fresh "E" in
  destruct L as (a1 & E & P1); rewrite E; cbn [Direct.bind]; clear E.

(** The state on which the next nested slot runs. *)
Ltac on_state tac :=
  match goal with
  | |- context [Direct.dataChanged _ _ ?x] => tac x
  end.

Lemma qMax_0_cases x :
  (x < 0 /\ qMax x 0 == 0) \/ (0 <= x /\ qMax x 0 == x).
Proof. unfold qMax. qstep; [lra|]. right. split; lra. Qed.

Lemma qMin_1_cases x :
  (x < 1 /\ qMin x 1 == x) \/ (1 <= x /\ qMin x 1 == 1).
Proof. unfold qMin. qstep; [left|right]; split; lra. Qed.

(** [setValue] of the start model on a state with start <= loop < end, to
    a value below end: loop follows start up when start passes it. *)
Lemma setStart_below_end fuel a w :
  in_range a -> ordered a -> 0 <= w <= 1 -> w < m_endPointModel a ->
  yields (Direct.setValue (Direct.dataChanged (S (S fuel))) PointStart w a)
    (fun a' =>
       in_range a' /\
       m_startPointModel a' == w /\
       m_endPointModel a' == m_endPointModel a /\
       ((m_loopPointModel a < w /\ m_loopPointModel a' == w) \/
        (w <= m_loopPointModel a /\
         m_loopPointModel a' == m_loopPointModel a))).
Proof.
  intros R [O1 O2] W WE.
  pose proof (fittedValue_id w W) as FV.
  assert (FFV : fittedValue (fittedValue w) == w)
    by (rewrite FV; exact FV).
  destruct (Qeq_dec (fittedValue w) (m_startPointModel a)) as [Same|Ch].
  - rewrite setValue_same by exact Same. close_yield.
  - rewrite setValue_changed by exact Ch.
    open_slot. qrun.
    destruct (Qlt_le_dec (m_loopPointModel a) w) as [C|C].
    + qrun. rewrite setValue_changed by (proj_cbn; lra).
      rewrite dataChanged_stable by (unfold ordered; proj_cbn; lra).
      qrun. close_yield.
    + qrun. close_yield.
Qed.

(** The start slot on a state with start <= end <= loop and end above 0:
    loop is set below end, and start is pulled down to it when it is
    above. *)
Lemma start_slot_loop_over_end fuel a :
  in_range a ->
  m_startPointModel a <= m_endPointModel a ->
  m_endPointModel a <= m_loopPointModel a ->
  0 < m_endPointModel a ->
  yields (Direct.dataChanged (S (S (S fuel))) PointStart a)
    (fun a' =>
       in_range a' /\ ordered a' /\
       m_endPointModel a' == m_endPointModel a /\
       ((m_endPointModel a < eps /\ m_loopPointModel a' == 0) \/
        (eps <= m_endPointModel a /\
         m_loopPointModel a' == m_endPointModel a - eps)) /\
       ((m_loopPointModel a' < m_startPointModel a /\
         m_startPointModel a' == m_loopPointModel a') \/
        (m_startPointModel a <= m_loopPointModel a' /\
         m_startPointModel a' == m_startPointModel a))).
Proof.
  intros R SE EL E0.
  open_slot. qrun.
  pose proof (qMax_0_cases (m_endPointModel a - eps)) as M.
  set (l1 := qMax (m_endPointModel a - eps) 0) in *.
  assert (L1 : 0 <= l1 <= 1)
    by (unfold in_range, eps in *; lra).
  pose proof (fittedValue_id l1 L1) as FV.
  clearbody l1.
  rewrite setValue_changed by (proj_cbn; unfold eps in *; lra).
  nested (loop_slot_below_end fuel (Direct.store PointLoop l1 a)
            (store_range _ _ _ R)
            ltac:(proj_cbn; unfold eps in *; lra)) a1 P1.
  proj_cbn. unfold eps in *. qrun. close_yield.
Qed.

(** The loop slot on a state with start <= loop and end <= loop: end is
    pushed above loop; when that takes end to 1, loop is pulled back to
    1 - eps, and start with it when it is above. *)
Lemma loop_slot_over_end fuel a :
  in_range a ->
  m_startPointModel a <= m_loopPointModel a ->
  m_endPointModel a <= m_loopPointModel a ->
  yields (Direct.dataChanged (S (S (S (S fuel)))) PointLoop a)
    (fun a' =>
       in_range a' /\ ordered a' /\
       ((m_loopPointModel a + eps < 1 /\
         m_startPointModel a' == m_startPointModel a /\
         m_endPointModel a' == m_loopPointModel a + eps /\
         m_loopPointModel a' == m_loopPointModel a) \/
        (1 <= m_loopPointModel a + eps /\
         m_endPointModel a' == 1 /\ m_loopPointModel a' == 1 - eps /\
         ((1 - eps < m_startPointModel a /\
           m_startPointModel a' == 1 - eps) \/
          (m_startPointModel a <= 1 - eps /\
           m_startPointModel a' == m_startPointModel a))))).
Proof.
  intros R SL EL.
  assert (R' := R). destruct R' as (Rs & Re & Rl).
  open_slot. qrun.
  pose proof (fittedValue_cases (m_loopPointModel a + eps)) as FE.
  assert (FP : fittedValue (1 - eps) == 1 - eps)
    by (apply fittedValue_id; unfold eps; lra).
  destruct (Qlt_le_dec (m_loopPointModel a + eps) 1) as [C|C].
  - (* end goes to loop + eps, below 1 *)
    rewrite setValue_changed by (proj_cbn; unfold eps in *; lra).
    rewrite dataChanged_stable
      by (unfold ordered; proj_cbn; unfold eps in *; lra).
    cbn [Direct.bind]. unfold eps in *. qrun. close_yield.
  - destruct (Qeq_dec (m_endPointModel a) 1) as [E1|E1].
    + (* end is 1 already: no signal; loop is pulled back *)
      rewrite setValue_same by (proj_cbn; unfold eps in *; lra).
      cbn [Direct.bind]. qrun.
      rewrite setValue_changed by (proj_cbn; unfold eps in *; lra).
      nested (loop_slot_below_end (S fuel)
                (Direct.store PointLoop (1 - eps) a)
                (store_range _ _ _ R)
                ltac:(proj_cbn; unfold eps in *; lra)) a1 P1.
      proj_cbn. unfold eps in *. qrun. close_yield.
    + rewrite setValue_changed by (proj_cbn; unfold eps in *; lra).
      destruct (Qlt_le_dec (m_loopPointModel a) 1) as [L1|L1].
      * (* end goes to 1 above loop; then loop is pulled back *)
        rewrite dataChanged_stable
          by (unfold ordered; proj_cbn; unfold eps in *; lra).
        cbn [Direct.bind]. unfold eps in *. qrun.
        destruct (Qeq_dec (m_loopPointModel a) (1 - (1 # 1000)))
          as [L9|L9].
        -- rewrite setValue_same by (proj_cbn; lra).
           cbn [Direct.bind]. qrun. close_yield.
        -- rewrite setValue_changed by (proj_cbn; lra).
           on_state ltac:(fun x =>
             nested (loop_slot_below_end (S fuel) x
                       ltac:(unfold in_range in *; proj_cbn; lra)
                       ltac:(proj_cbn; lra)) a1 P1).
           proj_cbn. qrun. close_yield.
      * (* loop is 1: end goes to 1, its slot pulls loop back *)
        rewrite dataChanged_end.
        nested (start_slot_loop_over_end fuel
                  (Direct.store PointEnd (m_loopPointModel a + eps) a)
                  (store_range _ _ _ R)
                  ltac:(proj_cbn; unfold eps in *; lra)
                  ltac:(proj_cbn; unfold eps in *; lra)
                  ltac:(proj_cbn; unfold eps in *; lra)) a1 P1.
        proj_cbn. unfold eps, ordered in *. qrun.
        rewrite setValue_same by (proj_cbn; lra).
        cbn [Direct.bind]. qrun. close_yield.
Qed.

(** The start slot on a state with all three markers at 0: end is nudged
    up. *)
Lemma start_slot_at_zero fuel a :
  in_range a ->
  m_startPointModel a <= m_endPointModel a ->
  m_endPointModel a <= m_loopPointModel a ->
  m_endPointModel a == 0 ->
  yields (Direct.dataChanged (S (S (S (S (S fuel))))) PointStart a)
    (fun a' =>
       in_range a' /\
       m_startPointModel a' == 0 /\ m_endPointModel a' == eps /\
       m_loopPointModel a' == 0).
Proof.
  intros R SE EL E0.
  assert (R' := R). destruct R' as (Rs & Re & Rl).
  open_slot. qrun.
  pose proof (qMax_0_cases (m_endPointModel a - eps)) as M.
  set (l1 := qMax (m_endPointModel a - eps) 0) in *.
  assert (L1 : l1 == 0) by (unfold eps in *; lra).
  assert (FV : fittedValue l1 == 0)
    by (rewrite L1; apply fittedValue_id; lra).
  clearbody l1.
  assert (FE : fittedValue eps == eps)
    by (apply fittedValue_id; unfold eps; lra).
  destruct (Qeq_dec (m_loopPointModel a) 0) as [L0|L0].
  - rewrite setValue_same by (proj_cbn; lra).
    cbn [Direct.bind]. qrun.
    pose proof (qMin_1_cases (m_endPointModel a + eps)) as N.
    set (e1 := qMin (m_endPointModel a + eps) 1) in *.
    assert (E1 : e1 == eps) by (unfold eps in *; lra).
    assert (FV1 : fittedValue e1 == eps) by (rewrite E1; exact FE).
    clearbody e1.
    rewrite setValue_changed by (proj_cbn; unfold eps in *; lra).
    rewrite dataChanged_stable
      by (unfold ordered; proj_cbn; unfold eps in *; lra).
    cbn [Direct.bind]. close_yield.
  - rewrite setValue_changed by (proj_cbn; lra).
    on_state ltac:(fun x =>
      nested (loop_slot_over_end fuel x
                ltac:(unfold in_range in *; proj_cbn; lra)
                ltac:(proj_cbn; lra)
                ltac:(proj_cbn; lra)) a1 P1).
    proj_cbn. unfold eps, ordered in *. qrun. close_yield.
Qed.

(** The start slot on a state with loop < start <= end: loop is set to
    start; when start and end coincide, the loop slot then pushes end
    up. *)
Lemma start_slot_loop_below_start fuel a :
  in_range a ->
  m_startPointModel a <= m_endPointModel a ->
  m_loopPointModel a < m_startPointModel a ->
  yields (Direct.dataChanged (S (S (S (S (S fuel))))) PointStart a)
    (fun a' =>
       in_range a' /\ ordered a' /\
       m_endPointModel a <= m_endPointModel a' /\
       ((m_startPointModel a < m_endPointModel a /\
         m_startPointModel a' == m_startPointModel a /\
         m_endPointModel a' == m_endPointModel a /\
         m_loopPointModel a' == m_startPointModel a) \/
        (m_startPointModel a == m_endPointModel a /\
         m_startPointModel a + eps < 1 /\
         m_startPointModel a' == m_startPointModel a /\
         m_endPointModel a' == m_startPointModel a + eps /\
         m_loopPointModel a' == m_startPointModel a) \/
        (m_startPointModel a == m_endPointModel a /\
         1 <= m_startPointModel a + eps /\
         m_startPointModel a' == 1 - eps /\
         m_endPointModel a' == 1 /\
         m_loopPointModel a' == 1 - eps))).
Proof.
  intros R SE LS.
  assert (R' := R). destruct R' as (Rs & Re & Rl).
  assert (FS : fittedValue (m_startPointModel a) == m_startPointModel a)
    by (apply fittedValue_id; lra).
  open_slot. qrun.
  rewrite setValue_changed by (proj_cbn; lra).
  destruct (Qlt_le_dec (m_startPointModel a) (m_endPointModel a)) as [C|C].
  - rewrite dataChanged_stable by (unfold ordered; proj_cbn; lra).
    cbn [Direct.bind]. qrun. close_yield.
  - on_state ltac:(fun x =>
      nested (loop_slot_over_end fuel x
                ltac:(unfold in_range in *; proj_cbn; lra)
                ltac:(proj_cbn; lra)
                ltac:(proj_cbn; lra)) a1 P1).
    proj_cbn. unfold eps, ordered in *. qrun. close_yield.
Qed.

(** The start slot on a state with start <= end: the markers end in
    order, and end is not lowered. *)
Lemma start_slot_no_swap fuel a :
  in_range a ->
  m_startPointModel a <= m_endPointModel a ->
  yields (Direct.dataChanged (S (S (S (S (S fuel))))) PointStart a)
    (fun a' =>
       in_range a' /\ ordered a' /\
       m_endPointModel a <= m_endPointModel a').
Proof.
  intros R SE.
  assert (R' := R). destruct R' as (Rs & Re & Rl).
  destruct (Qlt_le_dec (m_loopPointModel a) (m_startPointModel a)) as [C|C].
  - destruct (start_slot_loop_below_start fuel a R SE C)
      as (a' & E & P1 & P2 & P3 & _).
    exists a'. auto.
  - destruct (Qlt_le_dec (m_loopPointModel a) (m_endPointModel a))
      as [D|D].
    + rewrite dataChanged_stable by (unfold ordered; lra).
      eexists. split; [reflexivity|].
      unfold in_range, ordered. proj_cbn. lra.
    + destruct (Qlt_le_dec 0 (m_endPointModel a)) as [Z|Z].
      * destruct (start_slot_loop_over_end (S (S fuel)) a R SE D Z)
          as (a' & E & P1 & P2 & P3 & _).
        exists a'. split; [exact E|]. split; [exact P1|].
        split; [exact P2 | lra].
      * destruct (start_slot_at_zero fuel a R SE D ltac:(lra))
          as (a' & E & P1 & P2 & P3 & P4).
        exists a'. split; [exact E|]. split; [exact P1|].
        unfold ordered, eps in *. lra.
Qed.

(** The start slot on a state with end < start: the values are swapped
    (each store runs its slot), and the markers end in order. *)
Lemma start_slot_swap fuel a :
  in_range a ->
  m_endPointModel a < m_startPointModel a ->
  yields (Direct.dataChanged (S (S (S (S (S (S fuel)))))) PointStart a)
    (fun a' =>
       in_range a' /\ ordered a' /\
       m_startPointModel a' == m_endPointModel a /\
       m_startPointModel a <= m_endPointModel a').
Proof.
  intros R ES.
  assert (R' := R). destruct R' as (Rs & Re & Rl).
  assert (FS : fittedValue (m_startPointModel a) == m_startPointModel a)
    by (apply fittedValue_id; lra).
  open_slot. qrun.
  rewrite setValue_changed by (proj_cbn; lra).
  rewrite dataChanged_end.
  on_state ltac:(fun x =>
    nested (start_slot_no_swap fuel x
              ltac:(unfold in_range in *; proj_cbn; lra)
              ltac:(proj_cbn; lra)) a1 P1).
  proj_cbn. destruct P1 as (R1 & O1 & E1).
  nested (setStart_below_end (S (S (S fuel))) a1 (m_endPointModel a)
            R1 O1 Re ltac:(lra)) a2 P2.
  unfold ordered in *. qrun. close_yield.
Qed.

(** Whatever the state, the slot of a model leaves the markers in range
    and in order: start <= loop < end. *)
Lemma start_slot_orders fuel a :
  in_range a ->
  yields (Direct.dataChanged (S (S (S (S (S (S fuel)))))) PointStart a)
    (fun a' => in_range a' /\ ordered a').
Proof.
  intro R.
  destruct (Qlt_le_dec (m_endPointModel a) (m_startPointModel a)) as [C|C].
  - destruct (start_slot_swap fuel a R C) as (a' & E & P1 & P2 & _).
    exists a'. auto.
  - destruct (start_slot_no_swap (S fuel) a R C) as (a' & E & P1 & P2 & _).
    exists a'. auto.
Qed.

Lemma loop_slot_orders fuel a :
  in_range a ->
  yields (Direct.dataChanged (S (S (S (S (S (S (S fuel))))))) PointLoop a)
    (fun a' => in_range a' /\ ordered a').
Proof.
  intro R.
  assert (R' := R). destruct R' as (Rs & Re & Rl).
  destruct (Qlt_le_dec (m_loopPointModel a) (m_endPointModel a)) as [C|C].
  - destruct (loop_slot_below_end (S (S (S (S (S fuel))))) a R C)
      as (a' & E & P1 & P2 & P3 & P4).
    exists a'. split; [exact E|]. split; [exact P1|].
    unfold ordered. lra.
  - assert (FP : fittedValue (1 - eps) == 1 - eps)
      by (apply fittedValue_id; unfold eps; lra).
    pose proof (fittedValue_cases (m_loopPointModel a + eps)) as FE.
    open_slot. qrun.
    destruct (Qeq_dec (fittedValue (m_loopPointModel a + eps))
                (m_endPointModel a)) as [Same|Ch].
    + (* end stays: it is 1, and so is loop *)
      rewrite setValue_same by exact Same.
      cbn [Direct.bind]. unfold eps in *. qrun.
      rewrite setValue_changed by (proj_cbn; lra).
      on_state ltac:(fun x =>
        nested (loop_slot_below_end (S (S (S (S fuel)))) x
                  ltac:(unfold in_range in *; proj_cbn; lra)
                  ltac:(proj_cbn; lra)) a1 P1).
      proj_cbn. qrun. close_yield.
    + rewrite setValue_changed by exact Ch.
      rewrite dataChanged_end.
      nested (start_slot_orders fuel
                (Direct.store PointEnd (m_loopPointModel a + eps) a)
                (store_range _ _ _ R)) a1 P1.
      destruct P1 as (R1 & O1l & O1e).
      assert (R1' := R1). destruct R1' as (R1s & R1e & R1l).
      destruct (Qeq_dec (m_endPointModel a1) 1) as [E1|E1].
      * qrun.
        destruct (Qeq_dec (1 - eps) (m_loopPointModel a1)) as [L9|L9].
        -- rewrite setValue_same by (proj_cbn; lra).
           cbn [Direct.bind]. qrun. close_yield.
        -- rewrite setValue_changed by (proj_cbn; lra).
           on_state ltac:(fun x =>
             nested (loop_slot_below_end (S (S (S (S fuel)))) x
                       ltac:(unfold in_range, eps in *; proj_cbn; lra)
                       ltac:(proj_cbn; unfold eps in *; lra)) a2 P2).
           proj_cbn. unfold eps in *. qrun. close_yield.
      * qrun. close_yield.
Qed.

(** The emission of [dataChanged] by any of the three models, in any
    state with the markers in range, returns (eight levels of nesting are
    enough), and leaves start <= loop < end. *)
Lemma dataChanged_orders fuel k a :
  (8 <= fuel)%nat -> in_range a ->
  yields (Direct.dataChanged fuel k a)
    (fun a' => in_range a' /\ ordered a').
Proof.
  intros F R.
  do 8 (destruct fuel as [|fuel]; [lia|]).
  destruct k.
  - apply (start_slot_orders (S (S fuel))), R.
  - rewrite dataChanged_end. apply (start_slot_orders (S (S fuel))), R.
  - apply (loop_slot_orders (S fuel)), R.
Qed.

(** *** What the slots leave alone *)

Lemma bind_Some {A B} (x : option A) (f : A -> option B) b :
  Direct.bind x f = Some b -> exists a, x = Some a /\ f a = Some b.
Proof. destruct x as [a|]; cbn; [eauto | discriminate]. Qed.

Lemma sameRest_refl a : sameRest a a.
Proof. repeat split. Qed.

Lemma sameRest_trans a b c : sameRest a b -> sameRest b c -> sameRest a c.
Proof.
  unfold sameRest. intros (A1 & A2 & A3 & A4) (B1 & B2 & B3 & B4).
  repeat split; congruence.
Qed.

Lemma sameRest_store k v a : sameRest a (Direct.store k v a).
Proof. destruct k; repeat split. Qed.

Lemma sameRest_pointChanged a : sameRest a (Direct.pointChanged a).
Proof. repeat split. Qed.

Lemma setValue_sameRest emit k v a a' :
  (forall k a a', emit k a = Some a' -> sameRest a a') ->
  Direct.setValue emit k v a = Some a' -> sameRest a a'.
Proof.
  intros IH. unfold Direct.setValue.
  destruct (Qeqb _ _).
  - intro E. injection E as <-. apply sameRest_refl.
  - intro E. eapply sameRest_trans; [apply sameRest_store|].
    exact (IH _ _ _ E).
Qed.

Ltac unbind :=
  repeat match goal with
  | H : Direct.bind _ _ = Some _ |- _ =>
      let a := fresh "a" in let E := fresh "E" in
      apply bind_Some in H; destruct H as (a & E & H)
  end.

(** A slot keeps the length of the sample, the loop mode, the stutter flag
    and the interpolation mode, and ends with [pointChanged]. *)
Lemma slot_rest emit k a a' :
  (forall k a a', emit k a = Some a' -> sameRest a a') ->
  Direct.slot emit k a = Some a' ->
  sameRest a a' /\ exists b, a' = Direct.pointChanged b.
Proof.
  intros IH H.
  assert (SV := fun k v a a' => setValue_sameRest emit k v a a' IH).
  destruct k; unfold Direct.slot, Direct.endPointChanged,
    Direct.startPointChanged, Direct.loopPointChanged in H; unbind.
  1,2: injection H as <-; split; [|eexists; reflexivity];
    (eapply sameRest_trans; [|apply sameRest_pointChanged]);
    assert (S0 : sameRest a a0);
    [ unfold Direct.swapStartEnd in E;
      destruct (Qltb _ _);
      [ unbind; eapply sameRest_trans; eapply SV; eassumption
      | injection E as <-; apply sameRest_refl ]
    | assert (S1 : sameRest a0 a1);
      [ unfold Direct.nudgeLoopWithEnd in E0;
        destruct (Qleb _ _);
        [ eapply SV; eassumption
        | injection E0 as <-; apply sameRest_refl ]
      | assert (S2 : sameRest a1 a2);
        [ unfold Direct.nudgeLoopWithStart in E1;
          destruct (Qltb _ _);
          [ eapply SV; eassumption
          | injection E1 as <-; apply sameRest_refl ]
        | assert (S3 : sameRest a2 a3);
          [ unfold Direct.nudgeEndUp in E2;
            destruct (Qeqb _ _);
            [ eapply SV; eassumption
            | injection E2 as <-; apply sameRest_refl ]
          | eapply sameRest_trans; [exact S0|];
            eapply sameRest_trans; [exact S1|];
            eapply sameRest_trans; [exact S2 | exact S3] ] ] ] ].
  injection H as <-. split; [|eexists; reflexivity].
  eapply sameRest_trans; [|apply sameRest_pointChanged].
  assert (S0 : sameRest a a0).
  { unfold Direct.pushEndWithLoop in E.
    destruct (Qleb _ _); [|injection E as <-; apply sameRest_refl].
    unbind. eapply sameRest_trans; [eapply SV; eassumption|].
    destruct (Qeqb _ _); [eapply SV; eassumption|].
    injection E as <-. apply sameRest_refl. }
  assert (S1 : sameRest a0 a1).
  { unfold Direct.nudgeStartWithLoop in E0.
    destruct (Qltb _ _); [eapply SV; eassumption|].
    injection E0 as <-. apply sameRest_refl. }
  eapply sameRest_trans; eassumption.
Qed.

Lemma dataChanged_rest fuel :
  forall k a a',
    Direct.dataChanged fuel k a = Some a' ->
    sameRest a a' /\ exists b, a' = Direct.pointChanged b.
Proof.
  induction fuel as [|fuel IH]; intros k a a' H; [discriminate|].
  rewrite dataChanged_S in H.
  apply (slot_rest (Direct.dataChanged fuel) k a a'); [|exact H].
  intros k0 a0 a0' H0. exact (proj1 (IH _ _ _ H0)).
Qed.

(** *** Edits *)

Lemma applyEdit_direct fuel a e :
  (8 <= fuel)%nat -> in_range a ->
  yields (Direct.applyEdit fuel a e)
    (fun a' =>
       in_range a' /\ (ordered a -> ordered a') /\ editKeeps a e a' /\
       if changesValue a e
       then ordered a' /\ exists b, a' = Direct.pointChanged b
       else a' = a).
Proof.
  intros F R.
  assert (SV : forall k v,
            yields (Direct.setValue (Direct.dataChanged fuel) k v a)
              (fun a' =>
                 in_range a' /\ (ordered a -> ordered a') /\
                 sameRest a a' /\
                 if negb (Qeqb (fittedValue v) (knobValue k a))
                 then ordered a' /\ exists b, a' = Direct.pointChanged b
                 else a' = a)).
  { intros k v. unfold Direct.setValue.
    destruct (Qeqb (fittedValue v) (knobValue k a)); cbn [negb].
    - exists a. split; [reflexivity|]. split; [exact R|].
      split; [auto|]. split; [apply sameRest_refl | reflexivity].
    - destruct (dataChanged_orders fuel k (Direct.store k v a) F
                  (store_range k v a R)) as (a' & E & R' & O').
      destruct (dataChanged_rest fuel _ _ _ E) as [SR PC].
      exists a'. split; [exact E|]. split; [exact R'|].
      split; [auto|]. split; [|split; assumption].
      eapply sameRest_trans; [apply sameRest_store | exact SR]. }
  destruct e as [v|v|v|n]; cbn [Direct.applyEdit changesValue editKeeps].
  - apply (SV PointStart v).
  - apply (SV PointEnd v).
  - apply (SV PointLoop v).
  - unfold Direct.setAudioFile. cbv zeta.
    change (Direct.loopPointChanged (Direct.dataChanged fuel) ?x)
      with (Direct.dataChanged (S fuel) PointLoop x).
    set (x := setSample _ a).
    destruct (dataChanged_orders (S fuel) PointLoop x ltac:(lia)
                (setSample_range _ a R)) as (a' & E & R' & O').
    destruct (dataChanged_rest _ _ _ _ E) as [SR PC].
    exists a'. split; [exact E|]. split; [exact R'|].
    split; [auto|]. split; [|split; assumption].
    destruct SR as (S1 & S2 & S3 & S4). repeat split; assumption.
Qed.

Lemma applyEdits_direct fuel es :
  (8 <= fuel)%nat ->
  forall a,
    in_range a -> ordered a ->
    yields (Direct.applyEdits fuel es a)
      (fun a' => in_range a' /\ ordered a').
Proof.
  intro F. induction es as [|e es IH]; intros a R O.
  - exists a. split; [reflexivity|]. split; assumption.
  - cbn [Direct.applyEdits].
    destruct (applyEdit_direct fuel a e F R) as (a1 & E & R1 & O1 & _).
    rewrite E. cbn [Direct.bind]. apply IH; auto.
Qed.

(** C1.  After every sequence of setStart, setEnd and setLoop calls (and
    file loads), each [setValue] running the slots of the models it
    changes to completion, the normalized markers satisfy start < end and
    start <= loop < end.  This holds from every state with the markers in
    [0,1] and start <= loop < end, the freshly constructed plugin among
    them.  Every call returns: eight levels of nested slots are enough. *)
Theorem edits_keep_start_before_end (fuel : nat) (es : list edit)
  (a : AudioFileProcessor) :
  (8 <= fuel)%nat -> in_range a -> ordered a ->
  exists a',
    Direct.applyEdits fuel es a = Some a' /\
    in_range a' /\
    m_startPointModel a' < m_endPointModel a' /\
    m_startPointModel a' <= m_loopPointModel a' /\
    m_loopPointModel a' < m_endPointModel a'.
Proof.
  intros F R O.
  destruct (applyEdits_direct fuel es F a R O) as (a' & E & R' & O1 & O2).
  exists a'. split; [exact E|]. split; [exact R'|].
  split; [lra|]. split; assumption.
Qed.

Lemma edits_keep_start_before_end_witness :
  (8 <= 8)%nat /\ in_range AudioFileProcessor_new /\
  ordered AudioFileProcessor_new /\
  exists a,
    Direct.applyEdits 8 [SetStart 1] AudioFileProcessor_new = Some a /\
    m_startPointModel a == 999 # 1000 /\ m_endPointModel a == 1 /\
    m_loopPointModel a == 999 # 1000 /\
    m_startPointModel a < m_endPointModel a.
Proof.
  assert (F : (8 <= 8)%nat) by lia.
  split; [exact F|]. split; [exact new_range|]. split; [exact new_ordered|].
  destruct (edits_keep_start_before_end 8 [SetStart 1]
              AudioFileProcessor_new F new_range new_ordered)
    as (a & E & _ & SE & _).
  exists a. split; [exact E|].
  assert (M : m_startPointModel a == 999 # 1000 /\
              m_endPointModel a == 1 /\ m_loopPointModel a == 999 # 1000).
  { vm_compute in E. injection E as <-.
    repeat split; vm_compute; reflexivity. }
  destruct M as (M1 & M2 & M3).
  split; [exact M1|]. split; [exact M2|]. split; [exact M3 | exact SE].
Defined.

(** Whatever values the three models hold, once one of them emits
    [dataChanged] the slots restore the order: the emission returns (eight
    levels of nesting are enough) with the markers in range and
    start <= loop < end, the length of the sample, the loop mode, the
    stutter flag and the interpolation mode as they were, and the
    continuation cursor at the start frame, forwards. *)
Theorem slots_restore_order (fuel : nat) (k : Point)
  (a : AudioFileProcessor) :
  (8 <= fuel)%nat -> in_range a ->
  exists a',
    Direct.dataChanged fuel k a = Some a' /\
    in_range a' /\ ordered a' /\ sameRest a a' /\ cursorAtStart a'.
Proof.
  intros F R.
  destruct (dataChanged_orders fuel k a F R) as (a' & E & R' & O').
  destruct (dataChanged_rest fuel _ _ _ E) as [SR [b ->]].
  exists (Direct.pointChanged b). split; [exact E|].
  split; [exact R'|]. split; [exact O'|]. split; [exact SR|].
  apply direct_pointChanged_cursor.
Qed.

Lemma slots_restore_order_witness :
  let a := mkAFP (mkSample 100 0 0 0 0) (9 # 10) (2 # 10) (5 # 10)
                 LoopOff false 1 0 false in
  (8 <= 8)%nat /\ in_range a /\
  exists a',
    Direct.dataChanged 8 PointStart a = Some a' /\
    m_startPointModel a' == 2 # 10 /\ m_endPointModel a' == 901 # 1000 /\
    m_loopPointModel a' == 9 # 10 /\ ordered a'.
Proof.
  cbv zeta.
  assert (F : (8 <= 8)%nat) by lia.
  assert (R : in_range (mkAFP (mkSample 100 0 0 0 0) (9 # 10) (2 # 10)
                          (5 # 10) LoopOff false 1 0 false))
    by (unfold in_range; cbn; lra).
  split; [exact F|]. split; [exact R|].
  destruct (slots_restore_order 8 PointStart _ F R)
    as (a' & E & _ & O & _).
  exists a'. split; [exact E|].
  assert (M : m_startPointModel a' == 2 # 10 /\
              m_endPointModel a' == 901 # 1000 /\
              m_loopPointModel a' == 9 # 10).
  { vm_compute in E. injection E as <-.
    repeat split; vm_compute; reflexivity. }
  destruct M as (M1 & M2 & M3).
  split; [exact M1|]. split; [exact M2|]. split; [exact M3 | exact O].
Defined.

(** An edit restarts the stutter continuation exactly when it changes a
    value.  A toggle of the stutter button, a file load, and a setStart,
    setEnd or setLoop that stores a value its model did not have all end
    with the continuation cursor at the start frame, forwards: the next
    note without playback state starts there, in stutter mode too.  A
    setStart, setEnd or setLoop that stores the value the model already
    has emits nothing and leaves the plugin, cursor included, as it is. *)
Theorem edits_restart_stutter (fuel : nat) (a : AudioFileProcessor)
  (n : NotePlayHandle) (e : edit) :
  (8 <= fuel)%nat -> in_range a -> m_pluginData n = None ->
  newNoteFromStart (toggleStutter a) n /\
  exists a',
    Direct.applyEdit fuel a e = Some a' /\
    if changesValue a e then newNoteFromStart a' n else a' = a.
Proof.
  intros F R D. split.
  - apply notePlaybackState_cursorAtStart; [|exact D]. split; reflexivity.
  - destruct (applyEdit_direct fuel a e F R) as (a' & E & _ & _ & _ & C).
    exists a'. split; [exact E|].
    destruct (changesValue a e); [|exact C].
    destruct C as [_ [b ->]].
    apply notePlaybackState_cursorAtStart; [|exact D].
    apply direct_pointChanged_cursor.
Qed.

Lemma edits_restart_stutter_witness :
  let a := demoPlugin LoopOff true 60 in
  let n := demoNote 440 None in
  (8 <= 8)%nat /\ in_range a /\ m_pluginData n = None /\
  frameIndex (snd (notePlaybackState a n)) = 60%Z /\
  Direct.applyEdit 8 a (SetEnd 1) = Some a /\
  exists a',
    Direct.applyEdit 8 a (SetEnd (9 # 10)) = Some a' /\
    frameIndex (snd (notePlaybackState a' n)) = 0%Z.
Proof.
  cbv zeta.
  assert (F : (8 <= 8)%nat) by lia.
  assert (R : in_range (demoPlugin LoopOff true 60))
    by (unfold in_range; cbn; lra).
  split; [exact F|]. split; [exact R|]. split; [reflexivity|].
  split; [reflexivity|]. split; [reflexivity|].
  destruct (edits_restart_stutter 8 (demoPlugin LoopOff true 60)
              (demoNote 440 None) (SetEnd (9 # 10)) F R eq_refl)
    as [_ (a' & E & C)].
  exists a'. split; [exact E|].
  change (changesValue (demoPlugin LoopOff true 60) (SetEnd (9 # 10)))
    with true in C.
  destruct C as (_ & Fr & _). rewrite Fr.
  vm_compute in E. injection E as <-. reflexivity.
Defined.

(** *** The knobs with the slots of their models *)





(** On a sample of 100 seconds with start 0.5, end 1 and loop 0.9, the
    end knob slid to 1025/2048 (0.50048828125) passes the bound check;
    the loop marker is set 0.001 below the new end and takes the start
    marker with it. *)
Lemma slide_end_takes_start_along :
  let a := mkAFP (mkSample 10000 5000 10000 9000 10000) (1 # 2) 1 (9 # 10)
                 LoopOff false 1%Z 5000%Z false in
  match slideTo 8 PointEnd (1025 # 2048) true 100 a with
  | Some a' =>
      m_startPointModel a' == (1025 # 2048) - eps /\
      m_endPointModel a' == 1025 # 2048 /\
      m_loopPointModel a' == (1025 # 2048) - eps
  | None => False
  end.
Proof. vm_compute. repeat split. Qed.

(** *** The frame markers a slot leaves *)

Lemma direct_toFrame_mono s x y :
  (0 <= sampleSize s)%Z -> 0 <= x -> x <= y ->
  (Direct.toFrame x s <= Direct.toFrame y s)%Z.
Proof.
  intros N X H. unfold Direct.toFrame. apply Qtrunc_mono.
  pose proof (round32_nonneg _ (inject_Z_nonneg _ N)) as R.
  apply round32_mono.
  - apply Qmult_le_0_compat; assumption.
  - apply Qmult_le_compat_r; assumption.
Qed.

Lemma direct_toFrame_zero s : Direct.toFrame 0 s = 0%Z.
Proof.
  unfold Direct.toFrame.
  rewrite (round32_zero (0 * round32 (inject_Z (sampleSize s))))
    by apply Qmult_0_l.
  reflexivity.
Qed.

(** A sample of at most 2^24 frames has a length that is a [float], and
    the marker 1.0 is its last frame. *)
Lemma direct_toFrame_one s :
  (0 <= sampleSize s <= 2 ^ 24)%Z -> Direct.toFrame 1 s = sampleSize s.
Proof.
  intro N. unfold Direct.toFrame.
  pose proof (round32_inject_Z _ N) as E.
  pose proof (inject_Z_nonneg _ (proj1 N)) as P.
  assert (E2 : round32 (1 * round32 (inject_Z (sampleSize s)))
               == inject_Z (sampleSize s)).
  { apply Qeq_trans with (round32 (inject_Z (sampleSize s)));
      [|exact E].
    apply round32_comp; [|rewrite E; ring].
    rewrite E. lra. }
  pose proof (Qtrunc_inject_Z (sampleSize s)) as T.
  set (r := round32 (1 * round32 (inject_Z (sampleSize s)))) in *.
  assert (L1 : r <= inject_Z (sampleSize s)) by lra.
  assert (L2 : inject_Z (sampleSize s) <= r) by lra.
  apply Qtrunc_mono in L1, L2. lia.
Qed.

(** Beyond 2^24 frames the length of the sample is rounded, and the
    marker 1.0 can lie behind the last frame: 16777219 frames give frame
    16777220. *)
Lemma direct_toFrame_long_sample :
  Direct.toFrame 1 (mkSample 16777219 0 0 0 0) = 16777220%Z.
Proof. vm_compute. reflexivity. Qed.

(** The frame markers after a slot, for a sample of at most 2^24
    frames. *)
Lemma dataChanged_frames (fuel : nat) (k : Point)
  (a : AudioFileProcessor) :
  (8 <= fuel)%nat -> in_range a ->
  (0 <= sampleSize (m_sample a) <= 2 ^ 24)%Z ->
  exists a',
    Direct.dataChanged fuel k a = Some a' /\
    sampleSize (m_sample a') = sampleSize (m_sample a) /\
    (0 <= startFrame (m_sample a') <= loopStartFrame (m_sample a'))%Z /\
    (loopStartFrame (m_sample a') <= endFrame (m_sample a'))%Z /\
    loopEndFrame (m_sample a') = endFrame (m_sample a') /\
    (endFrame (m_sample a') <= sampleSize (m_sample a'))%Z.
Proof.
  intros F R N.
  destruct (dataChanged_orders fuel k a F R) as (a' & E & R' & O').
  destruct (dataChanged_rest fuel _ _ _ E) as [SR [b ->]].
  exists (Direct.pointChanged b). split; [exact E|].
  destruct SR as (SZ & _).
  split; [exact SZ|].
  unfold in_range, ordered in R', O'. proj_cbn.
  rewrite <- SZ in N.
  cbn [setAllPointFrames sampleSize startFrame endFrame loopStartFrame
       loopEndFrame] in *.
  destruct R' as (Rs & Re & Rl). destruct O' as [O1 O2].
  pose proof (direct_toFrame_zero (m_sample b)) as Z0.
  pose proof (direct_toFrame_one (m_sample b) N) as Z1.
  pose proof (direct_toFrame_mono (m_sample b) 0 (m_startPointModel b)
                (proj1 N) ltac:(lra) ltac:(lra)).
  pose proof (direct_toFrame_mono (m_sample b) (m_startPointModel b)
                (m_loopPointModel b) (proj1 N) ltac:(lra) ltac:(lra)).
  pose proof (direct_toFrame_mono (m_sample b) (m_loopPointModel b)
                (m_endPointModel b) (proj1 N) ltac:(lra) ltac:(lra)).
  pose proof (direct_toFrame_mono (m_sample b) (m_endPointModel b) 1
                (proj1 N) ltac:(lra) ltac:(lra)).
  split; [lia|]. split; [lia|]. split; [reflexivity|]. lia.
Qed.


(** Every run of a slot leaves the frame markers in order inside the
    sample, when the sample has at most 2^24 frames.  For every state
    with the normalized markers in [0,1] and a sample of 0 to 2^24
    frames, the slot of any of the three point models returns, and then
    0 <= startFrame <= loopStartFrame <= endFrame = loopEndFrame <=
    sampleSize, with the length of the sample as it was.  The frames are
    computed with the rounding of [float]. *)
Theorem slots_keep_frames_inside_sample (fuel : nat) (k : Point)
  (a : AudioFileProcessor) :
  (8 <= fuel)%nat -> in_range a ->
  (0 <= sampleSize (m_sample a) <= 2 ^ 24)%Z ->
  exists a',
    Direct.dataChanged fuel k a = Some a' /\
    sampleSize (m_sample a') = sampleSize (m_sample a) /\
    (0 <= startFrame (m_sample a') <= loopStartFrame (m_sample a'))%Z /\
    (loopStartFrame (m_sample a') <= endFrame (m_sample a'))%Z /\
    loopEndFrame (m_sample a') = endFrame (m_sample a') /\
    (endFrame (m_sample a') <= sampleSize (m_sample a'))%Z.
Proof. apply dataChanged_frames. Qed.

Lemma slots_keep_frames_inside_sample_witness :
  let a := mkAFP (mkSample 16777216 0 0 0 0) (9 # 10) (2 # 10) (5 # 10)
                 LoopOff false 1%Z 0%Z false in
  (8 <= 8)%nat /\ in_range a /\
  (0 <= sampleSize (m_sample a) <= 2 ^ 24)%Z /\
  exists a',
    Direct.dataChanged 8 PointStart a = Some a' /\
    (0 <= startFrame (m_sample a') <= loopStartFrame (m_sample a'))%Z /\
    (endFrame (m_sample a') <= sampleSize (m_sample a'))%Z.
Proof.
  cbv zeta.
  set (a := mkAFP (mkSample 16777216 0 0 0 0) (9 # 10) (2 # 10) (5 # 10)
                  LoopOff false 1%Z 0%Z false).
  assert (F : (8 <= 8)%nat) by lia.
  assert (R : in_range a) by (unfold in_range, a; cbn; lra).
  assert (N : (0 <= sampleSize (m_sample a) <= 2 ^ 24)%Z)
    by (unfold a; cbn; lia).
  split; [exact F|]. split; [exact R|]. split; [exact N|].
  destruct (slots_keep_frames_inside_sample 8 PointStart a F R N)
    as (a' & E & _ & H1 & _ & _ & H2).
  exists a'. split; [exact E|]. split; [exact H1 | exact H2].
Defined.

(** *** The flat slots and the slots with signals *)

(** [setValue] with the value the model has emits nothing: nothing
    changes, whatever the state. *)
Lemma direct_setStart_own_value fuel a :
  in_range a -> Direct.setStart fuel (m_startPointModel a) a = Some a.
Proof.
  intros (R & _). unfold Direct.setStart. apply setValue_same.
  cbn [knobValue]. now apply fittedValue_id.
Qed.

(** On a state with start <= loop < end, [setLoop] with the signals of
    the models ends with the normalized markers that the slot run once
    ends with: the [setValue] calls inside [loopPointChanged] that change
    a marker start slots that find nothing more to change. *)
Lemma direct_setLoop_markers fuel v a :
  (8 <= fuel)%nat -> in_range a -> ordered a ->
  yields (Direct.setLoop fuel v a)
    (fun a' =>
       m_startPointModel a' == m_startPointModel (setLoop v a) /\
       m_endPointModel a' == m_endPointModel (setLoop v a) /\
       m_loopPointModel a' == m_loopPointModel (setLoop v a)).
Proof.
  intros F R O.
  do 8 (destruct fuel as [|fuel]; [lia|]). clear F.
  assert (O' := O). destruct O' as [O1 O2].
  assert (R' := R). destruct R' as (Rs & Re & Rl).
  pose proof (pointChanged_markers
                (nudgeStartWithLoop
                   (pushEndWithLoop (loopPoint_setValue v a))))
    as (P1 & P2 & P3).
  pose proof (nudgeStartWithLoop_exact
                (pushEndWithLoop (loopPoint_setValue v a)))
    as (N1 & N2 & N3).
  pose proof (pushEndWithLoop_exact (loopPoint_setValue v a))
    as (U1 & U2 & U3).
  cbn [loopPoint_setValue m_startPointModel m_endPointModel
       m_loopPointModel] in U1, U2, U3.
  fold (loopPointChanged (loopPoint_setValue v a)) in P1, P2, P3.
  fold (setLoop v a) in P1, P2, P3.
  rewrite N1 in P1. rewrite N2 in P2. rewrite N3 in P3. clear N1 N2 N3.
  rewrite U1, U3 in P1. rewrite U2 in P2. rewrite U3 in P3.
  clear U1 U2 U3.
  rewrite P1, P2, P3. clear P1 P2 P3.
  pose proof (fittedValue_range v) as FR.
  set (w := fittedValue v) in *.
  assert (Fw : fittedValue w == w) by (apply fittedValue_id; exact FR).
  assert (Fl : fittedValue (1 - eps) == 1 - eps)
    by (apply fittedValue_id; unfold eps; lra).
  assert (Fll : fittedValue (fittedValue (1 - eps)) == 1 - eps).
  { rewrite (fittedValue_comp _ _ Fl). exact Fl. }
  pose proof (fittedValue_cases (w + eps)) as Fc.
  unfold Direct.setLoop.
  destruct (Qeq_dec w (m_loopPointModel a)) as [Same|Ch].
  - rewrite setValue_same by exact Same.
    eexists. split; [reflexivity|].
    rewrite (proj2 (Qleb_gt (m_endPointModel a) w)) by lra.
    cbn [andb].
    rewrite (proj2 (Qltb_ge w (m_startPointModel a))) by lra.
    lra.
  - rewrite setValue_changed by exact Ch.
    destruct (Qlt_le_dec w (m_endPointModel a)) as [C|C].
    + destruct (loop_slot_below_end (S (S (S (S (S (S fuel))))))
                  (Direct.store PointLoop v a) (store_range _ _ _ R)
                  ltac:(proj_cbn; fold w; lra))
        as (a' & E & _ & Q2 & Q3 & Q1).
      exists a'. split; [exact E|].
      proj_cbn. fold w in Q1, Q3.
      rewrite (proj2 (Qleb_gt (m_endPointModel a) w)) by lra.
      cbn [andb].
      destruct (Qltb w (m_startPointModel a)) eqn:T;
        [apply Qltb_lt in T | apply Qltb_ge in T]; lra.
    + destruct (loop_slot_over_end (S (S (S (S fuel))))
                  (Direct.store PointLoop v a) (store_range _ _ _ R)
                  ltac:(proj_cbn; fold w; lra)
                  ltac:(proj_cbn; fold w; lra))
        as (a' & E & _ & _ & Q).
      exists a'. split; [exact E|].
      proj_cbn. fold w in Q.
      rewrite (proj2 (Qleb_le (m_endPointModel a) w)) by lra.
      cbn [andb]. unfold eps in *.
      destruct (Qeqb (fittedValue (w + (1 # 1000))) 1) eqn:T1;
        [apply Qeqb_eq in T1 | apply Qeqb_neq in T1].
      * destruct (Qltb (fittedValue (1 - (1 # 1000))) (m_startPointModel a))
          eqn:T2; [apply Qltb_lt in T2 | apply Qltb_ge in T2]; lra.
      * destruct (Qltb w (m_startPointModel a))
          eqn:T2; [apply Qltb_lt in T2 | apply Qltb_ge in T2]; lra.
Qed.

(** With the signals of the models, [setEnd 0] on the freshly constructed
    plugin with a sample of 100 frames ends as the slot run once does:
    start 0, end 0.001, loop 0, and start frame and end frame both 0. *)
Lemma direct_setEnd_zero_frames :
  match Direct.setEnd 8 0 (setAudioFile 100 AudioFileProcessor_new) with
  | Some a =>
      m_startPointModel a == 0 /\ m_endPointModel a == 1 # 1000 /\
      m_loopPointModel a == 0 /\
      startFrame (m_sample a) = 0%Z /\ endFrame (m_sample a) = 0%Z
  | None => False
  end.
Proof. vm_compute. repeat split. Qed.

(** *** Opening a file *)

(** Opening a file shows what will be played.  From any state with the
    normalized markers in [0,1], [openAudioFile] with a file of 2 to 2^24
    frames returns; the sample has the file's length, and the window of
    the wave view lies inside the sample and contains the region from the
    start frame to the end frame. *)
Theorem open_file_shows_played_region (fuel : nat) (n : N)
  (a : AudioFileProcessor) (w : WaveView) :
  (8 <= fuel)%nat -> in_range a -> (1 < Z.of_N n <= 2 ^ 24)%Z ->
  exists a' w',
    openAudioFile fuel n a w = Some (a', w') /\
    sampleSize (m_sample a') = Z.of_N n /\
    (0 <= m_from w' <= startFrame (m_sample a'))%Z /\
    (startFrame (m_sample a') <= endFrame (m_sample a'))%Z /\
    (endFrame (m_sample a') <= m_to w' <= Z.of_N n)%Z.
Proof.
  intros F R N.
  set (b := setSample (mkSample (Z.of_N n) 0 (Z.of_N n) 0 (Z.of_N n)) a).
  assert (Rb : in_range b) by (apply setSample_range, R).
  assert (Sb : sampleSize (m_sample b) = Z.of_N n) by reflexivity.
  destruct (dataChanged_frames (S fuel) PointLoop b ltac:(lia) Rb
              ltac:(rewrite Sb; lia))
    as (a' & E & Sz & (F0 & F1) & F2 & _ & F3).
  rewrite Sb in Sz.
  exists a', (updateSampleRange (m_sample a') w).
  unfold openAudioFile, Direct.setAudioFile. cbv zeta. fold b.
  rewrite dataChanged_S in E. cbn [Direct.slot] in E. rewrite E.
  split; [reflexivity|]. split; [exact Sz|].
  destruct (updateSampleRange_window (m_sample a') w
              ltac:(lia) ltac:(lia)) as [_ U].
  rewrite Sz in *. destruct (U ltac:(lia)) as (U1 & U2 & _).
  lia.
Qed.

Lemma open_file_shows_played_region_witness :
  let a := mkAFP (mkSample 0 0 0 0 0) (1 # 4) (3 # 4) (1 # 4)
                 LoopOff false 1%Z 0%Z false in
  (8 <= 8)%nat /\ in_range a /\ (1 < Z.of_N 1000 <= 2 ^ 24)%Z /\
  exists a' w',
    openAudioFile 8 1000 a (mkWaveView 0 0 false 245) = Some (a', w') /\
    (0 <= m_from w' <= startFrame (m_sample a'))%Z.
Proof.
  cbv zeta.
  set (a := mkAFP (mkSample 0 0 0 0 0) (1 # 4) (3 # 4) (1 # 4)
                  LoopOff false 1%Z 0%Z false).
  assert (F : (8 <= 8)%nat) by lia.
  assert (R : in_range a) by (unfold in_range, a; cbn; lra).
  assert (N : (1 < Z.of_N 1000 <= 2 ^ 24)%Z) by (cbn; lia).
  split; [exact F|]. split; [exact R|]. split; [exact N|].
  destruct (open_file_shows_played_region 8 1000 a
              (mkWaveView 0 0 false 245) F R N)
    as (a' & w' & E & _ & H & _).
  exists a', w'. split; [exact E | exact H].
Defined.

(** A file of 1000 frames opened with start 0.25 and end 0.75: the frames
    are 250 and 750, and the window goes from 200 to 800. *)
Lemma open_file_window :
  let a := mkAFP (mkSample 0 0 0 0 0) (1 # 4) (3 # 4) (1 # 4)
                 LoopOff false 1%Z 0%Z false in
  match openAudioFile 8 1000 a (mkWaveView 0 0 false 245) with
  | Some (a', w') =>
      startFrame (m_sample a') = 250%Z /\ endFrame (m_sample a') = 750%Z /\
      w' = mkWaveView 200 800 false 245
  | None => False
  end.
Proof. vm_compute. repeat split. Qed.
